(** * DuckDBResource: lock-serialised access to one DuckDB database file

    A shallow embedding of [src/dagster_example/resources.py]: the context
    manager [get_connection] and the two operations built on it,
    [execute_query] and [read_csv_to_table].

    The Python code is effectful: it touches the filesystem, an advisory
    [flock] lock, and the DuckDB engine, and it relies on [try]/[finally]
    for clean-up.  The embedding threads an explicit [World] through a small
    state-and-exception monad [M]; every library call of the source is one
    primitive of that monad and appends one [event] to the world's trace.

    Environment model (the libraries the source calls are not part of the
    repository):
    - [pathlib.Path] parsing, [str] and [.parent] follow [PurePosixPath];
    - the filesystem is a finite map from locations to nodes; locations are
      compared lexically ([..] and symbolic links are not resolved);
    - [flock] locks belong to open file descriptions and are exclusive;
    - DuckDB runs in its default auto-commit mode; only the statement built
      by [read_csv_to_table] is interpreted, every other statement is left
      to the [Engine] parameter.

    On top of the resource the file embeds its callers and neighbours:
    the assets [raw_customers], [customer_analytics] and [product_metrics]
    ([src/dagster_example/assets]), the two sensors of
    [src/dagster_example/sensors.py], and [generate_missing_sales] of
    [src/generate_sample_data.py].  For these,
    - [fetchone] and Dagster's logger add no event to the trace;
    - floats, the calendar and the random generator are record parameters
      ([Floats], [Calendar], [Random]) whose laws, where a property needs
      one, are hypotheses of that property;
    - a [pandas] table of sales is a list of typed rows. *)

From stdpp Require Import gmap strings list fin_maps sorting.
From Stdlib Require Import Ascii.
From Stdlib Require DecimalString DecimalZ DecimalPos.

Open Scope string_scope.
Open Scope list_scope.
Open Scope stdpp_scope.

(** ** Pure paths ([pathlib.PurePosixPath]) *)

Record PurePath := mkPath { root : string; parts : list string }.

#[global] Instance PurePath_eq_dec : EqDecision PurePath.
Proof. solve_decision. Defined.

#[global] Instance PurePath_countable : Countable PurePath :=
  inj_countable'
    (fun p => root p :: parts p)
    (fun l => match l with r :: ps => mkPath r ps | [] => mkPath "" [] end)
    (fun p => match p with mkPath _ _ => eq_refl end).

Fixpoint all_chars (f : ascii -> bool) (s : string) : bool :=
  match s with
  | EmptyString => true
  | String c s' => f c && all_chars f s'
  end.

Definition no_char (c : ascii) (s : string) : bool :=
  all_chars (fun a => negb (Ascii.eqb a c)) s.

(** [s.split("/")] *)
Fixpoint split_sep (s : string) : list string :=
  match s with
  | EmptyString => [EmptyString]
  | String c s' =>
      if Ascii.eqb c "/"%char then EmptyString :: split_sep s'
      else match split_sep s' with
           | h :: t => String c h :: t
           | [] => [String c EmptyString]
           end
  end.

(** ["/".join(l)] *)
Fixpoint join_sep (l : list string) : string :=
  match l with
  | [] => ""
  | x :: rest =>
      match rest with
      | [] => x
      | _ :: _ => x +:+ String "/" (join_sep rest)
      end
  end.

(** The root of a POSIX path: exactly two leading slashes are kept, any
    other positive number collapses to one. *)
Definition splitroot (s : string) : string :=
  match s with
  | String a s1 =>
      if Ascii.eqb a "/" then
        match s1 with
        | String b s2 =>
            if Ascii.eqb b "/" then
              match s2 with
              | String c _ => if Ascii.eqb c "/" then "/" else "//"
              | EmptyString => "//"
              end
            else "/"
        | EmptyString => "/"
        end
      else ""
  | EmptyString => ""
  end.

(** Components that survive parsing: [x for x in rel.split(sep) if x and x != '.'] *)
Definition keep_part (x : string) : bool :=
  negb (String.eqb x "") && negb (String.eqb x ".").

(** [Path(s)] *)
Definition Path (s : string) : PurePath :=
  {| root := splitroot s; parts := filter (fun x => keep_part x = true) (split_sep s) |}.

(** [str(p)] *)
Definition path_str (p : PurePath) : string :=
  match parts p with
  | [] => if String.eqb (root p) "" then "." else root p
  | _ :: _ => root p +:+ join_sep (parts p)
  end.

(** [p.parent] *)
Definition parent (p : PurePath) : PurePath :=
  {| root := root p; parts := removelast (parts p) |}.

(** [str(db_path) + ".lock"] *)
Definition lock_file_path (db_path : PurePath) : string :=
  path_str db_path +:+ ".lock".

(** The ancestors of [p], outermost first, [p] itself included. *)
Fixpoint prefixes (l : list string) : list (list string) :=
  [] :: match l with
        | [] => []
        | x :: rest => map (cons x) (prefixes rest)
        end.

Definition ancestors (p : PurePath) : list PurePath :=
  map (mkPath (root p)) (prefixes (parts p)).

(** ** Data held by the engine *)

Inductive value := VInt (z : Z) | VText (s : string) | VNull.

Definition row := list value.

Record table := mkTable { columns : list (string * string); rows : list row }.

Abbreviation database := (gmap string table).

(** ** Exceptions *)

Inductive oserror :=
  | FileExistsError | FileNotFoundError | NotADirectoryError
  | IsADirectoryError | PermissionError | NoLocksAvailable.

Inductive duckdb_error :=
  | IOException_open          (* the database file cannot be opened *)
  | IOException_no_files      (* read_csv_auto: no file at that path *)
  | InvalidInputException     (* read_csv_auto: content cannot be parsed *)
  | ParserException           (* malformed statement *)
  | ConnectionException.      (* the connection is already closed *)

Inductive exn :=
  | OSError (e : oserror)
  | ValueError
  | DuckDBError (e : duckdb_error)
  | UserException (tag : nat).

(** The failure classes the specification speaks of. *)
Inductive failure_class :=
  | ResourceUnavailable | ConnectionError | QueryError | LoadError | CallerError.

Definition classify (e : exn) : failure_class :=
  match e with
  | OSError _ => ResourceUnavailable
  | DuckDBError IOException_open => ConnectionError
  | DuckDBError IOException_no_files => LoadError
  | DuckDBError InvalidInputException => LoadError
  | DuckDBError ParserException => QueryError
  | DuckDBError ConnectionException => ConnectionError
  | ValueError => CallerError
  | UserException _ => CallerError
  end.

(** ** The world *)

Inductive node :=
  | NDir
  | NFile (data : string)
  | NDatabase (db : database).

Inductive flock_op := LOCK_EX | LOCK_UN.

Inductive event :=
  | EvMkdir (p : PurePath) (ok : bool)
  | EvOpen (path : string) (fd : option nat)
  | EvFlock (fd : nat) (op : flock_op) (ok : bool)
  | EvFlockWait (fd : nat)
  | EvClose (fd : nat)
  | EvConnect (path : string) (ok : bool)
  | EvExecute (sql : string) (ok : bool)
  | EvFetchall
  | EvCommit
  | EvConnClose.

Record World := mkWorld {
  fs : gmap PurePath node;          (* the directory tree *)
  readonly : gset PurePath;         (* locations the process may not write *)
  fds : gmap nat PurePath;          (* open file descriptions *)
  next_fd : nat;
  flocks : gmap PurePath nat;       (* exclusive locks: file -> holder *)
  lock_table_full : bool;           (* flock would fail with ENOLCK *)
  conns : gmap PurePath (list row); (* open connections and their result set *)
  trace : list event;
}.

Definition set_fs (f : gmap PurePath node) (w : World) : World :=
  mkWorld f (readonly w) (fds w) (next_fd w) (flocks w) (lock_table_full w) (conns w) (trace w).
Definition set_fds (f : gmap nat PurePath) (w : World) : World :=
  mkWorld (fs w) (readonly w) f (next_fd w) (flocks w) (lock_table_full w) (conns w) (trace w).
Definition set_next_fd (n : nat) (w : World) : World :=
  mkWorld (fs w) (readonly w) (fds w) n (flocks w) (lock_table_full w) (conns w) (trace w).
Definition set_flocks (f : gmap PurePath nat) (w : World) : World :=
  mkWorld (fs w) (readonly w) (fds w) (next_fd w) f (lock_table_full w) (conns w) (trace w).
Definition set_conns (c : gmap PurePath (list row)) (w : World) : World :=
  mkWorld (fs w) (readonly w) (fds w) (next_fd w) (flocks w) (lock_table_full w) c (trace w).
Definition emit (e : event) (w : World) : World :=
  mkWorld (fs w) (readonly w) (fds w) (next_fd w) (flocks w) (lock_table_full w) (conns w)
          (trace w ++ [e]).

(** ** The monad of the embedding *)

Inductive outcome (A : Type) :=
  | Return (a : A)
  | Raise (e : exn)
  | Blocked.
Arguments Return {A} a.
Arguments Raise {A} e.
Arguments Blocked {A}.

Definition M (A : Type) : Type := World -> World * outcome A.

Definition ret {A} (a : A) : M A := fun w => (w, Return a).
Definition raise {A} (e : exn) : M A := fun w => (w, Raise e).
Definition bind {A B} (m : M A) (k : A -> M B) : M B :=
  fun w =>
    match m w with
    | (w1, Return a) => k a w1
    | (w1, Raise e) => (w1, Raise e)
    | (w1, Blocked) => (w1, Blocked)
    end.

Notation "x <- m ;; k" := (bind m (fun x => k))
  (at level 100, m at next level, right associativity).
Notation "m ;;; k" := (bind m (fun _ => k))
  (at level 100, right associativity).

(** [try: m finally: fin].  The finaliser runs whether [m] returned or
    raised; an exception of the finaliser replaces the pending one. *)
Definition try_finally {A} (m : M A) (fin : M unit) : M A :=
  fun w =>
    match m w with
    | (w1, Blocked) => (w1, Blocked)
    | (w1, r) =>
        match fin w1 with
        | (w2, Return _) => (w2, r)
        | (w2, Raise e) => (w2, Raise e)
        | (w2, Blocked) => (w2, Blocked)
        end
    end.

(** ** Operating-system primitives *)

Definition is_dir (p : PurePath) (w : World) : bool :=
  match fs w !! p with
  | Some NDir => true
  | _ => false
  end.

(** Permissions: writing an existing node needs write access to it;
    creating one needs write access to the location and to its directory. *)
Definition may_write (loc : PurePath) (w : World) : bool :=
  bool_decide (loc ∉ readonly w).

Definition may_create (loc : PurePath) (w : World) : bool :=
  may_write (parent loc) w && may_write loc w.

(** [os.mkdir(p)]: one level only. *)
Definition os_mkdir (p : PurePath) (w : World) : World * option oserror :=
  match fs w !! p with
  | Some _ => (w, Some FileExistsError)
  | None =>
      match fs w !! parent p with
      | None => (w, Some FileNotFoundError)
      | Some NDir =>
          if may_create p w then (set_fs (<[p := NDir]> (fs w)) w, None)
          else (w, Some PermissionError)
      | Some _ => (w, Some NotADirectoryError)
      end
  end.

(** [Path.mkdir(parents=True, exist_ok=True)]: try the directory itself,
    on [FileNotFoundError] create the parent first and try again; any other
    [OSError] is swallowed when the path is a directory by then.  The
    recursion climbs one component per call, so [n] only has to bound the
    number of components. *)
Fixpoint mkdir_parents (n : nat) (p : PurePath) (w : World) : World * option oserror :=
  match os_mkdir p w with
  | (w1, None) => (w1, None)
  | (w1, Some FileNotFoundError) =>
      if decide (parent p = p) then (w1, Some FileNotFoundError)
      else
        match n with
        | 0 => (w1, Some FileNotFoundError)
        | S n' =>
            match mkdir_parents n' (parent p) w1 with
            | (w2, None) =>
                match os_mkdir p w2 with
                | (w3, None) => (w3, None)
                | (w3, Some FileNotFoundError) => (w3, Some FileNotFoundError)
                | (w3, Some e) => if is_dir p w3 then (w3, None) else (w3, Some e)
                end
            | (w2, Some e) => (w2, Some e)
            end
        end
  | (w1, Some e) => if is_dir p w1 then (w1, None) else (w1, Some e)
  end.

Definition mkdir (p : PurePath) : M unit :=
  fun w =>
    match mkdir_parents (length (parts p)) p w with
    | (w1, None) => (emit (EvMkdir p true) w1, Return tt)
    | (w1, Some e) => (emit (EvMkdir p false) w1, Raise (OSError e))
    end.

(** [open(path, 'w')]: create the file or truncate it, and return a fresh
    descriptor. *)
Definition open_w (path : string) : M nat :=
  fun w =>
    let loc := Path path in
    let failed e := (emit (EvOpen path None) w, Raise (OSError e)) in
    let opened :=
      let fd := next_fd w in
      (emit (EvOpen path (Some fd))
         (set_next_fd (S fd)
            (set_fds (<[fd := loc]> (fds w))
               (set_fs (<[loc := NFile ""]> (fs w)) w))),
       Return fd) in
    match fs w !! loc with
    | Some NDir => failed IsADirectoryError
    | Some _ => if may_write loc w then opened else failed PermissionError
    | None =>
        match fs w !! parent loc with
        | Some NDir => if may_create loc w then opened else failed PermissionError
        | Some _ => failed NotADirectoryError
        | None => failed FileNotFoundError
        end
    end.

(** [fcntl.flock(f.fileno(), op)].  [f.fileno()] raises [ValueError] on a
    closed file.  [LOCK_EX] waits while another description holds the lock;
    [LOCK_UN] releases the lock when this description holds it. *)
Definition flock (fd : nat) (op : flock_op) : M unit :=
  fun w =>
    match fds w !! fd with
    | None => (emit (EvFlock fd op false) w, Raise ValueError)
    | Some loc =>
        match op with
        | LOCK_EX =>
            if lock_table_full w
            then (emit (EvFlock fd LOCK_EX false) w, Raise (OSError NoLocksAvailable))
            else
              match flocks w !! loc with
              | None =>
                  (emit (EvFlock fd LOCK_EX true) (set_flocks (<[loc := fd]> (flocks w)) w),
                   Return tt)
              | Some h =>
                  if decide (h = fd) then (emit (EvFlock fd LOCK_EX true) w, Return tt)
                  else (emit (EvFlockWait fd) w, Blocked)
              end
        | LOCK_UN =>
            match flocks w !! loc with
            | Some h =>
                if decide (h = fd)
                then (emit (EvFlock fd LOCK_UN true) (set_flocks (delete loc (flocks w)) w),
                      Return tt)
                else (emit (EvFlock fd LOCK_UN true) w, Return tt)
            | None => (emit (EvFlock fd LOCK_UN true) w, Return tt)
            end
        end
    end.

(** [f.close()]: closing a description also drops a lock it still holds;
    closing twice is harmless. *)
Definition file_close (fd : nat) : M unit :=
  fun w =>
    match fds w !! fd with
    | None => (emit (EvClose fd) w, Return tt)
    | Some loc =>
        let locks :=
          match flocks w !! loc with
          | Some h => if decide (h = fd) then delete loc (flocks w) else flocks w
          | None => flocks w
          end in
        (emit (EvClose fd) (set_flocks locks (set_fds (delete fd (fds w)) w)), Return tt)
    end.

(** ** The engine *)

(** What the embedding does not interpret: the CSV sniffer behind
    [read_csv_auto], and every statement other than the bulk load. *)
Record Engine := mkEngine {
  read_csv_auto : string -> option table;
  sql_other : string -> gmap PurePath node -> database -> database * (exn + list row);
}.

Definition nl : string := String "010"%char "".
Definition indent16 : string := "                ".
Definition indent12 : string := "            ".

Definition load_prefix : string := nl +:+ indent16 +:+ "CREATE OR REPLACE TABLE ".
Definition load_middle : string := " AS " +:+ nl +:+ indent16 +:+ "SELECT * FROM read_csv_auto('".
Definition load_suffix : string := "')" +:+ nl +:+ indent12.

(** The f-string of [read_csv_to_table]. *)
Definition load_statement (table_name csv_path : string) : string :=
  load_prefix +:+ table_name +:+ load_middle +:+ csv_path +:+ load_suffix.

Fixpoint strip_prefix (pre s : string) : option string :=
  match pre with
  | EmptyString => Some s
  | String a pre' =>
      match s with
      | String b s' => if Ascii.eqb a b then strip_prefix pre' s' else None
      | EmptyString => None
      end
  end.

(** The longest prefix of [s] free of [c], and what follows it. *)
Fixpoint span_until (c : ascii) (s : string) : string * string :=
  match s with
  | EmptyString => (EmptyString, EmptyString)
  | String a s' =>
      if Ascii.eqb a c then (EmptyString, s)
      else let (h, t) := span_until c s' in (String a h, t)
  end.

(** Recognise the bulk-load statement: the table name is the token up to
    the next blank, the file name the body of the string literal. *)
Definition parse_load (sql : string) : option (string * string) :=
  match strip_prefix load_prefix sql with
  | None => None
  | Some r1 =>
      let (t, r2) := span_until " " r1 in
      match strip_prefix load_middle r2 with
      | None => None
      | Some r3 =>
          let (p, r4) := span_until "'" r3 in
          if String.eqb r4 load_suffix then Some (t, p) else None
      end
  end.

Definition is_alpha (c : ascii) : bool :=
  let n := nat_of_ascii c in
  Nat.leb 65 n && Nat.leb n 90 || Nat.leb 97 n && Nat.leb n 122 || Nat.eqb n 95.

Definition is_digit (c : ascii) : bool :=
  let n := nat_of_ascii c in Nat.leb 48 n && Nat.leb n 57.

(** An unquoted SQL identifier. *)
Definition valid_identifier (s : string) : bool :=
  match s with
  | EmptyString => false
  | String c s' => is_alpha c && all_chars (fun a => is_alpha a || is_digit a) s'
  end.

(** ** Caller bodies

    What a caller can do with the connection it is handed: run statements,
    fetch, commit, raise, return. *)
Inductive prog (A : Type) :=
  | PReturn (a : A)
  | PRaise (e : exn)
  | PExecute (sql : string) (k : prog A)
  | PFetchall (k : list row -> prog A)
  | PCommit (k : prog A).
Arguments PReturn {A} a.
Arguments PRaise {A} e.
Arguments PExecute {A} sql k.
Arguments PFetchall {A} k.
Arguments PCommit {A} k.

Section WithEngine.
Context (E : Engine).

(** One statement against the catalog [db], with the directory tree in
    view for [read_csv_auto].  [CREATE OR REPLACE TABLE t AS SELECT * FROM
    read_csv_auto('p')] binds [t] to the parsed file, whatever [t] was
    bound to; a statement that fails leaves the catalog as it was. *)
Definition engine_execute (sql : string) (files : gmap PurePath node) (db : database)
  : database * (exn + list row) :=
  match parse_load sql with
  | Some (t, p) =>
      if valid_identifier t then
        match files !! Path p with
        | Some (NFile data) =>
            match read_csv_auto E data with
            | Some tbl => (<[t := tbl]> db, inr [[VInt (Z.of_nat (length (rows tbl)))]])
            | None => (db, inl (DuckDBError InvalidInputException))
            end
        | Some _ => (db, inl (DuckDBError InvalidInputException))
        | None => (db, inl (DuckDBError IOException_no_files))
        end
      else (db, inl (DuckDBError ParserException))
  | None => sql_other E sql files db
  end.

(** [duckdb.connect(path, read_only=False)]: opens the database file,
    creating an empty database when there is none.  The engine lets one
    read-write holder in at a time. *)
Definition duckdb_connect (path : string) : M PurePath :=
  fun w =>
    let loc := Path path in
    let failed := (emit (EvConnect path false) w, Raise (DuckDBError IOException_open)) in
    match conns w !! loc with
    | Some _ => failed
    | None =>
        match fs w !! loc with
        | Some (NDatabase _) =>
            if may_write loc w
            then (emit (EvConnect path true) (set_conns (<[loc := []]> (conns w)) w), Return loc)
            else failed
        | Some _ => failed
        | None =>
            match fs w !! parent loc with
            | Some NDir =>
                if may_create loc w
                then (emit (EvConnect path true)
                        (set_conns (<[loc := []]> (conns w))
                           (set_fs (<[loc := NDatabase ∅]> (fs w)) w)),
                      Return loc)
                else failed
            | _ => failed
            end
        end
    end.

(** [conn.close()] *)
Definition conn_close (c : PurePath) : M unit :=
  fun w => (emit EvConnClose (set_conns (delete c (conns w)) w), Return tt).

(** [conn.execute(sql)]: in auto-commit mode the statement's effect is in
    the database file as soon as it returns; its rows wait in the
    connection. *)
Definition conn_execute (c : PurePath) (sql : string) : M unit :=
  fun w =>
    match conns w !! c, fs w !! c with
    | Some _, Some (NDatabase db) =>
        match engine_execute sql (fs w) db with
        | (db', inr rs) =>
            (emit (EvExecute sql true)
               (set_conns (<[c := rs]> (conns w)) (set_fs (<[c := NDatabase db']> (fs w)) w)),
             Return tt)
        | (db', inl e) =>
            (emit (EvExecute sql false) (set_fs (<[c := NDatabase db']> (fs w)) w), Raise e)
        end
    | _, _ => (emit (EvExecute sql false) w, Raise (DuckDBError ConnectionException))
    end.

(** [.fetchall()] on the connection's pending result. *)
Definition conn_fetchall (c : PurePath) : M (list row) :=
  fun w =>
    match conns w !! c with
    | Some rs => (emit EvFetchall (set_conns (<[c := []]> (conns w)) w), Return rs)
    | None => (emit EvFetchall w, Raise (DuckDBError ConnectionException))
    end.

(** [conn.commit()]: nothing is pending in auto-commit mode. *)
Definition conn_commit (c : PurePath) : M unit :=
  fun w =>
    match conns w !! c with
    | Some _ => (emit EvCommit w, Return tt)
    | None => (emit EvCommit w, Raise (DuckDBError ConnectionException))
    end.

(** ** The resource *)

(** [with self.get_connection() as conn: body conn].  The generator's
    [yield] sits inside both [try] blocks, so the caller's body runs there
    and an exception of the body is re-raised at the [yield]. *)
Definition get_connection {A} (database_path : string) (body : PurePath -> M A) : M A :=
  let db_path := Path database_path in
  mkdir (parent db_path) ;;;
  lock_file <- open_w (lock_file_path db_path) ;;
  try_finally
    (flock lock_file LOCK_EX ;;;
     conn <- duckdb_connect (path_str db_path) ;;
     try_finally (body conn) (conn_close conn))
    (flock lock_file LOCK_UN ;;; file_close lock_file).

Definition execute_query (database_path : string) (query : string) : M (list row) :=
  get_connection database_path (fun conn =>
    conn_execute conn query ;;;
    result <- conn_fetchall conn ;;
    ret result).

Definition read_csv_to_table (database_path : string) (csv_path table_name : string) : M unit :=
  get_connection database_path (fun conn =>
    conn_execute conn (load_statement table_name csv_path) ;;;
    conn_commit conn ;;;
    ret tt).

(** The body of a [with] block, run on the connection it was handed. *)
Fixpoint run_prog {A} (b : prog A) (conn : PurePath) : M A :=
  match b with
  | PReturn a => ret a
  | PRaise e => raise e
  | PExecute sql k => conn_execute conn sql ;;; run_prog k conn
  | PFetchall k => rs <- conn_fetchall conn ;; run_prog (k rs) conn
  | PCommit k => conn_commit conn ;;; run_prog k conn
  end.

End WithEngine.

(** ** Vocabulary of the properties *)

(** Paths as [Path] builds them: a POSIX root, and components that are
    neither empty nor [.] and hold no separator. *)
Definition part_ok (x : string) : bool := keep_part x && no_char "/" x.

Definition root_ok (r : string) : bool :=
  String.eqb r "" || String.eqb r "/" || String.eqb r "//".

Definition wf_path (p : PurePath) : bool :=
  root_ok (root p) && forallb part_ok (parts p).

Fixpoint suffix_last (suf : string) (l : list string) : list string :=
  match l with
  | [] => []
  | x :: rest =>
      match rest with
      | [] => [x +:+ suf]
      | _ :: _ => x :: suffix_last suf rest
      end
  end.

(** Where the lock file of the database at [p] lives: next to it, under
    the name of the database file followed by [.lock]. *)
Definition lock_of (p : PurePath) : PurePath :=
  mkPath (root p)
    (match parts p with
     | [] => [if String.eqb (root p) "" then "..lock" else ".lock"]
     | _ :: _ => suffix_last ".lock" (parts p)
     end).

(** The events a call added to the trace. *)
Definition new_events (w w' : World) : list event :=
  drop (length (trace w)) (trace w').

(** Events a caller's body can cause through the connection. *)
Definition engine_event (e : event) : bool :=
  match e with
  | EvExecute _ _ | EvFetchall | EvCommit => true
  | _ => false
  end.

(** A monitor over a trace: [locked] and [opened] say whether the lock is
    held and whether a connection is open; the trace passes when no event
    leaves a connection open without the lock. *)
Fixpoint conn_within_lock (locked opened : bool) (evs : list event) : bool :=
  match evs with
  | [] => true
  | e :: rest =>
      let locked' :=
        match e with
        | EvFlock _ LOCK_EX true => true
        | EvFlock _ LOCK_UN _ => false
        | EvClose _ => false
        | _ => locked
        end in
      let opened' :=
        match e with
        | EvConnect _ true => true
        | EvConnClose => false
        | _ => opened
        end in
      implb opened' locked' && conn_within_lock locked' opened' rest
  end.

(** When [mkdir(parents=True)] can make [p]: the anchor of [p] is there,
    nothing but directories lies on the way, each inside a directory, and
    the process may write along it. *)
Definition creatable (p : PurePath) (w : World) : bool :=
  is_dir (mkPath (root p) []) w &&
  forallb (fun q =>
             match fs w !! q with
             | None => may_write q w
             | Some NDir => may_write q w && is_dir (parent q) w
             | Some _ => false
             end) (ancestors p).

Definition dir_available (p : PurePath) (w : World) : bool :=
  is_dir p w || creatable p w.

(** When nothing stands in the way of locking and opening the database
    at [d]: the lock file can be written and is not locked, the database
    file is a database or can be made, and nobody has it open. *)
Definition unobstructed (d : PurePath) (w : World) : bool :=
  let L := lock_of d in
  match fs w !! L with
  | None => may_write (parent d) w
  | Some NDir => false
  | Some _ => true
  end && may_write L w &&
  match fs w !! d with
  | None => may_write (parent d) w
  | Some (NDatabase _) => true
  | Some _ => false
  end && may_write d w &&
  negb (lock_table_full w) &&
  match flocks w !! L with None => true | Some _ => false end &&
  match conns w !! d with None => true | Some _ => false end.

(** The tables of the database at [d]; none when there is no database. *)
Definition catalog (w : World) (d : PurePath) : database :=
  match fs w !! d with
  | Some (NDatabase db) => db
  | _ => ∅
  end.

(** Permissions and the state of the lock table. *)
Definition same_config (w w' : World) : Prop :=
  readonly w' = readonly w /\ lock_table_full w' = lock_table_full w.

(** Everything in the world but the directory tree and the trace. *)
Definition same_handles (w w' : World) : Prop :=
  fds w' = fds w /\ flocks w' = flocks w /\ conns w' = conns w /\
  next_fd w' = next_fd w /\ readonly w' = readonly w /\
  lock_table_full w' = lock_table_full w.

(** [w1] extends [w] by directories of depth at most [k], and by nothing
    else. *)
Definition only_adds_dirs (k : nat) (w w1 : World) : Prop :=
  same_handles w w1 /\ trace w1 = trace w /\ fs w ⊆ fs w1 /\
  forall q, fs w1 !! q ≠ fs w !! q ->
    fs w !! q = None /\ fs w1 !! q = Some NDir /\ length (parts q) <= k.

(** What a caller's body may change when it runs on connection [c]: the
    database file, the connection's result set, and the trace, which it
    extends with engine events. *)
Definition body_frame (c : PurePath) (w w' : World) (evs : list event) : Prop :=
  fds w' = fds w /\ flocks w' = flocks w /\ next_fd w' = next_fd w /\
  readonly w' = readonly w /\ lock_table_full w' = lock_table_full w /\
  (forall q, q ≠ c -> fs w' !! q = fs w !! q) /\
  (forall q, q ≠ c -> conns w' !! q = conns w !! q) /\
  trace w' = trace w ++ evs /\ forallb engine_event evs = true.

(** The call that reaches the body: [w1] is the world once the directory
    is made, [w3] the world the body starts in, [w4] the world it leaves,
    [evs] what it did, [db0] the catalog it found. *)
Record from_body (E : Engine) {A : Type} (database_path : string) (b : prog A)
    (w w' : World) (r : outcome A) (w1 w3 w4 : World) (evs : list event)
    (db0 : database) : Prop := mkFromBody {
  fb_dirs :
    only_adds_dirs (length (parts (parent (Path database_path)))) w w1;
  fb_mkdir :
    fs w1 = fs (fst (mkdir (parent (Path database_path)) w));
  fb_parent :
    is_dir (parent (Path database_path)) w1 = true;
  fb_not_full :
    lock_table_full w = false;
  fb_lock_writable :
    may_write (lock_of (Path database_path)) w = true;
  fb_db_writable :
    may_write (Path database_path) w = true;
  fb_fs_enter :
    fs w3 = <[Path database_path := NDatabase db0]>
              (<[lock_of (Path database_path) := NFile ""]> (fs w1));
  fb_db_enter :
    fs w1 !! Path database_path = Some (NDatabase db0) \/
    fs w1 !! Path database_path = None /\ db0 = ∅;
  fb_conn_free :
    conns w !! Path database_path = None;
  fb_conns_enter :
    conns w3 = <[Path database_path := []]> (conns w);
  fb_flocks_enter :
    flocks w3 = <[lock_of (Path database_path) := next_fd w]> (flocks w);
  fb_fds_enter :
    fds w3 = <[next_fd w := lock_of (Path database_path)]> (fds w);
  fb_trace_enter :
    trace w3 = trace w ++
      [EvMkdir (parent (Path database_path)) true;
       EvOpen (lock_file_path (Path database_path)) (Some (next_fd w));
       EvFlock (next_fd w) LOCK_EX true;
       EvConnect (path_str (Path database_path)) true];
  fb_run :
    run_prog E b (Path database_path) w3 = (w4, r);
  fb_returns :
    r ≠ Blocked;
  fb_frame :
    body_frame (Path database_path) w3 w4 evs;
  fb_fs_exit :
    fs w' = fs w4;
  fb_trace_exit :
    trace w' = trace w4 ++
      [EvConnClose; EvFlock (next_fd w) LOCK_UN true; EvClose (next_fd w)];
  fb_fds_exit :
    fds w' = delete (next_fd w) (fds w);
  fb_flocks_exit :
    flocks w' = delete (lock_of (Path database_path)) (flocks w);
  fb_conns_exit :
    conns w' = conns w;
  fb_config_exit :
    same_config w w';
}.

Arguments fb_dirs {E A database_path b w w' r w1 w3 w4 evs db0} _.
Arguments fb_mkdir {E A database_path b w w' r w1 w3 w4 evs db0} _.
Arguments fb_parent {E A database_path b w w' r w1 w3 w4 evs db0} _.
Arguments fb_not_full {E A database_path b w w' r w1 w3 w4 evs db0} _.
Arguments fb_lock_writable {E A database_path b w w' r w1 w3 w4 evs db0} _.
Arguments fb_db_writable {E A database_path b w w' r w1 w3 w4 evs db0} _.
Arguments fb_fs_enter {E A database_path b w w' r w1 w3 w4 evs db0} _.
Arguments fb_db_enter {E A database_path b w w' r w1 w3 w4 evs db0} _.
Arguments fb_conn_free {E A database_path b w w' r w1 w3 w4 evs db0} _.
Arguments fb_conns_enter {E A database_path b w w' r w1 w3 w4 evs db0} _.
Arguments fb_flocks_enter {E A database_path b w w' r w1 w3 w4 evs db0} _.
Arguments fb_fds_enter {E A database_path b w w' r w1 w3 w4 evs db0} _.
Arguments fb_trace_enter {E A database_path b w w' r w1 w3 w4 evs db0} _.
Arguments fb_run {E A database_path b w w' r w1 w3 w4 evs db0} _.
Arguments fb_returns {E A database_path b w w' r w1 w3 w4 evs db0} _.
Arguments fb_frame {E A database_path b w w' r w1 w3 w4 evs db0} _.
Arguments fb_fs_exit {E A database_path b w w' r w1 w3 w4 evs db0} _.
Arguments fb_trace_exit {E A database_path b w w' r w1 w3 w4 evs db0} _.
Arguments fb_fds_exit {E A database_path b w w' r w1 w3 w4 evs db0} _.
Arguments fb_flocks_exit {E A database_path b w w' r w1 w3 w4 evs db0} _.
Arguments fb_conns_exit {E A database_path b w w' r w1 w3 w4 evs db0} _.
Arguments fb_config_exit {E A database_path b w w' r w1 w3 w4 evs db0} _.

(** The ways a scoped connection can end. *)
Inductive exit_path :=
  | AtMkdir      (* the directory could not be made *)
  | AtOpen       (* the lock file could not be opened *)
  | AtFlock      (* taking the lock raised *)
  | Waiting      (* the lock is held elsewhere: the call does not return *)
  | AtConnect    (* the engine could not open the database *)
  | FromBody.    (* the body ran; it returned or raised *)

Section ExitSpec.
Context (E : Engine) {A : Type}.

(** What each way of ending leaves behind, for the call
    [with get_connection() as conn: b] on [database_path] from world [w]
    to world [w'] with outcome [r]. *)
Definition exit_spec (path : exit_path) (database_path : string) (b : prog A)
    (w w' : World) (r : outcome A) : Prop :=
  let d := Path database_path in
  let L := lock_of d in
  let lf := lock_file_path d in
  let fd := next_fd w in
  let mk ok := EvMkdir (parent d) ok in
  match path with
  | AtMkdir =>
      (exists e, r = Raise (OSError e) /\ (mkdir (parent d) w).2 = Raise (OSError e)) /\
      trace w' = trace w ++ [mk false] /\ same_handles w w' /\ fs w ⊆ fs w'
  | AtOpen =>
      (exists e w1, r = Raise (OSError e) /\ mkdir (parent d) w = (w1, Return tt) /\
                    (open_w lf w1).2 = Raise (OSError e)) /\
      trace w' = trace w ++ [mk true; EvOpen lf None] /\
      same_handles w w' /\ fs w ⊆ fs w' /\ is_dir (parent d) w' = true
  | AtFlock =>
      r = Raise (OSError NoLocksAvailable) /\ lock_table_full w = true /\
      trace w' = trace w ++
        [mk true; EvOpen lf (Some fd); EvFlock fd LOCK_EX false;
         EvFlock fd LOCK_UN true; EvClose fd] /\
      fds w' = delete fd (fds w) /\
      flocks w' = (if decide (flocks w !! L = Some fd) then delete L (flocks w) else flocks w) /\
      conns w' = conns w /\ fs w' !! L = Some (NFile "")
  | Waiting =>
      r = Blocked /\ (exists h, flocks w !! L = Some h /\ h ≠ fd) /\
      trace w' = trace w ++ [mk true; EvOpen lf (Some fd); EvFlockWait fd]
  | AtConnect =>
      r = Raise (DuckDBError IOException_open) /\
      (exists w1 w3, only_adds_dirs (length (parts (parent d))) w w1 /\
         is_dir (parent d) w1 = true /\
         fs w3 = <[L := NFile ""]> (fs w1) /\ conns w3 = conns w /\
         readonly w3 = readonly w /\
         (duckdb_connect (path_str d) w3).2 = Raise (DuckDBError IOException_open)) /\
      trace w' = trace w ++
        [mk true; EvOpen lf (Some fd); EvFlock fd LOCK_EX true;
         EvConnect (path_str d) false; EvFlock fd LOCK_UN true; EvClose fd] /\
      fds w' = delete fd (fds w) /\ flocks w' = delete L (flocks w) /\
      conns w' = conns w /\ fs w' !! L = Some (NFile "")
  | FromBody =>
      exists (w1 w3 w4 : World) (evs : list event) (db0 : database),
        from_body E database_path b w w' r w1 w3 w4 evs db0
  end.

End ExitSpec.

(** ** Scoped connections around any body *)

(** The directory tree as the body of a scoped connection finds it. *)
Definition body_view (database_path : string) (w : World) : gmap PurePath node :=
  <[Path database_path := NDatabase (catalog w (Path database_path))]>
    (<[lock_of (Path database_path) := NFile ""]>
       (fs (fst (mkdir (parent (Path database_path)) w)))).

(** The world in which the body of a scoped connection starts, for a call
    made in [w]. *)
Record entered (database_path : string) (w w3 : World) : Prop := mkEntered {
  en_fs :
    fs w3 = body_view database_path w;
  en_parent :
    is_dir (parent (Path database_path)) w3 = true;
  en_conns :
    conns w3 = <[Path database_path := []]> (conns w);
  en_flocks :
    flocks w3 = <[lock_of (Path database_path) := next_fd w]> (flocks w);
  en_fds :
    fds w3 = <[next_fd w := lock_of (Path database_path)]> (fds w);
  en_next_fd :
    next_fd w3 = S (next_fd w);
  en_config :
    same_config w w3;
  en_trace :
    trace w3 = trace w ++
      [EvMkdir (parent (Path database_path)) true;
       EvOpen (lock_file_path (Path database_path)) (Some (next_fd w));
       EvFlock (next_fd w) LOCK_EX true;
       EvConnect (path_str (Path database_path)) true];
}.

Arguments en_fs {database_path w w3} _.
Arguments en_parent {database_path w w3} _.
Arguments en_conns {database_path w w3} _.
Arguments en_flocks {database_path w w3} _.
Arguments en_fds {database_path w w3} _.
Arguments en_next_fd {database_path w w3} _.
Arguments en_config {database_path w w3} _.
Arguments en_trace {database_path w w3} _.

(** The two [finally] blocks of [get_connection], around a body. *)
Definition scoped {A} (fd : nat) (conn : PurePath) (body : M A) : M A :=
  try_finally (try_finally body (conn_close conn))
              (flock fd LOCK_UN ;;; file_close fd).

(** ** Python values in text *)

(** Exception classes that the resource layer does not raise itself are
    told apart by their tag. *)
Definition TypeError : exn := UserException 1.
Definition IndexError : exn := UserException 2.

(** [str(n)] of an int, and [int(s)] of such text. *)
Definition decimal (z : Z) : string :=
  DecimalString.NilZero.string_of_int (Z.to_int z).

Definition of_decimal (s : string) : option Z :=
  option_map Z.of_int (DecimalString.NilZero.int_of_string s).

(** [str(v)] of a value fetched from the engine, as an f-string prints it. *)
Definition py_str (v : value) : string :=
  match v with
  | VInt z => decimal z
  | VText s => s
  | VNull => "None"
  end.

(** ** Assets ([src/dagster_example/assets]) *)

(** [conn.fetchone()]: the next row of the pending result, [None] when
    there is none left.  The trace has no event for it. *)
Definition conn_fetchone (c : PurePath) : M (option row) :=
  fun w =>
    match conns w !! c with
    | Some (r :: rest) => (set_conns (<[c := rest]> (conns w)) w, Return (Some r))
    | Some [] => (w, Return None)
    | None => (w, Raise (DuckDBError ConnectionException))
    end.

(** [t[i]] on what [fetchone] returned: [None] is not subscriptable, and
    a tuple has its length. *)
Definition getitem (t : option row) (i : nat) : M value :=
  match t with
  | None => raise TypeError
  | Some r =>
      match r !! i with
      | Some v => ret v
      | None => raise IndexError
      end
  end.

(** [if t]: [None] and the empty tuple count as false. *)
Definition truthy (t : option row) : bool :=
  match t with
  | Some (_ :: _) => true
  | _ => false
  end.


(** Dagster's context, as far as the assets use it: the logger.  Where
    the messages go lies outside the world modelled here. *)
Record AssetExecutionContext := mkAssetContext {
  context_log_info : string -> M unit;
}.

(** A logger that returns and leaves the world alone. *)
Definition quiet (context : AssetExecutionContext) : Prop :=
  forall msg w, context_log_info context msg w = (w, Return tt).

(** [Output(None, metadata={...})] *)
Record Output := mkOutput { metadata : list (string * value) }.

Definition customer_analytics_query : string :=
  "
    CREATE OR REPLACE TABLE customer_analytics AS
    SELECT 
        customer_id,
        customer_name,
        city,
        state,
        COUNT(*) as total_purchases,
        SUM(quantity) as total_items_bought,
        ROUND(SUM(total_revenue), 2) as lifetime_value,
        ROUND(AVG(total_revenue), 2) as avg_order_value,
        MIN(sale_date) as first_purchase_date,
        MAX(sale_date) as last_purchase_date
    FROM enriched_sales
    GROUP BY customer_id, customer_name, city, state
    ORDER BY lifetime_value DESC
    ".

Definition top_customer_query : string :=
  "
            SELECT customer_name, lifetime_value 
            FROM customer_analytics 
            ORDER BY lifetime_value DESC 
            LIMIT 1
        ".

Definition product_metrics_query : string :=
  "
    CREATE OR REPLACE TABLE product_metrics AS
    SELECT 
        product_id,
        product_name,
        category,
        price,
        cost,
        price - cost as profit_per_unit,
        ROUND(((price - cost) / cost) * 100, 2) as markup_percentage,
        ROUND(((price - cost) / price) * 100, 2) as margin_percentage
    FROM raw_products
    ORDER BY margin_percentage DESC
    ".

Definition top_margin_query : string :=
  "
            SELECT product_name, margin_percentage 
            FROM product_metrics 
            ORDER BY margin_percentage DESC 
            LIMIT 1
        ".

Section Assets.
Context (E : Engine).


(** [customer_analytics] of [aggregation_assets.py] *)
Definition customer_analytics (context : AssetExecutionContext) (duckdb : string)
  : M Output :=
  let query := customer_analytics_query in
  context_log_info context "Creating customer analytics" ;;;
  get_connection duckdb (fun conn =>
    conn_execute E conn query ;;;
    conn_execute E conn top_customer_query ;;;
    top_customer <- conn_fetchone conn ;;
    shown_name <- getitem top_customer 0 ;;
    shown_value <- getitem top_customer 1 ;;
    context_log_info context
      ("Top customer: " +:+ py_str shown_name +:+ " ($" +:+ py_str shown_value +:+ ")") ;;;
    top_customer_name <- getitem top_customer 0 ;;
    top_customer_ltv <- getitem top_customer 1 ;;
    ret (mkOutput [("top_customer", top_customer_name);
                   ("top_customer_ltv", top_customer_ltv)])).

(** [product_metrics] of [transformation_assets.py] *)
Definition product_metrics (context : AssetExecutionContext) (duckdb : string) : M unit :=
  let query := product_metrics_query in
  context_log_info context "Calculating product metrics" ;;;
  get_connection duckdb (fun conn =>
    conn_execute E conn query ;;;
    conn_execute E conn top_margin_query ;;;
    top_margin <- conn_fetchone conn ;;
    let top_margin := if truthy top_margin then top_margin
                      else Some [VText "N/A"; VInt 0] in
    shown_name <- getitem top_margin 0 ;;
    shown_margin <- getitem top_margin 1 ;;
    context_log_info context
      ("Highest margin product: " +:+ py_str shown_name +:+ " ("
       +:+ py_str shown_margin +:+ "%)")).

End Assets.

(** ** Sensors ([src/dagster_example/sensors.py]) *)

(** Python's floats, as far as the sensors use them.  Modification times
    are floats; what the sensors do with them is compare, print and read
    back. *)
Record Floats := mkFloats {
  float : Type;
  float_zero : float;                      (* what the int [0] compares as *)
  float_gt : float -> float -> bool;       (* [x > y] *)
  float_str : float -> string;             (* [str(x)], also what an f-string prints *)
  float_of_str : string -> option float;   (* [float(s)]; [None] is a [ValueError] *)
}.

(** A variable that holds the int [0] until a float is assigned to it. *)
Inductive number (F : Floats) :=
  | PyInt0
  | PyFloat (x : float F).
Arguments PyInt0 {F}.
Arguments PyFloat {F} x.

Definition num_gt {F : Floats} (a b : number F) : bool :=
  match a, b with
  | PyInt0, PyInt0 => false
  | PyInt0, PyFloat y => float_gt F (float_zero F) y
  | PyFloat x, PyInt0 => float_gt F x (float_zero F)
  | PyFloat x, PyFloat y => float_gt F x y
  end.

Definition num_str {F : Floats} (a : number F) : string :=
  match a with
  | PyInt0 => "0"
  | PyFloat x => float_str F x
  end.

Record SensorEvaluationContext := mkSensorContext {
  cursor : option string;
  log : list string;
}.

Inductive SensorResult :=
  | SkipReason (skip_message : string)
  | RunRequest (run_key : string) (run_config : list (string * string)).

(** [context.log.info(msg)] and [context.update_cursor(s)] *)
Definition log_info (msg : string) (context : SensorEvaluationContext) :=
  mkSensorContext (cursor context) (log context ++ [msg]).

Definition update_cursor (s : string) (context : SensorEvaluationContext) :=
  mkSensorContext (Some s) (log context).

(** [p.exists()] and [p.name] *)
Definition path_exists (p : PurePath) (w : World) : bool :=
  bool_decide (is_Some (fs w !! p)).

Definition name (p : PurePath) : string := List.last (parts p) "".

Section Sensors.
Context {F : Floats}.

(** [float(context.cursor) if context.cursor else 0]: an unset cursor and
    an empty one both count as [0]. *)
Definition read_cursor (context : SensorEvaluationContext) : exn + number F :=
  match cursor context with
  | None => inr PyInt0
  | Some s =>
      if String.eqb s "" then inr PyInt0
      else match float_of_str F s with
           | Some x => inr (PyFloat x)
           | None => inl ValueError
           end
  end.

(** The sensors look at the directory tree of [w]; [st_mtime p] is what
    [p.stat().st_mtime] returns for a path that exists. *)
Definition sales_file_sensor (w : World) (st_mtime : PurePath -> float F)
    (context : SensorEvaluationContext) : SensorEvaluationContext * (exn + SensorResult) :=
  let sales_file := Path "data/raw/sales.csv" in
  if negb (path_exists sales_file w)
  then (context, inr (SkipReason "Sales file does not exist"))
  else
    let last_modified := st_mtime sales_file in
    match read_cursor context with
    | inl e => (context, inl e)
    | inr cursor =>
        if num_gt (PyFloat last_modified) cursor then
          (log_info ("Detected updated sales file (modified: "
                     +:+ float_str F last_modified +:+ ")") context,
           inr (RunRequest ("sales_update_" +:+ float_str F last_modified) []))
        else (context, inr (SkipReason "No new updates to sales file"))
    end.

Definition raw_files : list PurePath :=
  [Path "data/raw/sales.csv"; Path "data/raw/customers.csv"; Path "data/raw/products.csv"].

(** The loop of [multi_file_sensor], one file at a time: the state is
    [(latest_modified, modified_files)]. *)
Definition scan_file (w : World) (st_mtime : PurePath -> float F)
    (st : number F * list string) (file_path : PurePath) : number F * list string :=
  let (latest_modified, modified_files) := st in
  if path_exists file_path w then
    let mtime := st_mtime file_path in
    if num_gt (PyFloat mtime) latest_modified
    then (PyFloat mtime, modified_files ++ [name file_path])
    else st
  else st.

Definition multi_file_sensor (w : World) (st_mtime : PurePath -> float F)
    (context : SensorEvaluationContext) : SensorEvaluationContext * (exn + SensorResult) :=
  let (latest_modified, modified_files) :=
    foldl (scan_file w st_mtime) (PyInt0, []) raw_files in
  match read_cursor context with
  | inl e => (context, inl e)
  | inr cursor =>
      if num_gt latest_modified cursor then
        (update_cursor (num_str latest_modified)
           (log_info ("Detected updates in: " +:+ String.concat ", " modified_files) context),
         inr (RunRequest ("multi_file_update_" +:+ num_str latest_modified) []))
      else (context, inr (SkipReason "No updates to raw data files"))
  end.

(** The value a [number] compares as. *)
Definition num_val (a : number F) : float F :=
  match a with PyInt0 => float_zero F | PyFloat x => x end.

End Sensors.

(** ** Sample data ([src/generate_sample_data.py]) *)

(** One row of the sales table.  [D] is what the [sale_date] column holds:
    text as read from the CSV file, a date once parsed.  Dates are day
    numbers ([date.toordinal()]). *)
Record sale (D : Type) := mkSale {
  sale_id : Z;
  customer_id : Z;
  product_id : Z;
  quantity : Z;
  sale_date : D;
}.
Arguments mkSale {D} _ _ _ _ _.
Arguments sale_id {D} _.
Arguments customer_id {D} _.
Arguments product_id {D} _.
Arguments quantity {D} _.
Arguments sale_date {D} _.

(** Assigning a new [sale_date] column, and applying a function to it. *)
Definition set_date {A B} (s : sale A) (d : B) : sale B :=
  mkSale (sale_id s) (customer_id s) (product_id s) (quantity s) d.

Definition apply_date {A B} (f : A -> B) (s : sale A) : sale B :=
  set_date s (f (sale_date s)).

(** What the script needs of [pandas] and [datetime]: parsing a column of
    dates, which fails as a whole, and printing one date. *)
Record Calendar := mkCalendar {
  to_datetime : list string -> option (list Z);  (* [None] is a [ValueError] *)
  isoformat : Z -> string;
}.

(** The module [random]: a generator state, [seed], and the one primitive
    that [randint] and [choice] draw from. *)
Record Random := mkRandom {
  generator : Type;
  seed : Z -> generator;
  randbelow : nat -> generator -> nat * generator;
}.

(** [sort_values(["sale_date", "sale_id"])]: a stable sort on the pair. *)
Definition sale_le (a b : sale Z) : bool :=
  (sale_date a <? sale_date b)%Z ||
  ((sale_date a =? sale_date b)%Z && (sale_id a <=? sale_id b)%Z).

Fixpoint insert_sorted (x : sale Z) (l : list (sale Z)) : list (sale Z) :=
  match l with
  | [] => [x]
  | y :: rest => if sale_le x y then x :: y :: rest else y :: insert_sorted x rest
  end.

Definition sort_values (l : list (sale Z)) : list (sale Z) :=
  foldr insert_sorted [] l.

(** [int(sales["sale_id"].max())] of a table with rows. *)
Definition max_sale_id {D} (first : sale D) (rest : list (sale D)) : Z :=
  foldr (fun s m => Z.max (sale_id s) m) (sale_id first) rest.

Section GenerateSampleData.
Context (R : Random) (C : Calendar).

(** Computations that draw from the generator and may raise. *)
Definition G (A : Type) : Type := generator R -> generator R * (exn + A).

Definition gret {A} (a : A) : G A := fun g => (g, inr a).
Definition graise {A} (e : exn) : G A := fun g => (g, inl e).
Definition gbind {A B} (m : G A) (k : A -> G B) : G B :=
  fun g =>
    match m g with
    | (g1, inr a) => k a g1
    | (g1, inl e) => (g1, inl e)
    end.

Notation "x <~ m ;; k" := (gbind m (fun x => k))
  (at level 100, m at next level, right associativity).

(** [random.randint(a, b)]: [a + _randbelow(b + 1 - a)]. *)
Definition randint (a b : Z) : G Z :=
  if (0 <? b + 1 - a)%Z
  then fun g => let (k, g1) := randbelow R (Z.to_nat (b + 1 - a)) g in
                (g1, inr (a + Z.of_nat k)%Z)
  else graise ValueError.

(** [random.choice(seq)]: [seq[_randbelow(len(seq))]], and an
    [IndexError] on an empty sequence. *)
Definition choice (seq : list Z) : G Z :=
  match seq with
  | [] => graise IndexError
  | _ :: _ =>
      fun g => let (k, g1) := randbelow R (length seq) g in
               (g1, match seq !! k with Some x => inr x | None => inl IndexError end)
  end.

(** The inner loop, [for _ in range(num_sales)]; the state is
    [(new_rows, next_sale_id)]. *)
Fixpoint sales_of_day (customer_ids product_ids : list Z) (d : Z) (num_sales : nat)
    (st : list (sale Z) * Z) : G (list (sale Z) * Z) :=
  match num_sales with
  | 0 => gret st
  | S n =>
      let (new_rows, next_sale_id) := st in
      cid <~ choice customer_ids ;;
      pid <~ choice product_ids ;;
      qty <~ randint 1 5 ;;
      sales_of_day customer_ids product_ids d n
        (new_rows ++ [mkSale next_sale_id cid pid qty d], (next_sale_id + 1)%Z)
  end.

(** The outer loop, [for d in all_dates]. *)
Fixpoint fill_days (customer_ids product_ids : list Z) (existing_dates : gset Z)
    (all_dates : list Z) (st : list (sale Z) * Z) : G (list (sale Z) * Z) :=
  match all_dates with
  | [] => gret st
  | d :: rest =>
      if decide (d ∈ existing_dates)
      then fill_days customer_ids product_ids existing_dates rest st
      else
        num_sales <~ randint 1 5 ;;
        st1 <~ sales_of_day customer_ids product_ids d (Z.to_nat num_sales) st ;;
        fill_days customer_ids product_ids existing_dates rest st1
  end.

(** [sales["sale_date"] = pd.to_datetime(sales["sale_date"]).dt.date], done
    only on a table with rows. *)
Definition parse_dates (sales : list (sale string)) : exn + list (sale Z) :=
  match sales with
  | [] => inr []
  | _ :: _ =>
      match to_datetime C (map sale_date sales) with
      | None => inl ValueError
      | Some dates =>
          if decide (length dates = length sales)
          then inr (zip_with set_date sales dates)
          else inl ValueError
      end
  end.

(** [customers] and [products] stand for their id columns, the only thing
    the function reads of them; [sales] has the five columns of [sale]. *)
Definition generate_missing_sales (customers products : list Z) (sales : list (sale string))
    (start_date end_date : Z) (seed_arg : option Z) : G (list (sale string)) :=
  fun g0 =>
    let g := match seed_arg with Some n => seed R n | None => g0 end in
    match parse_dates sales with
    | inl e => (g, inl e)
    | inr sales =>
        let all_dates := seqZ start_date (end_date - start_date + 1) in
        let existing_dates : gset Z := list_to_set (map sale_date sales) in
        let customer_ids := customers in
        let product_ids := products in
        let next_sale_id :=
          match sales with
          | first :: rest => (max_sale_id first rest + 1)%Z
          | [] => 1001%Z
          end in
        match fill_days customer_ids product_ids existing_dates all_dates
                ([], next_sale_id) g with
        | (g1, inl e) => (g1, inl e)
        | (g1, inr (new_rows, _)) =>
            let sales_extended :=
              match new_rows with
              | _ :: _ =>
                  let new_sales := new_rows in
                  match sales with
                  | [] => new_sales
                  | _ :: _ => sales ++ new_sales
                  end
              | [] => sales
              end in
            let sales_extended := sort_values sales_extended in
            (g1, inr (map (apply_date (isoformat C)) sales_extended))
        end
    end.

End GenerateSampleData.

(** What [_randbelow] promises. *)
Definition generator_ok (R : Random) : Prop :=
  forall n g, 0 < n -> fst (randbelow R n g) < n.

(** A row the loop may append for day [d]. *)
Definition generated_for (customer_ids product_ids : list Z) (d : Z) (s : sale Z) : Prop :=
  sale_date s = d /\ customer_id s ∈ customer_ids /\ product_id s ∈ product_ids /\
  (1 <= quantity s)%Z.

(** The first [sale_id] the function hands out. *)
Definition first_new_id {D} (sales : list (sale D)) : Z :=
  match sales with
  | first :: rest => (max_sale_id first rest + 1)%Z
  | [] => 1001%Z
  end.

(** A table in the order [sort_values] leaves it. *)
Definition sorted_sales (l : list (sale Z)) : Prop :=
  StronglySorted (fun a b => sale_le a b = true) l.

(** ** A concrete engine and concrete worlds *)

Module Sample.

Fixpoint split_on (c : ascii) (s : string) : list string :=
  match s with
  | EmptyString => [EmptyString]
  | String a s' =>
      if Ascii.eqb a c then EmptyString :: split_on c s'
      else match split_on c s' with
           | h :: t => String a h :: t
           | [] => [String a EmptyString]
           end
  end.

(** A plain reader of comma-separated text: the first line names the
    columns, every other line that is not empty is a row of text. *)
Definition csv (data : string) : option table :=
  match filter (fun l => l ≠ "") (split_on "010" data) with
  | [] => None
  | header :: lines =>
      Some {| columns := map (fun n => (n, "VARCHAR")) (split_on "," header);
              rows := map (fun l => map VText (split_on "," l)) lines |}
  end.

(** An engine that knows one more statement. *)
Definition other_sql (sql : string) (files : gmap PurePath node) (db : database)
  : database * (exn + list row) :=
  if String.eqb sql "SELECT 1+1" then (db, inr [[VInt 2]])
  else (db, inl (DuckDBError ParserException)).

Definition engine : Engine := mkEngine csv other_sql.

Definition database_path : string := "data/warehouse/analytics.duckdb".
Definition customers_csv : string := "data/raw/customers.csv".
Definition customers : string :=
  "id,name" +:+ nl +:+ "1,Ada" +:+ nl +:+ "2,Grace" +:+ nl.

Definition tree : gmap PurePath node :=
  list_to_map
    [(mkPath "" [], NDir); (Path "data", NDir); (Path "data/raw", NDir);
     (Path customers_csv, NFile customers)].

(** A fresh checkout: the raw data is there, the warehouse is not. *)
Definition fresh : World := mkWorld tree ∅ ∅ 3 ∅ false ∅ [].

(** The same, but the process may not write the lock file. *)
Definition lock_denied : World :=
  mkWorld tree {[Path (database_path +:+ ".lock")]} ∅ 3 ∅ false ∅ [].

(** The same, but the kernel has no room for one more lock. *)
Definition no_locks_left : World := mkWorld tree ∅ ∅ 3 ∅ true ∅ [].

(** The same, but what lies at the database path is not a database. *)
Definition not_a_database : World :=
  mkWorld (<[Path database_path := NFile "garbage"]> (<[Path "data/warehouse" := NDir]> tree))
          ∅ ∅ 3 ∅ false ∅ [].

(** The same, but another process holds the lock through descriptor 7. *)
Definition locked_elsewhere : World :=
  mkWorld (<[Path (database_path +:+ ".lock") := NFile ""]>
             (<[Path "data/warehouse" := NDir]> tree))
          ∅ {[7 := Path (database_path +:+ ".lock")]} 8
          {[Path (database_path +:+ ".lock") := 7]} false ∅ [].

End Sample.

Module Demo.

(** Times in whole seconds, printed as Python prints such a float. *)
Definition whole_seconds : Floats :=
  {| float := Z;
     float_zero := 0%Z;
     float_gt := Z.gtb;
     float_str := fun x => decimal x +:+ ".0";
     float_of_str := fun s =>
       let (whole, rest) := span_until "." s in
       if String.eqb rest "" || String.eqb rest ".0" then of_decimal whole else None |}.

Definition raw_tree : gmap PurePath node :=
  list_to_map
    [(mkPath "" [], NDir); (Path "data", NDir); (Path "data/raw", NDir);
     (Path "data/raw/sales.csv", NFile "sale_id,customer_id,product_id,quantity,sale_date");
     (Path "data/raw/products.csv", NFile "product_id,product_name")].

(** The sales and products files are there, the customers file is not. *)
Definition raw_data : World := mkWorld raw_tree ∅ ∅ 3 ∅ false ∅ [].

Definition modified (p : PurePath) : Z :=
  if decide (p = Path "data/raw/sales.csv") then 1700000100%Z
  else if decide (p = Path "data/raw/products.csv") then 1700000300%Z
  else 0%Z.

Definition first_tick : SensorEvaluationContext := mkSensorContext None [].
Definition bad_tick : SensorEvaluationContext := mkSensorContext (Some "yesterday") [].


(** Days printed as their number. *)
Definition day_numbers : Calendar :=
  {| to_datetime := mapM of_decimal; isoformat := decimal |}.

(** A linear congruential generator. *)
Definition lcg : Random :=
  {| generator := N;
     seed := Z.to_N;
     randbelow := fun n g =>
       (N.to_nat (g mod N.of_nat n), ((1103515245 * g + 12345) mod 2147483648)%N) |}.

Definition some_customers : list Z := [1; 2; 3]%Z.
Definition some_products : list Z := [101; 102]%Z.

(** Sales on days 12 and 10, out of order. *)
Definition some_sales : list (sale string) :=
  [mkSale 1001 1 101 2 "12"; mkSale 1000 2 102 1 "10"]%Z.

(** An engine that answers the statements of the assets on tables
    without rows, and counts the customers. *)
Definition derive (source target : string) (db : database) : database * (exn + list row) :=
  match db !! source with
  | Some t =>
      match rows t with
      | [] => (<[target := mkTable [] []]> db, inr [[VInt 0]])
      | _ :: _ => (db, inl (DuckDBError InvalidInputException))
      end
  | None => (db, inl (DuckDBError ParserException))
  end.

Definition first_row (source : string) (db : database) : database * (exn + list row) :=
  match db !! source with
  | Some t => (db, inr (take 1 (rows t)))
  | None => (db, inl (DuckDBError ParserException))
  end.

Definition warehouse_sql (sql : string) (files : gmap PurePath node) (db : database)
  : database * (exn + list row) :=
  if String.eqb sql "SELECT COUNT(*) FROM raw_customers" then
    match db !! "raw_customers" with
    | Some t => (db, inr [[VInt (Z.of_nat (length (rows t)))]])
    | None => (db, inl (DuckDBError ParserException))
    end
  else if String.eqb sql customer_analytics_query then derive "enriched_sales" "customer_analytics" db
  else if String.eqb sql top_customer_query then first_row "customer_analytics" db
  else if String.eqb sql product_metrics_query then derive "raw_products" "product_metrics" db
  else if String.eqb sql top_margin_query then first_row "product_metrics" db
  else (db, inl (DuckDBError ParserException)).

Definition warehouse : Engine := mkEngine Sample.csv warehouse_sql.

Definition silent : AssetExecutionContext := mkAssetContext (fun _ => ret tt).


(** A warehouse whose tables have no rows yet. *)
Definition empty_tables : World :=
  mkWorld (<[Path Sample.database_path :=
               NDatabase (<["enriched_sales" := mkTable [] []]>
                            (<["raw_products" := mkTable [] []]> ∅))]>
             (<[Path "data/warehouse" := NDir]> Sample.tree)) ∅ ∅ 3 ∅ false ∅ [].

(** What [generate_missing_sales] makes of [some_sales] for days 10 to 13,
    seeded with 42. *)
Definition extended_sales : list (sale string) :=
  [mkSale 1000 2 102 1 "10";
   mkSale 1002 1 101 4 "11"; mkSale 1003 2 102 3 "11"; mkSale 1004 3 101 5 "11";
   mkSale 1001 1 101 2 "12";
   mkSale 1005 3 101 4 "13"; mkSale 1006 2 102 5 "13"; mkSale 1007 3 101 4 "13"]%Z.

End Demo.

(** * Properties *)

(** ** Strings and paths *)

Lemma append_nil_r (s : string) : s +:+ "" = s.
Proof. induction s as [|c s IH]; [reflexivity|]. change (String c (s +:+ "") = String c s). by rewrite IH. Qed.

Lemma append_assoc (a b c : string) : (a +:+ b) +:+ c = a +:+ (b +:+ c).
Proof.
  induction a as [|x a IH]; [reflexivity|].
  change (String x ((a +:+ b) +:+ c) = String x (a +:+ (b +:+ c))). by rewrite IH.
Qed.

Lemma append_cons (x : ascii) (a b : string) : String x a +:+ b = String x (a +:+ b).
Proof. reflexivity. Qed.

Lemma append_length (a b : string) :
  String.length (a +:+ b) = String.length a + String.length b.
Proof.
  induction a as [|x a IH]; [reflexivity|].
  rewrite append_cons. simpl. by rewrite IH.
Qed.

Lemma all_chars_app f (a b : string) :
  all_chars f (a +:+ b) = all_chars f a && all_chars f b.
Proof.
  induction a as [|x a IH]; [reflexivity|].
  rewrite append_cons. simpl. rewrite IH. by rewrite andb_assoc.
Qed.

Lemma split_sep_nonempty (s : string) : split_sep s ≠ [].
Proof.
  induction s as [|c s IH]; simpl; [done|].
  destruct (Ascii.eqb c "/"); [done|]. by destruct (split_sep s).
Qed.

Lemma split_sep_no_slash (s : string) :
  Forall (fun x => no_char "/" x = true) (split_sep s).
Proof.
  induction s as [|c s IH]; simpl.
  - by repeat constructor.
  - destruct (Ascii.eqb c "/") eqn:Hc.
    + by constructor.
    + destruct (split_sep s) as [|h t]; [by repeat constructor; unfold no_char; simpl; rewrite Hc|].
      inversion IH; subst. constructor; [|done].
      unfold no_char in *. simpl. by rewrite Hc.
Qed.

Lemma split_sep_plain (x : string) : no_char "/" x = true -> split_sep x = [x].
Proof.
  unfold no_char. induction x as [|c x IH]; simpl; [done|].
  intros [Hc Hx]%andb_true_iff. apply negb_true_iff in Hc. rewrite Hc.
  by rewrite (IH Hx).
Qed.

Lemma split_sep_cons (x b : string) :
  no_char "/" x = true -> split_sep (x +:+ String "/" b) = x :: split_sep b.
Proof.
  unfold no_char. induction x as [|c x IH]; [done|].
  rewrite append_cons. cbn [split_sep all_chars].
  intros [Hc Hx]%andb_true_iff. apply negb_true_iff in Hc.
  rewrite Hc. by rewrite (IH Hx).
Qed.

Lemma split_join (l : list string) :
  l ≠ [] -> Forall (fun x => no_char "/" x = true) l -> split_sep (join_sep l) = l.
Proof.
  induction l as [|x l IH]; [done|]. intros _ Hl. inversion Hl as [|? ? Hx Hl']; subst.
  destruct l as [|y l].
  - simpl. by apply split_sep_plain.
  - change (join_sep (x :: y :: l)) with (x +:+ String "/" (join_sep (y :: l))).
    rewrite split_sep_cons by done. by rewrite IH.
Qed.

Lemma join_suffix_last (suf : string) (l : list string) :
  l ≠ [] -> join_sep l +:+ suf = join_sep (suffix_last suf l).
Proof.
  induction l as [|x l IH]; [done|]. intros _. destruct l as [|y l]; [done|].
  change (join_sep (x :: y :: l)) with (x +:+ String "/" (join_sep (y :: l))).
  change (suffix_last suf (x :: y :: l)) with (x :: suffix_last suf (y :: l)).
  assert (Hne : suffix_last suf (y :: l) ≠ []) by (simpl; by destruct l).
  destruct (suffix_last suf (y :: l)) as [|z r] eqn:Hs; [done|].
  change (join_sep (x :: z :: r)) with (x +:+ String "/" (join_sep (z :: r))).
  rewrite <- IH by done. by rewrite append_assoc, append_cons.
Qed.

Lemma removelast_suffix_last (suf : string) (l : list string) :
  removelast (suffix_last suf l) = removelast l.
Proof.
  induction l as [|x l IH]; [done|]. destruct l as [|y l]; [done|].
  change (suffix_last suf (x :: y :: l)) with (x :: suffix_last suf (y :: l)).
  assert (Hne : suffix_last suf (y :: l) ≠ []) by (simpl; by destruct l).
  destruct (suffix_last suf (y :: l)) as [|z r] eqn:Hs; [done|].
  change (removelast (x :: z :: r)) with (x :: removelast (z :: r)).
  rewrite IH. reflexivity.
Qed.

Lemma suffix_last_length (suf : string) (l : list string) :
  length (suffix_last suf l) = length l.
Proof.
  induction l as [|x l IH]; [done|]. destruct l as [|y l]; [done|].
  change (suffix_last suf (x :: y :: l)) with (x :: suffix_last suf (y :: l)).
  change (S (length (suffix_last suf (y :: l))) = S (length (y :: l))). by rewrite IH.
Qed.

Lemma suffix_last_ne (suf : string) (l : list string) :
  suf ≠ "" -> l ≠ [] -> suffix_last suf l ≠ l.
Proof.
  intros Hsuf. induction l as [|x l IH]; [done|]. intros _. destruct l as [|y l].
  - simpl. intros [= Heq]. apply (f_equal String.length) in Heq.
    rewrite append_length in Heq. destruct suf; [done|]. simpl in Heq. lia.
  - change (suffix_last suf (x :: y :: l)) with (x :: suffix_last suf (y :: l)).
    intros [= Heq]. by apply IH.
Qed.

Lemma splitroot_ok (s : string) : root_ok (splitroot s) = true.
Proof.
  destruct s as [|a [|b [|c s]]]; simpl; try done;
    repeat (match goal with |- context [Ascii.eqb ?x ?y] => destruct (Ascii.eqb x y) end);
    done.
Qed.

Lemma filter_parts_ok (l : list string) :
  forallb part_ok l = true -> filter (fun x => keep_part x = true) l = l.
Proof.
  induction l as [|x l IH]; [done|]. simpl.
  intros [Hx Hl]%andb_true_iff. apply andb_true_iff in Hx as [Hk _].
  rewrite filter_cons. rewrite decide_True by done. by rewrite IH.
Qed.

Lemma Path_wf (s : string) : wf_path (Path s) = true.
Proof.
  unfold wf_path, Path. simpl. rewrite splitroot_ok. simpl.
  pose proof (split_sep_no_slash s) as H.
  induction (split_sep s) as [|x l IH]; [done|].
  inversion H as [|? ? Hx Hl]; subst. rewrite filter_cons.
  destruct (decide (keep_part x = true)) as [Hk|Hk]; [|by apply IH].
  simpl. unfold part_ok at 1. rewrite Hk, Hx. simpl. by apply IH.
Qed.

Lemma part_ok_head (x : string) :
  part_ok x = true -> exists c x', x = String c x' /\ Ascii.eqb c "/" = false.
Proof.
  unfold part_ok, keep_part, no_char. destruct x as [|c x']; [done|].
  intros [_ H]%andb_true_iff. simpl in H. apply andb_true_iff in H as [Hc _].
  apply negb_true_iff in Hc. eauto.
Qed.

Lemma parts_no_slash (l : list string) :
  forallb part_ok l = true -> Forall (fun x => no_char "/" x = true) l.
Proof.
  induction l as [|x l IH]; [constructor|]. simpl.
  intros [Hx Hl]%andb_true_iff. apply andb_true_iff in Hx as [_ Hx]. constructor; auto.
Qed.

Lemma join_sep_head (x : string) (l : list string) :
  part_ok x = true -> exists c s, join_sep (x :: l) = String c s /\ Ascii.eqb c "/" = false.
Proof.
  intros (c & x' & -> & Hc)%part_ok_head. destruct l as [|y l].
  - exists c, x'. done.
  - exists c, (x' +:+ String "/" (join_sep (y :: l))). done.
Qed.

(** Parsing the rendering of well-formed components gives them back. *)
Lemma Path_of_parts (r : string) (l : list string) :
  root_ok r = true -> forallb part_ok l = true -> l ≠ [] ->
  Path (r +:+ join_sep l) = mkPath r l.
Proof.
  intros Hr Hl Hne. destruct l as [|x l]; [done|].
  assert (Hx : part_ok x = true) by (simpl in Hl; by apply andb_true_iff in Hl as [? _]).
  destruct (join_sep_head x l Hx) as (c & s & Hj & Hc).
  pose proof (split_join (x :: l) Hne (parts_no_slash _ Hl)) as Hs.
  pose proof (filter_parts_ok _ Hl) as Hf.
  unfold root_ok in Hr. apply orb_true_iff in Hr as [Hr|Hr]; [apply orb_true_iff in Hr as [Hr|Hr]|];
    apply String.eqb_eq in Hr; subst r; unfold Path; f_equal.
  - change ("" +:+ join_sep (x :: l)) with (join_sep (x :: l)). rewrite Hj. simpl. by rewrite Hc.
  - change ("" +:+ join_sep (x :: l)) with (join_sep (x :: l)). by rewrite Hs.
  - change ("/" +:+ join_sep (x :: l)) with (String "/" (join_sep (x :: l))).
    rewrite Hj. simpl. by rewrite Hc.
  - change ("/" +:+ join_sep (x :: l)) with (String "/" (join_sep (x :: l))).
    cbn [split_sep]. change (Ascii.eqb "/" "/") with true. cbv iota.
    rewrite Hs. rewrite filter_cons. rewrite decide_False by done. done.
  - change ("//" +:+ join_sep (x :: l)) with (String "/" (String "/" (join_sep (x :: l)))).
    rewrite Hj. simpl. by rewrite Hc.
  - change ("//" +:+ join_sep (x :: l)) with (String "/" (String "/" (join_sep (x :: l)))).
    cbn [split_sep]. change (Ascii.eqb "/" "/") with true. cbv iota.
    rewrite Hs. rewrite !filter_cons. rewrite !decide_False by done. done.
Qed.

Lemma wf_path_inv (p : PurePath) :
  wf_path p = true ->
  (root p = "" \/ root p = "/" \/ root p = "//") /\ forallb part_ok (parts p) = true.
Proof.
  unfold wf_path, root_ok. intros [Hr Hl]%andb_true_iff. split; [|done].
  apply orb_true_iff in Hr as [Hr|Hr]; [apply orb_true_iff in Hr as [Hr|Hr]|];
    apply String.eqb_eq in Hr; auto.
Qed.

(** [Path(str(p)) == p] *)
Lemma Path_path_str (p : PurePath) : wf_path p = true -> Path (path_str p) = p.
Proof.
  intros Hwf. pose proof Hwf as [Hr Hl]%wf_path_inv.
  destruct p as [r l]. simpl in *. unfold path_str. simpl.
  destruct l as [|x l].
  - destruct Hr as [->|[->| ->]]; reflexivity.
  - apply Path_of_parts; [|done|done]. unfold wf_path in Hwf. by apply andb_true_iff in Hwf as [? _].
Qed.

Lemma part_ok_suffix (x suf : string) :
  part_ok x = true -> no_char "/" suf = true -> part_ok (x +:+ suf) = true.
Proof.
  intros Hx Hs. pose proof Hx as (c & x' & -> & Hc)%part_ok_head.
  unfold part_ok in *. apply andb_true_iff in Hx as [Hk Hn].
  apply andb_true_iff. split.
  - rewrite append_cons. unfold keep_part in *. simpl.
    destruct (x' +:+ suf) eqn:Happ; [|by destruct (Ascii.eqb c ".")].
    destruct x'; [|done]. simpl in Hk. change ("" +:+ suf) with suf in Happ. subst suf.
    done.
  - unfold no_char in *. rewrite all_chars_app. by rewrite Hn, Hs.
Qed.

Lemma parts_ok_suffix_last (suf : string) (l : list string) :
  no_char "/" suf = true -> forallb part_ok l = true ->
  forallb part_ok (suffix_last suf l) = true.
Proof.
  intros Hs. induction l as [|x l IH]; [done|]. intros Hl.
  simpl in Hl. apply andb_true_iff in Hl as [Hx Hl]. destruct l as [|y l].
  - simpl. rewrite part_ok_suffix; done.
  - change (suffix_last suf (x :: y :: l)) with (x :: suffix_last suf (y :: l)).
    simpl. rewrite Hx. simpl. by apply IH.
Qed.

(** The lock file's name resolves to the location [lock_of]. *)
Lemma Path_lock_file_path (p : PurePath) :
  wf_path p = true -> Path (lock_file_path p) = lock_of p.
Proof.
  intros Hwf. pose proof Hwf as [Hr Hl]%wf_path_inv.
  destruct p as [r l]. simpl in *. unfold lock_file_path, path_str, lock_of. simpl.
  destruct l as [|x l].
  - destruct Hr as [->|[->| ->]]; reflexivity.
  - rewrite append_assoc. rewrite join_suffix_last by done.
    apply Path_of_parts.
    + unfold wf_path in Hwf. by apply andb_true_iff in Hwf as [? _].
    + by apply parts_ok_suffix_last.
    + intros Heq. apply (f_equal length) in Heq. rewrite suffix_last_length in Heq. done.
Qed.

Lemma parent_lock_of (p : PurePath) : parent (lock_of p) = parent p.
Proof.
  destruct p as [r l]. unfold parent, lock_of. simpl. f_equal.
  destruct l as [|x l]; [done|]. apply removelast_suffix_last.
Qed.

Lemma lock_of_ne (p : PurePath) : lock_of p ≠ p.
Proof.
  destruct p as [r l]. unfold lock_of. simpl. intros [= Heq].
  destruct l as [|x l]; [done|]. by apply suffix_last_ne in Heq.
Qed.

(** ** The primitives, one by one *)

Ltac wsimpl :=
  unfold set_fs, set_fds, set_next_fd, set_flocks, set_conns, emit in *; simpl in *.

Lemma new_events_app (w w' : World) (evs : list event) :
  trace w' = trace w ++ evs -> new_events w w' = evs.
Proof. intros H. unfold new_events. rewrite H. by rewrite drop_app_length. Qed.

Lemma same_handles_refl (w : World) : same_handles w w.
Proof. by repeat split. Qed.

Lemma only_adds_dirs_refl (k : nat) (w : World) : only_adds_dirs k w w.
Proof. repeat split; done. Qed.

Lemma only_adds_dirs_mono (k k' : nat) (w w1 : World) :
  k <= k' -> only_adds_dirs k w w1 -> only_adds_dirs k' w w1.
Proof.
  intros Hk (Hh & Ht & Hs & Hn). repeat split; try apply Hh; try done;
    intros; edestruct Hn as (? & ? & ?); eauto; lia.
Qed.

Lemma only_adds_dirs_trans (k : nat) (w w1 w2 : World) :
  only_adds_dirs k w w1 -> only_adds_dirs k w1 w2 -> only_adds_dirs k w w2.
Proof.
  intros (Hh & Ht & Hs & Hn) (Hh' & Ht' & Hs' & Hn').
  destruct Hh as (? & ? & ? & ? & ? & ?). destruct Hh' as (? & ? & ? & ? & ? & ?).
  split; [repeat split; congruence|]. split; [congruence|]. split; [by etrans|].
  intros q Hq. destruct (fs w !! q) as [m|] eqn:Hq0.
  - exfalso. apply Hq. eapply lookup_weaken; [|exact Hs']. by eapply lookup_weaken.
  - destruct (fs w1 !! q) as [m|] eqn:Hq1.
    + destruct (Hn q) as (_ & Hm & Hlen); [congruence|].
      rewrite Hq1 in Hm. injection Hm as ->. repeat split; try done.
      by eapply lookup_weaken.
    + destruct (Hn' q) as (_ & Hm & Hlen); [congruence|]. done.
Qed.

Lemma os_mkdir_spec (p : PurePath) (w w1 : World) (r : option oserror) :
  os_mkdir p w = (w1, r) ->
  only_adds_dirs (length (parts p)) w w1 /\ (r = None -> is_dir p w1 = true).
Proof.
  unfold os_mkdir. intros H.
  assert (Hfail : forall e, (w, Some e) = (w1, r) ->
    only_adds_dirs (length (parts p)) w w1 /\ (r = None -> is_dir p w1 = true)).
  { intros e [= <- <-]. split; [apply only_adds_dirs_refl|done]. }
  destruct (fs w !! p) as [n|] eqn:Hp; [by eapply Hfail|].
  destruct (fs w !! parent p) as [[| |]|]; try by eapply Hfail.
  destruct (may_create p w); [|by eapply Hfail]. injection H as <- <-.
  split; [|intros _; unfold is_dir; wsimpl; by rewrite lookup_insert_eq].
  split; [by repeat split|]. split; [done|]. wsimpl. split; [by apply insert_subseteq|].
  intros q Hq. destruct (decide (p = q)) as [->|Hne].
  - by rewrite lookup_insert_eq.
  - by rewrite lookup_insert_ne in Hq.
Qed.

Lemma parent_depth (p : PurePath) : length (parts (parent p)) <= length (parts p).
Proof. unfold parent. simpl. rewrite removelast_firstn_len, length_take. lia. Qed.

(** What [mkdir(parents=True, exist_ok=True)] may change: it only adds
    directories, none deeper than the one asked for; when it returns, the
    directory is there. *)
Lemma mkdir_parents_spec (n : nat) (p : PurePath) (w w1 : World) (r : option oserror) :
  mkdir_parents n p w = (w1, r) ->
  only_adds_dirs (length (parts p)) w w1 /\ (r = None -> is_dir p w1 = true).
Proof.
  revert p w w1 r.
  assert (Hswallow : forall p w wa w1 r (e : oserror),
    only_adds_dirs (length (parts p)) w wa ->
    (if is_dir p wa then (wa, None) else (wa, Some e)) = (w1, r) ->
    only_adds_dirs (length (parts p)) w w1 /\ (r = None -> is_dir p w1 = true)).
  { intros p w wa w1 r e Hoad H. destruct (is_dir p wa) eqn:Hd; injection H as <- <-; done. }
  induction n as [|n IH]; intros p w w1 r; simpl.
  - destruct (os_mkdir p w) as [wa [e|]] eqn:Hm; apply os_mkdir_spec in Hm as [Hoad Hdir].
    + destruct e; try by apply Hswallow.
      destruct (decide (parent p = p)); intros [= <- <-]; done.
    + intros [= <- <-]. done.
  - destruct (os_mkdir p w) as [wa [e|]] eqn:Hm; apply os_mkdir_spec in Hm as [Hoad Hdir].
    + destruct e; try by apply Hswallow.
      destruct (decide (parent p = p)); [intros [= <- <-]; done|].
      destruct (mkdir_parents n (parent p) wa) as [w2 [e2|]] eqn:Hrec;
        apply IH in Hrec as [Hoad2 Hdir2];
        apply (only_adds_dirs_mono _ (length (parts p))) in Hoad2; try apply parent_depth.
      * intros [= <- <-]. split; [by eapply only_adds_dirs_trans|done].
      * destruct (os_mkdir p w2) as [w3 [e3|]] eqn:Hm3;
          apply os_mkdir_spec in Hm3 as [Hoad3 Hdir3].
        -- assert (Hoad' : only_adds_dirs (length (parts p)) w w3)
             by (eapply only_adds_dirs_trans; [|exact Hoad3]; by eapply only_adds_dirs_trans).
           destruct e3; try by apply Hswallow.
           intros [= <- <-]. done.
        -- intros [= <- <-]. split; [|done].
           eapply only_adds_dirs_trans; [|exact Hoad3]. by eapply only_adds_dirs_trans.
    + intros [= <- <-]. done.
Qed.

(** ** Caller bodies stay within the connection *)

Section Properties.
Context (E : Engine).

Lemma body_frame_refl (c : PurePath) (w : World) : body_frame c w w [].
Proof. repeat split; try done. by rewrite app_nil_r. Qed.

Lemma body_frame_trans (c : PurePath) (w w1 w2 : World) (e1 e2 : list event) :
  body_frame c w w1 e1 -> body_frame c w1 w2 e2 -> body_frame c w w2 (e1 ++ e2).
Proof.
  intros (? & ? & ? & ? & ? & Hfs & Hc & Ht & He) (? & ? & ? & ? & ? & Hfs' & Hc' & Ht' & He').
  repeat split; try congruence.
  - intros q Hq. rewrite Hfs' by done. by apply Hfs.
  - intros q Hq. rewrite Hc' by done. by apply Hc.
  - rewrite Ht', Ht. by rewrite app_assoc.
  - rewrite forallb_app. by rewrite He, He'.
Qed.

Lemma conn_execute_frame (c : PurePath) (sql : string) (w w' : World) (r : outcome unit) :
  conn_execute E c sql w = (w', r) ->
  r ≠ Blocked /\ exists ok, body_frame c w w' [EvExecute sql ok].
Proof.
  unfold conn_execute. intros H.
  assert (Hclosed : (emit (EvExecute sql false) w, Raise (DuckDBError ConnectionException))
                    = (w', r) -> r ≠ Blocked /\ exists ok, body_frame c w w' [EvExecute sql ok]).
  { intros [= <- <-]. split; [done|]. exists false. repeat split; done. }
  destruct (conns w !! c) as [rs|]; [|by apply Hclosed].
  destruct (fs w !! c) as [[| |db]|]; try by apply Hclosed.
  destruct (engine_execute E sql (fs w) db) as [db' [e|rows']]; injection H as <- <-;
    (split; [done|]); eexists; repeat split; wsimpl; try done;
    intros q Hq; by rewrite lookup_insert_ne.
Qed.

Lemma conn_fetchall_frame (c : PurePath) (w w' : World) (r : outcome (list row)) :
  conn_fetchall c w = (w', r) -> r ≠ Blocked /\ body_frame c w w' [EvFetchall].
Proof.
  unfold conn_fetchall. intros H.
  destruct (conns w !! c) as [rs|]; injection H as <- <-; (split; [done|]);
    repeat split; wsimpl; try done.
  intros q Hq; by rewrite lookup_insert_ne.
Qed.

Lemma conn_commit_frame (c : PurePath) (w w' : World) (r : outcome unit) :
  conn_commit c w = (w', r) -> r ≠ Blocked /\ body_frame c w w' [EvCommit].
Proof.
  unfold conn_commit. intros H.
  destruct (conns w !! c) as [rs|]; injection H as <- <-; (split; [done|]);
    repeat split; wsimpl; done.
Qed.

(** A body never waits, and touches nothing but its database, its
    connection and the trace. *)
Lemma run_prog_frame {A} (b : prog A) (c : PurePath) (w w' : World) (r : outcome A) :
  run_prog E b c w = (w', r) -> r ≠ Blocked /\ exists evs, body_frame c w w' evs.
Proof.
  revert w w' r. induction b as [a|e|sql k IH|k IH|k IH]; intros w w' r; simpl.
  - intros [= <- <-]. split; [done|]. exists []. apply body_frame_refl.
  - intros [= <- <-]. split; [done|]. exists []. apply body_frame_refl.
  - unfold bind. destruct (conn_execute E c sql w) as [w1 r1] eqn:H1.
    apply conn_execute_frame in H1 as [Hnb [ok Hf]].
    destruct r1 as [[]|e|]; [|intros [= <- <-]; split; eauto; done|done].
    intros [Hr [evs Hf2]]%IH. split; [done|]. eexists. by eapply body_frame_trans.
  - unfold bind. destruct (conn_fetchall c w) as [w1 r1] eqn:H1.
    apply conn_fetchall_frame in H1 as [Hnb Hf].
    destruct r1 as [rs|e|]; [|intros [= <- <-]; split; eauto; done|done].
    intros [Hr [evs Hf2]]%IH. split; [done|]. eexists. by eapply body_frame_trans.
  - unfold bind. destruct (conn_commit c w) as [w1 r1] eqn:H1.
    apply conn_commit_frame in H1 as [Hnb Hf].
    destruct r1 as [[]|e|]; [|intros [= <- <-]; split; eauto; done|done].
    intros [Hr [evs Hf2]]%IH. split; [done|]. eexists. by eapply body_frame_trans.
Qed.

Lemma flock_ex_spec (fd : nat) (L : PurePath) (w w' : World) (r : outcome unit) :
  fds w !! fd = Some L -> flock fd LOCK_EX w = (w', r) ->
  fs w' = fs w /\ fds w' = fds w /\ conns w' = conns w /\ same_config w w' /\
  ((r = Raise (OSError NoLocksAvailable) /\ lock_table_full w = true /\
    flocks w' = flocks w /\ trace w' = trace w ++ [EvFlock fd LOCK_EX false]) \/
   (r = Blocked /\ (exists h, flocks w !! L = Some h /\ h ≠ fd) /\
    trace w' = trace w ++ [EvFlockWait fd]) \/
   (r = Return tt /\ lock_table_full w = false /\ flocks w' = <[L := fd]> (flocks w) /\
    trace w' = trace w ++ [EvFlock fd LOCK_EX true])).
Proof.
  intros Hfd. unfold flock, same_config. rewrite Hfd.
  destruct (lock_table_full w) eqn:Hfull.
  { intros [= <- <-]; wsimpl. repeat split; try done. left. done. }
  destruct (flocks w !! L) as [h|] eqn:HL.
  - destruct (decide (h = fd)) as [->|Hh]; intros [= <- <-]; wsimpl.
    + rewrite insert_id by done. repeat split; try done. right; right. done.
    + repeat split; try done. right; left. eauto.
  - intros [= <- <-]; wsimpl. repeat split; try done. right; right. done.
Qed.

(** The outer [finally]: unlock, then close the descriptor. *)
Lemma release_spec (fd : nat) (L : PurePath) (w : World) :
  fds w !! fd = Some L ->
  exists w', (flock fd LOCK_UN ;;; file_close fd) w = (w', Return tt) /\
    trace w' = trace w ++ [EvFlock fd LOCK_UN true; EvClose fd] /\
    fds w' = delete fd (fds w) /\
    flocks w' = (if decide (flocks w !! L = Some fd) then delete L (flocks w) else flocks w) /\
    conns w' = conns w /\ fs w' = fs w /\ same_config w w'.
Proof.
  intros Hfd. unfold bind, flock, file_close, same_config. rewrite Hfd.
  destruct (flocks w !! L) as [h|] eqn:HL.
  - destruct (decide (h = fd)) as [->|Hh]; wsimpl; rewrite Hfd.
    + rewrite lookup_delete_eq. eexists. split; [reflexivity|]. wsimpl.
      rewrite decide_True by done. rewrite <- app_assoc. done.
    + rewrite HL. rewrite decide_False by done. eexists. split; [reflexivity|]. wsimpl.
      rewrite decide_False by congruence. rewrite <- app_assoc. done.
  - wsimpl. rewrite Hfd, HL. eexists. split; [reflexivity|]. wsimpl.
    rewrite <- app_assoc. done.
Qed.

Lemma duckdb_connect_spec (s : string) (w w' : World) (r : outcome PurePath) :
  duckdb_connect s w = (w', r) ->
  fds w' = fds w /\ flocks w' = flocks w /\ same_config w w' /\
  ((r = Raise (DuckDBError IOException_open) /\ fs w' = fs w /\ conns w' = conns w /\
    trace w' = trace w ++ [EvConnect s false]) \/
   (r = Return (Path s) /\ conns w !! Path s = None /\ may_write (Path s) w = true /\
    conns w' = <[Path s := []]> (conns w) /\
    trace w' = trace w ++ [EvConnect s true] /\
    exists db0, fs w' = <[Path s := NDatabase db0]> (fs w) /\
      (fs w !! Path s = Some (NDatabase db0) \/ fs w !! Path s = None /\ db0 = ∅))).
Proof.
  unfold duckdb_connect. cbv zeta.
  assert (Hfail : (emit (EvConnect s false) w, Raise (DuckDBError IOException_open)) = (w', r) ->
    fds w' = fds w /\ flocks w' = flocks w /\ same_config w w' /\
    ((r = Raise (DuckDBError IOException_open) /\ fs w' = fs w /\ conns w' = conns w /\
      trace w' = trace w ++ [EvConnect s false]) \/
     (r = Return (Path s) /\ conns w !! Path s = None /\ may_write (Path s) w = true /\
      conns w' = <[Path s := []]> (conns w) /\
      trace w' = trace w ++ [EvConnect s true] /\
      exists db0, fs w' = <[Path s := NDatabase db0]> (fs w) /\
        (fs w !! Path s = Some (NDatabase db0) \/ fs w !! Path s = None /\ db0 = ∅)))).
  { intros [= <- <-]. wsimpl. repeat split; try done. left. done. }
  destruct (conns w !! Path s) eqn:Hc; [done|].
  destruct (fs w !! Path s) as [[| |db]|] eqn:Hf; try done.
  - destruct (may_write (Path s) w) eqn:Hmw; [|done]. intros [= <- <-]. wsimpl.
    repeat split; try done. right. repeat split; try done.
    exists db. rewrite insert_id by done. auto.
  - destruct (fs w !! parent (Path s)) as [[| |]|]; try done.
    destruct (may_create (Path s) w) eqn:Hmc; [|done]. intros [= <- <-]. wsimpl.
    apply andb_true_iff in Hmc as [_ Hmw].
    repeat split; try done. right. repeat split; try done. exists ∅. auto.
Qed.

(** The inner [try]/[finally]: the body, then [conn.close()]. *)
Lemma body_scope_spec {A} (b : prog A) (c : PurePath) (w3 w5 : World) (r : outcome A) :
  try_finally (run_prog E b c) (conn_close c) w3 = (w5, r) ->
  exists w4 evs, run_prog E b c w3 = (w4, r) /\ r ≠ Blocked /\ body_frame c w3 w4 evs /\
    fs w5 = fs w4 /\ fds w5 = fds w4 /\ flocks w5 = flocks w4 /\
    conns w5 = delete c (conns w4) /\ trace w5 = trace w4 ++ [EvConnClose] /\
    same_config w4 w5.
Proof.
  unfold try_finally, conn_close.
  destruct (run_prog E b c w3) as [w4 r4] eqn:Hb.
  destruct (run_prog_frame _ _ _ _ _ Hb) as [Hnb [evs Hf]].
  destruct r4; [| |done]; intros [= <- <-]; exists w4, evs; wsimpl; done.
Qed.

Lemma may_write_readonly (q : PurePath) (w w' : World) :
  readonly w' = readonly w -> may_write q w' = may_write q w.
Proof. unfold may_write. by intros ->. Qed.

(** Everything between [open] and the end of the outer [finally]. *)
Lemma locked_section_exit {A} (s : string) (d L : PurePath) (fd : nat) (b : prog A)
    (w2 w' : World) (r : outcome A) :
  Path s = d -> L ≠ d -> fds w2 !! fd = Some L ->
  try_finally
    (flock fd LOCK_EX ;;;
     conn <- duckdb_connect s ;;
     try_finally (run_prog E b conn) (conn_close conn))
    (flock fd LOCK_UN ;;; file_close fd) w2 = (w', r) ->
  (r = Raise (OSError NoLocksAvailable) /\ lock_table_full w2 = true /\
   trace w' = trace w2 ++ [EvFlock fd LOCK_EX false; EvFlock fd LOCK_UN true; EvClose fd] /\
   fds w' = delete fd (fds w2) /\
   flocks w' = (if decide (flocks w2 !! L = Some fd) then delete L (flocks w2) else flocks w2) /\
   conns w' = conns w2 /\ fs w' = fs w2) \/
  (r = Blocked /\ (exists h, flocks w2 !! L = Some h /\ h ≠ fd) /\
   trace w' = trace w2 ++ [EvFlockWait fd]) \/
  (r = Raise (DuckDBError IOException_open) /\
   (exists wa, fs wa = fs w2 /\ conns wa = conns w2 /\ readonly wa = readonly w2 /\
      (duckdb_connect s wa).2 = Raise (DuckDBError IOException_open)) /\
   trace w' = trace w2 ++
     [EvFlock fd LOCK_EX true; EvConnect s false; EvFlock fd LOCK_UN true; EvClose fd] /\
   fds w' = delete fd (fds w2) /\ flocks w' = delete L (flocks w2) /\
   conns w' = conns w2 /\ fs w' = fs w2) \/
  (exists (w3 w4 : World) (evs : list event) (db0 : database),
     lock_table_full w2 = false /\ may_write d w2 = true /\
     fs w3 = <[d := NDatabase db0]> (fs w2) /\
     (fs w2 !! d = Some (NDatabase db0) \/ fs w2 !! d = None /\ db0 = ∅) /\
     conns w2 !! d = None /\ conns w3 = <[d := []]> (conns w2) /\
     flocks w3 = <[L := fd]> (flocks w2) /\ fds w3 = fds w2 /\
     trace w3 = trace w2 ++ [EvFlock fd LOCK_EX true; EvConnect s true] /\
     run_prog E b d w3 = (w4, r) /\ r ≠ Blocked /\ body_frame d w3 w4 evs /\
     fs w' = fs w4 /\
     trace w' = trace w4 ++ [EvConnClose; EvFlock fd LOCK_UN true; EvClose fd] /\
     fds w' = delete fd (fds w2) /\ flocks w' = delete L (flocks w2) /\
     conns w' = conns w2 /\ same_config w2 w').
Proof.
  intros Hd Hne Hfd. unfold try_finally at 1. unfold bind at 1.
  destruct (flock fd LOCK_EX w2) as [wa ra] eqn:Hex.
  destruct (flock_ex_spec _ _ _ _ _ Hfd Hex) as (Hfs & Hfds & Hco & [Hro Hlt] & Hcase).
  destruct Hcase as [(-> & Hfull & Hfl & Ht)|[(-> & Hh & Ht)|(-> & Hfull & Hfl & Ht)]].
  - (* flock raised *)
    destruct (release_spec fd L wa) as (wf & -> & Ht' & Hfds' & Hfl' & Hco' & Hfs' & _);
      [congruence|].
    rewrite Ht, Hfds, Hfl, Hco, Hfs, <- app_assoc in *.
    intros [= ? ?]; subst. left. done.
  - (* flock waits *)
    intros [= <- <-]. right; left. done.
  - (* lock taken *)
    unfold bind at 1. destruct (duckdb_connect s wa) as [w3 rc] eqn:Hcon.
    destruct (duckdb_connect_spec _ _ _ _ Hcon) as (Hfds3 & Hfl3 & [Hro3 Hlt3] & Hcase).
    rewrite Hd in Hcase.
    assert (Hunlock : forall wx, flocks wx = flocks wa ->
      (if decide (flocks wx !! L = Some fd) then delete L (flocks wx) else flocks wx)
      = delete L (flocks w2)).
    { intros wx ->. rewrite Hfl, lookup_insert_eq, decide_True by done.
      by rewrite delete_insert_eq. }
    destruct Hcase as [(-> & Hfs3 & Hco3 & Ht3)
                      |(-> & Hnone & Hmw & Hco3 & Ht3 & db0 & Hfs3 & Hdb0)].
    + (* connect raised *)
      destruct (release_spec fd L w3) as (wf & -> & Ht' & Hfds' & Hfl' & Hco' & Hfs' & _);
        [congruence|].
      rewrite (Hunlock w3) in Hfl' by done.
      assert (Hcause : exists wa, fs wa = fs w2 /\ conns wa = conns w2 /\
                readonly wa = readonly w2 /\
                (duckdb_connect s wa).2 = Raise (DuckDBError IOException_open)).
      { exists wa. by rewrite Hcon. }
      rewrite Ht3, Ht, Hfds3, Hfds, Hco3, Hco, Hfs3, Hfs, <- !app_assoc in *.
      intros [= ? ?]; subst. right; right; left. done.
    + (* connected *)
      destruct (try_finally (run_prog E b d) (conn_close d) w3) as [w5 r5] eqn:Hbody.
      destruct (body_scope_spec _ _ _ _ _ Hbody)
        as (w4 & evs & Hrun & Hnb & Hframe & Hfs5 & Hfds5 & Hfl5 & Hco5 & Ht5 & [Hro5 Hlt5]).
      pose proof Hframe as (Hf1 & Hf2 & _ & Hro4 & Hlt4 & Hffs & Hfco & Hft & _).
      destruct (release_spec fd L w5)
        as (wf & Hrel & Ht' & Hfds' & Hfl' & Hco' & Hfs' & [Hro' Hlt']); [congruence|].
      assert (Hcfg : same_config w2 wf) by (split; congruence).
      rewrite Hrel. rewrite (may_write_readonly _ _ _ Hro) in Hmw.
      assert (Hres : (wf, r5) = (w', r) ->
        exists (w3 w4 : World) (evs : list event) (db0 : database),
          lock_table_full w2 = false /\ may_write d w2 = true /\
          fs w3 = <[d := NDatabase db0]> (fs w2) /\
          (fs w2 !! d = Some (NDatabase db0) \/ fs w2 !! d = None /\ db0 = ∅) /\
          conns w2 !! d = None /\ conns w3 = <[d := []]> (conns w2) /\
          flocks w3 = <[L := fd]> (flocks w2) /\ fds w3 = fds w2 /\
          trace w3 = trace w2 ++ [EvFlock fd LOCK_EX true; EvConnect s true] /\
          run_prog E b d w3 = (w4, r) /\ r ≠ Blocked /\ body_frame d w3 w4 evs /\
          fs w' = fs w4 /\
          trace w' = trace w4 ++ [EvConnClose; EvFlock fd LOCK_UN true; EvClose fd] /\
          fds w' = delete fd (fds w2) /\ flocks w' = delete L (flocks w2) /\
          conns w' = conns w2 /\ same_config w2 w').
      { rewrite (Hunlock w5) in Hfl' by congruence.
        assert (Hcof : conns wf = conns w2); [|clear Hco'].
        { rewrite Hco', Hco5. apply map_eq. intros q. destruct (decide (q = d)) as [->|Hq].
          + rewrite lookup_delete_eq. congruence.
          + rewrite lookup_delete_ne by done. rewrite Hfco by done. rewrite Hco3, Hco.
            by rewrite lookup_insert_ne. }
        rewrite Hfs, Hco in *. rewrite Ht, <- app_assoc in Ht3.
        rewrite Ht5, <- app_assoc in Ht'.
        intros [= ? ?]; subst. exists w3, w4, evs, db0.
        repeat split; try done; try congruence; apply Hframe. }
      destruct r5; [| |done]; intros Heq; right; right; right; by apply Hres.
Qed.

Lemma open_w_spec (path : string) (w w' : World) (r : outcome nat) :
  open_w path w = (w', r) ->
  flocks w' = flocks w /\ conns w' = conns w /\ readonly w' = readonly w /\
  lock_table_full w' = lock_table_full w /\
  (((exists e, r = Raise (OSError e)) /\ fs w' = fs w /\ fds w' = fds w /\
    next_fd w' = next_fd w /\ trace w' = trace w ++ [EvOpen path None]) \/
   (r = Return (next_fd w) /\ may_write (Path path) w = true /\
    fs w' = <[Path path := NFile ""]> (fs w) /\
    fds w' = <[next_fd w := Path path]> (fds w) /\ next_fd w' = S (next_fd w) /\
    trace w' = trace w ++ [EvOpen path (Some (next_fd w))])).
Proof.
  unfold open_w. cbv zeta. intros H.
  assert (Hfail : forall e, (emit (EvOpen path None) w, Raise (OSError e)) = (w', r) ->
    flocks w' = flocks w /\ conns w' = conns w /\ readonly w' = readonly w /\
    lock_table_full w' = lock_table_full w /\
    (((exists e, r = Raise (OSError e)) /\ fs w' = fs w /\ fds w' = fds w /\
      next_fd w' = next_fd w /\ trace w' = trace w ++ [EvOpen path None]) \/
     (r = Return (next_fd w) /\ may_write (Path path) w = true /\
      fs w' = <[Path path := NFile ""]> (fs w) /\
      fds w' = <[next_fd w := Path path]> (fds w) /\ next_fd w' = S (next_fd w) /\
      trace w' = trace w ++ [EvOpen path (Some (next_fd w))]))).
  { intros e [= <- <-]. wsimpl. repeat split; try done. left. eauto 10. }
  destruct (fs w !! Path path) as [[| |]|].
  - by eapply Hfail.
  - destruct (may_write (Path path) w) eqn:Hmw; [|by eapply Hfail].
    injection H as <- <-. wsimpl.
    repeat split; try done. right. repeat split; done.
  - destruct (may_write (Path path) w) eqn:Hmw; [|by eapply Hfail].
    injection H as <- <-. wsimpl.
    repeat split; try done. right. repeat split; done.
  - destruct (fs w !! parent (Path path)) as [[| |]|]; try by eapply Hfail.
    destruct (may_create (Path path) w) eqn:Hmc; [|by eapply Hfail].
    apply andb_true_iff in Hmc as [_ Hmw].
    injection H as <- <-. wsimpl.
    repeat split; try done. right. repeat split; done.
Qed.

Lemma mkdir_spec (p : PurePath) (w w' : World) (r : outcome unit) :
  mkdir p w = (w', r) ->
  only_adds_dirs (length (parts p)) w (set_fs (fs w') w) /\ same_handles w w' /\
  ((exists e, r = Raise (OSError e)) /\ trace w' = trace w ++ [EvMkdir p false] \/
   r = Return tt /\ trace w' = trace w ++ [EvMkdir p true] /\ is_dir p w' = true).
Proof.
  unfold mkdir. destruct (mkdir_parents _ p w) as [w1 [e|]] eqn:Hmk;
    apply mkdir_parents_spec in Hmk as [Hoad Hdir]; intros [= <- <-];
    destruct Hoad as (Hh & Ht & Hs & Hn); pose proof Hh as (? & ? & ? & ? & ? & ?).
  - split; [split; [by repeat split|]; split; [done|]; split; [exact Hs|exact Hn]|].
    split; [repeat split; wsimpl; done|].
    left. wsimpl. rewrite Ht. eauto.
  - split; [split; [by repeat split|]; split; [done|]; split; [exact Hs|exact Hn]|].
    split; [repeat split; wsimpl; done|].
    right. wsimpl. rewrite Ht. repeat split; try done. by apply Hdir.
Qed.

(** Every scoped connection ends in one of the six ways of [exit_path]. *)
Lemma get_connection_exit {A} (database_path : string) (b : prog A)
    (w w' : World) (r : outcome A) :
  get_connection database_path (run_prog E b) w = (w', r) ->
  exists path, exit_spec E path database_path b w w' r.
Proof.
  unfold get_connection.
  pose proof (Path_wf database_path) as Hwf.
  set (d := Path database_path) in *.
  pose proof (Path_lock_file_path d Hwf) as HL.
  pose proof (Path_path_str d Hwf) as Hd.
  pose proof (lock_of_ne d) as Hne.
  unfold bind at 1.
  destruct (mkdir (parent d) w) as [w1 r1] eqn:Hmk.
  destruct (mkdir_spec _ _ _ _ Hmk) as (Hoad & Hh & Hcase).
  destruct Hcase as [([e ->] & Ht)|(-> & Ht & Hdir)].
  { intros [= ? ?]; subst. exists AtMkdir. unfold exit_spec. fold d.
    split; [exists e; by rewrite Hmk|]. split; [done|]. split; [done|]. apply Hoad. }
  destruct Hh as (Hfds & Hfl & Hco & Hnf & Hro & Hlt).
  unfold bind at 1.
  destruct (open_w (lock_file_path d) w1) as [w2 r2] eqn:Hop.
  destruct (open_w_spec _ _ _ _ Hop) as (Hfl2 & Hco2 & Hro2 & Hlt2 & Hcase).
  rewrite HL in Hcase.
  destruct Hcase as [([e ->] & Hfs2 & Hfds2 & Hnf2 & Ht2)
                    |(-> & Hmw & Hfs2 & Hfds2 & Hnf2 & Ht2)].
  { intros [= ? ?]; subst. exists AtOpen. unfold exit_spec. fold d.
    rewrite Ht, <- app_assoc in Ht2.
    split; [exists e, w1; by rewrite Hop|]. split; [done|]. split; [repeat split; congruence|].
    split; [rewrite Hfs2; apply Hoad|unfold is_dir in *; by rewrite Hfs2]. }
  intros Hsec. rewrite Hnf in *.
  apply (locked_section_exit _ d (lock_of d)) in Hsec; [|done|done|by rewrite Hfds2, lookup_insert_eq].
  rewrite Ht2, Ht, <- !app_assoc in Hsec. rewrite Hfl2, Hfl, Hco2, Hco, Hlt2, Hlt in Hsec.
  rewrite (may_write_readonly _ w w2) in Hsec by congruence.
  rewrite (may_write_readonly _ w w1) in Hmw by congruence.
  assert (HfdsD : delete (next_fd w) (fds w2) = delete (next_fd w) (fds w)).
  { rewrite Hfds2, Hfds. by rewrite delete_insert_eq. }
  assert (HfsL : fs w2 !! lock_of d = Some (NFile "")).
  { rewrite Hfs2. by rewrite lookup_insert_eq. }
  destruct Hsec as [Hs|[Hs|[Hs|Hs]]].
  - exists AtFlock. unfold exit_spec. fold d.
    destruct Hs as (-> & Hfull & Ht' & Hfds' & Hfl' & Hco' & Hfs').
    repeat split; try exact Ht'; congruence.
  - exists Waiting. unfold exit_spec. fold d. done.
  - exists AtConnect. unfold exit_spec. fold d.
    destruct Hs as (-> & (wa & Hfsa & Hcoa & Hroa & Hcause) & Ht' & Hfds' & Hfl' & Hco' & Hfs').
    split; [done|]. split.
    { exists (set_fs (fs w1) w), wa. split; [exact Hoad|]. split; [exact Hdir|].
      change (fs (set_fs (fs w1) w)) with (fs w1).
      repeat split; try done; congruence. }
    repeat split; try exact Ht'; congruence.
  - exists FromBody. unfold exit_spec. fold d.
    destruct Hs as (w3 & w4 & evs & db0 & Hfull & Hmwd & Hfs3 & Hdb0 & Hnone & Hco3 & Hfl3 &
                    Hfds3 & Ht3 & Hrun & Hnb & Hframe & Hfs' & Ht' & Hfds' & Hfl' & Hco' &
                    [Hro' Hlt']).
    exists (set_fs (fs w1) w), w3, w4, evs, db0.
    rewrite Hfs2 in Hfs3, Hdb0. rewrite lookup_insert_ne in Hdb0 by done.
    constructor; fold d; change (fs (set_fs (fs w1) w)) with (fs w1);
      try done; try exact Ht3; try exact Ht'; try congruence.
    + by rewrite Hmk.
    + split; congruence.
Qed.

(** ** The lock and the connection over a whole call *)

Lemma conn_within_lock_engine (evs rest : list event) :
  forallb engine_event evs = true ->
  conn_within_lock true true (evs ++ rest) = conn_within_lock true true rest.
Proof.
  induction evs as [|e evs IH]; [done|]. simpl. intros [He Hevs]%andb_true_iff.
  destruct e; try done; simpl; by apply IH.
Qed.

Lemma engine_events_no_connect (evs : list event) (s : string) (ok : bool) :
  forallb engine_event evs = true -> EvConnect s ok ∉ evs.
Proof.
  intros H Hin. apply list_elem_of_In in Hin.
  rewrite forallb_forall in H. by apply H in Hin.
Qed.

Lemma engine_events_no_open (evs : list event) (s : string) (o : option nat) :
  forallb engine_event evs = true -> EvOpen s o ∉ evs.
Proof.
  intros H Hin. apply list_elem_of_In in Hin.
  rewrite forallb_forall in H. by apply H in Hin.
Qed.

(** C1. On every exit path of a scoped connection the lock is free again:
    whether the body returned, the body raised, or the engine could not
    open the database, the lock table is what it was before the call, the
    lock on the lock file is not held, and a second caller's scoped
    connection does not wait. *)
Theorem get_connection_releases_lock {A B} (database_path : string)
    (b : prog A) (b2 : prog B) (w : World) :
  let L := Path (lock_file_path (Path database_path)) in
  let res := get_connection database_path (run_prog E b) w in
  flocks w !! L = None ->
  (snd res) ≠ Blocked /\ flocks (fst res) !! L = None /\ flocks (fst res) = flocks w /\
  snd (get_connection database_path (run_prog E b2) (fst res)) ≠ Blocked.
Proof.
  intros L res Hfree. subst L. rewrite Path_lock_file_path in * by apply Path_wf.
  assert (Hgen : forall C (c : prog C) w0, flocks w0 !! lock_of (Path database_path) = None ->
            snd (get_connection database_path (run_prog E c) w0) ≠ Blocked /\
            flocks (fst (get_connection database_path (run_prog E c) w0)) = flocks w0).
  { intros C c w0 Hw0.
    destruct (get_connection database_path (run_prog E c) w0) as [w' r] eqn:Hrun.
    apply get_connection_exit in Hrun as [path Hspec]. simpl.
    destruct path; simpl in Hspec.
    - destruct Hspec as ((e & -> & _) & _ & Hh & _). split; [done|]. apply Hh.
    - destruct Hspec as ((e & w1 & -> & _) & _ & Hh & _). split; [done|]. apply Hh.
    - destruct Hspec as (-> & _ & _ & _ & Hfl & _). split; [done|].
      rewrite Hfl. rewrite decide_False; [done|]. by rewrite Hw0.
    - destruct Hspec as (_ & (h & Hh & _) & _). congruence.
    - destruct Hspec as (-> & _ & _ & _ & Hfl & _). split; [done|].
      rewrite Hfl. by apply delete_id.
    - destruct Hspec as (w1 & w3 & w4 & evs & db0 & Hspec).
      pose proof (fb_returns Hspec) as Hnb. pose proof (fb_flocks_exit Hspec) as Hfl.
      split; [done|]. rewrite Hfl. by apply delete_id. }
  destruct (Hgen A b w Hfree) as [Hnb Hfl]. fold res in Hnb, Hfl.
  split; [done|]. split; [by rewrite Hfl|]. split; [done|].
  apply Hgen. by rewrite Hfl.
Qed.

Ltac not_in_list Hin :=
  repeat (apply elem_of_cons in Hin as [Hin|Hin]; [discriminate Hin|]);
  by apply elem_of_nil in Hin.

(** C2. A scoped connection never has the connection open without the
    lock: the trace of every call passes the monitor [conn_within_lock],
    and when a connection was opened the call ends, whether the body
    returned or raised, with the body's events followed by [conn.close()],
    then the unlock, then the closing of the descriptor, in that order. *)
Theorem connection_closed_before_unlock {A} (database_path : string)
    (b : prog A) (w : World) :
  let res := get_connection database_path (run_prog E b) w in
  let evs := new_events w (fst res) in
  conn_within_lock false false evs = true /\
  forall s, EvConnect s true ∈ evs ->
    (snd res) ≠ Blocked /\
    exists pre body fd,
      evs = pre ++ [EvConnect s true] ++ body ++
            [EvConnClose; EvFlock fd LOCK_UN true; EvClose fd] /\
      forallb engine_event body = true /\
      (EvConnClose ∉ pre) /\ (forall fd' ok, EvFlock fd' LOCK_UN ok ∉ pre).
Proof.
  intros res evs. subst evs res.
  destruct (get_connection database_path (run_prog E b) w) as [w' r] eqn:Hrun.
  apply get_connection_exit in Hrun as [path Hspec]. simpl.
  destruct path; simpl in Hspec.
  - destruct Hspec as (_ & Ht & _). rewrite (new_events_app _ _ _ Ht).
    split; [done|]. intros s Hin. not_in_list Hin.
  - destruct Hspec as (_ & Ht & _). rewrite (new_events_app _ _ _ Ht).
    split; [done|]. intros s Hin. not_in_list Hin.
  - destruct Hspec as (_ & _ & Ht & _). rewrite (new_events_app _ _ _ Ht).
    split; [done|]. intros s Hin. not_in_list Hin.
  - destruct Hspec as (_ & _ & Ht). rewrite (new_events_app _ _ _ Ht).
    split; [done|]. intros s Hin. not_in_list Hin.
  - destruct Hspec as (_ & _ & Ht & _). rewrite (new_events_app _ _ _ Ht).
    split; [done|]. intros s Hin. not_in_list Hin.
  - destruct Hspec as (w1 & w3 & w4 & body & db0 & Hspec).
    pose proof (fb_trace_enter Hspec) as Ht3. pose proof (fb_returns Hspec) as Hnb.
    pose proof (fb_frame Hspec) as Hframe. pose proof (fb_trace_exit Hspec) as Ht'.
    destruct Hframe as (_ & _ & _ & _ & _ & _ & _ & Ht4 & Hbody).
    rewrite Ht4, Ht3, <- !app_assoc in Ht'. rewrite (new_events_app _ _ _ Ht').
    split.
    + simpl. by rewrite conn_within_lock_engine.
    + intros s Hin.
      assert (s = path_str (Path database_path)) as ->.
      { pose proof (engine_events_no_connect body s true Hbody) as Hno.
        simpl in Hin. rewrite !elem_of_cons, elem_of_app, !elem_of_cons in Hin.
        destruct Hin as [?|[?|[?|[Heq|[?|[?|[?|[?|?%elem_of_nil]]]]]]]]; try done.
        by injection Heq. }
      split; [done|].
      exists [EvMkdir (parent (Path database_path)) true;
              EvOpen (lock_file_path (Path database_path)) (Some (next_fd w));
              EvFlock (next_fd w) LOCK_EX true], body, (next_fd w).
      split; [reflexivity|]. split; [done|].
      split; [intros Hin'; not_in_list Hin'|]. intros fd' ok Hin'. not_in_list Hin'.
Qed.

(** C9. Once [open] has returned a descriptor for the lock file, every
    exit of the call, also when [flock] itself raised or the engine could
    not open the database, has unlocked and closed it: the two last events
    of the call are the unlock and the close of that descriptor, which is
    then neither open nor the holder of the lock. *)
Theorem lock_descriptor_closed {A} (database_path : string) (b : prog A)
    (w : World) (fd : nat) :
  let L := Path (lock_file_path (Path database_path)) in
  let res := get_connection database_path (run_prog E b) w in
  let evs := new_events w (fst res) in
  snd res ≠ Blocked ->
  EvOpen (lock_file_path (Path database_path)) (Some fd) ∈ evs ->
  fds (fst res) !! fd = None /\ flocks (fst res) !! L ≠ Some fd /\
  exists pre, evs = pre ++ [EvFlock fd LOCK_UN true; EvClose fd].
Proof.
  intros L res evs. subst L evs res. rewrite Path_lock_file_path by apply Path_wf.
  destruct (get_connection database_path (run_prog E b) w) as [w' r] eqn:Hrun.
  apply get_connection_exit in Hrun as [path Hspec]. simpl.
  destruct path; simpl in Hspec.
  - destruct Hspec as (_ & Ht & _). rewrite (new_events_app _ _ _ Ht).
    intros _ Hin. not_in_list Hin.
  - destruct Hspec as (_ & Ht & _). rewrite (new_events_app _ _ _ Ht).
    intros _ Hin. not_in_list Hin.
  - destruct Hspec as (_ & _ & Ht & Hfds & Hfl & _). rewrite (new_events_app _ _ _ Ht).
    intros _ Hin.
    apply elem_of_cons in Hin as [Hin|Hin]; [done|].
    apply elem_of_cons in Hin as [[= ->]|Hin]; [|not_in_list Hin].
    split; [by rewrite Hfds, lookup_delete_eq|]. split.
    + rewrite Hfl. destruct (decide _); [by rewrite lookup_delete_eq|done].
    + by eexists [_; _; _].
  - destruct Hspec as (-> & _). done.
  - destruct Hspec as (_ & _ & Ht & Hfds & Hfl & _). rewrite (new_events_app _ _ _ Ht).
    intros _ Hin.
    apply elem_of_cons in Hin as [Hin|Hin]; [done|].
    apply elem_of_cons in Hin as [[= ->]|Hin]; [|not_in_list Hin].
    split; [by rewrite Hfds, lookup_delete_eq|]. split.
    + by rewrite Hfl, lookup_delete_eq.
    + by eexists [_; _; _; _].
  - destruct Hspec as (w1 & w3 & w4 & body & db0 & Hspec).
    pose proof (fb_trace_enter Hspec) as Ht3. pose proof (fb_returns Hspec) as Hnb.
    pose proof (fb_frame Hspec) as Hframe. pose proof (fb_trace_exit Hspec) as Ht'.
    pose proof (fb_fds_exit Hspec) as Hfds. pose proof (fb_flocks_exit Hspec) as Hfl.
    destruct Hframe as (_ & _ & _ & _ & _ & _ & _ & Ht4 & Hbody).
    rewrite Ht4, Ht3, <- !app_assoc in Ht'. rewrite (new_events_app _ _ _ Ht').
    intros _ Hin.
    apply elem_of_cons in Hin as [Hin|Hin]; [done|].
    apply elem_of_cons in Hin as [[= ->]|Hin].
    + split; [by rewrite Hfds, lookup_delete_eq|]. split.
      * by rewrite Hfl, lookup_delete_eq.
      * exists ([EvMkdir (parent (Path database_path)) true;
                 EvOpen (lock_file_path (Path database_path)) (Some (next_fd w));
                 EvFlock (next_fd w) LOCK_EX true;
                 EvConnect (path_str (Path database_path)) true] ++ body ++ [EvConnClose]).
        by rewrite <- !app_assoc.
    + exfalso. apply elem_of_cons in Hin as [Hin|Hin]; [done|].
      apply elem_of_cons in Hin as [Hin|Hin]; [done|].
      apply elem_of_app in Hin as [Hin|Hin]; [by eapply engine_events_no_open|].
      not_in_list Hin.
Qed.

(** C10. [open(..., 'w')] creates the lock file or empties it, whatever
    was there, and nothing in the call removes it or writes to it: after
    every call that opened the lock file and ended, the lock file exists
    and is empty. *)
Theorem lock_file_left_empty {A} (database_path : string) (b : prog A)
    (w : World) (fd : nat) :
  let lf := lock_file_path (Path database_path) in
  let res := get_connection database_path (run_prog E b) w in
  (forall w0 fd0, snd (open_w lf w0) = Return fd0 ->
     fs (fst (open_w lf w0)) !! Path lf = Some (NFile "")) /\
  (snd res ≠ Blocked -> EvOpen lf (Some fd) ∈ new_events w (fst res) ->
   fs (fst res) !! Path lf = Some (NFile "")).
Proof.
  intros lf res. subst lf res. split.
  { intros w0 fd0. destruct (open_w _ w0) as [w0' r0] eqn:Hop.
    destruct (open_w_spec _ _ _ _ Hop) as (_ & _ & _ & _ & [([e ->] & _)|(_ & _ & Hfs & _)]);
      simpl; [done|].
    intros _. by rewrite Hfs, lookup_insert_eq. }
  rewrite Path_lock_file_path by apply Path_wf.
  destruct (get_connection database_path (run_prog E b) w) as [w' r] eqn:Hrun.
  apply get_connection_exit in Hrun as [path Hspec]. simpl.
  destruct path; simpl in Hspec.
  - destruct Hspec as (_ & Ht & _). rewrite (new_events_app _ _ _ Ht).
    intros _ Hin. not_in_list Hin.
  - destruct Hspec as (_ & Ht & _). rewrite (new_events_app _ _ _ Ht).
    intros _ Hin. not_in_list Hin.
  - by destruct Hspec as (_ & _ & _ & _ & _ & _ & Hfs).
  - destruct Hspec as (-> & _). done.
  - by destruct Hspec as (_ & _ & _ & _ & _ & _ & Hfs).
  - destruct Hspec as (w1 & w3 & w4 & body & db0 & Hspec).
    pose proof (fb_fs_enter Hspec) as Hfs3. pose proof (fb_frame Hspec) as Hframe.
    pose proof (fb_fs_exit Hspec) as Hfs'.
    destruct Hframe as (_ & _ & _ & _ & _ & Hffs & _).
    intros _ _. rewrite Hfs', Hffs, Hfs3 by apply lock_of_ne.
    rewrite lookup_insert_ne by (intros Heq; symmetry in Heq; by apply lock_of_ne in Heq).
    by rewrite lookup_insert_eq.
Qed.

(** ** Failing to open the lock file *)

(** C6. When [open] cannot create or open the lock file, the [OSError] it
    raises, a [ResourceUnavailable] failure, is what the call raises:
    [open] is attempted once, no lock is taken, no connection is opened,
    the body does not run. *)
Theorem lock_file_open_failure_propagates {A} (database_path : string)
    (b : prog A) (w w1 w2 : World) (e : exn) :
  let d := Path database_path in
  mkdir (parent d) w = (w1, Return tt) ->
  open_w (lock_file_path d) w1 = (w2, Raise e) ->
  get_connection database_path (run_prog E b) w = (w2, Raise e) /\
  classify e = ResourceUnavailable /\
  new_events w w2 = [EvMkdir (parent d) true; EvOpen (lock_file_path d) None] /\
  flocks w2 = flocks w /\ fds w2 = fds w /\ conns w2 = conns w.
Proof.
  intros d Hmk Hop. split.
  { unfold get_connection, bind. fold d. by rewrite Hmk, Hop. }
  destruct (mkdir_spec _ _ _ _ Hmk) as (_ & Hh & [([? ?] & _)|(_ & Ht & _)]); [done|].
  destruct Hh as (Hfds & Hfl & Hco & _).
  destruct (open_w_spec _ _ _ _ Hop) as (Hfl2 & Hco2 & _ & _ & [([e' He] & _ & Hfds2 & _ & Ht2)|(? & _)]);
    [|done].
  injection He as ->. split; [done|]. split; [|repeat split; congruence].
  apply new_events_app. by rewrite Ht2, Ht, <- app_assoc.
Qed.

(** ** Where the lock file lives *)

(** C7, as the code has it.  The lock file's name is the rendering of the
    parsed database path followed by [.lock]; that rendering is also the
    name the engine is given, so in every call the name passed to [open]
    is the name passed to [duckdb.connect] followed by [.lock].  The two
    files lie in the same directory.  When the configured path is already
    in the form [Path] renders, the lock file's name is the configured
    path followed by [.lock]. *)
Theorem lock_file_beside_database {A} (database_path : string) (b : prog A) (w : World) :
  let d := Path database_path in
  let evs := new_events w (fst (get_connection database_path (run_prog E b) w)) in
  lock_file_path d = path_str d +:+ ".lock" /\
  (forall s o, EvOpen s o ∈ evs -> s = path_str d +:+ ".lock") /\
  (forall s ok, EvConnect s ok ∈ evs -> s = path_str d) /\
  parent (Path (lock_file_path d)) = parent (Path (path_str d)) /\
  Path (lock_file_path d) ≠ Path (path_str d) /\
  (path_str d = database_path -> lock_file_path d = database_path +:+ ".lock").
Proof.
  intros d evs. split; [done|].
  assert (Hev : (forall s o, EvOpen s o ∈ evs -> s = path_str d +:+ ".lock") /\
                (forall s ok, EvConnect s ok ∈ evs -> s = path_str d)).
  { subst evs.
    destruct (get_connection database_path (run_prog E b) w) as [w' r] eqn:Hrun.
    apply get_connection_exit in Hrun as [path Hspec]. simpl. fold d in Hspec.
    destruct path; simpl in Hspec.
    - destruct Hspec as (_ & Ht & _). rewrite (new_events_app _ _ _ Ht).
      split; intros ? ? Hin; not_in_list Hin.
    - destruct Hspec as (_ & Ht & _). rewrite (new_events_app _ _ _ Ht).
      split; intros ? ? Hin; [|not_in_list Hin].
      apply elem_of_cons in Hin as [Hin|Hin]; [done|].
      apply elem_of_cons in Hin as [[= -> ->]|Hin]; [done|not_in_list Hin].
    - destruct Hspec as (_ & _ & Ht & _). rewrite (new_events_app _ _ _ Ht).
      split; intros ? ? Hin; [|not_in_list Hin].
      apply elem_of_cons in Hin as [Hin|Hin]; [done|].
      apply elem_of_cons in Hin as [[= -> ->]|Hin]; [done|not_in_list Hin].
    - destruct Hspec as (_ & _ & Ht). rewrite (new_events_app _ _ _ Ht).
      split; intros ? ? Hin; [|not_in_list Hin].
      apply elem_of_cons in Hin as [Hin|Hin]; [done|].
      apply elem_of_cons in Hin as [[= -> ->]|Hin]; [done|not_in_list Hin].
    - destruct Hspec as (_ & _ & Ht & _). rewrite (new_events_app _ _ _ Ht).
      split; intros ? ? Hin.
      + apply elem_of_cons in Hin as [Hin|Hin]; [done|].
        apply elem_of_cons in Hin as [[= -> ->]|Hin]; [done|not_in_list Hin].
      + do 3 (apply elem_of_cons in Hin as [Hin|Hin]; [done|]).
        apply elem_of_cons in Hin as [[= -> ->]|Hin]; [done|not_in_list Hin].
    - destruct Hspec as (w1 & w3 & w4 & body & db0 & Hspec).
      pose proof (fb_trace_enter Hspec) as Ht3. pose proof (fb_returns Hspec) as Hnb.
      pose proof (fb_frame Hspec) as Hframe. pose proof (fb_trace_exit Hspec) as Ht'.
      destruct Hframe as (_ & _ & _ & _ & _ & _ & _ & Ht4 & Hbody).
      rewrite Ht4, Ht3, <- !app_assoc in Ht'. rewrite (new_events_app _ _ _ Ht').
      split; intros ? ? Hin.
      + apply elem_of_cons in Hin as [Hin|Hin]; [done|].
        apply elem_of_cons in Hin as [[= -> ->]|Hin]; [done|].
        do 2 (apply elem_of_cons in Hin as [Hin|Hin]; [done|]).
        apply elem_of_app in Hin as [Hin|Hin]; [by apply engine_events_no_open in Hin|].
        not_in_list Hin.
      + do 3 (apply elem_of_cons in Hin as [Hin|Hin]; [done|]).
        apply elem_of_cons in Hin as [[= -> ->]|Hin]; [done|].
        apply elem_of_app in Hin as [Hin|Hin]; [by apply engine_events_no_connect in Hin|].
        not_in_list Hin. }
  destruct Hev as [Hopen Hconn]. split; [done|]. split; [done|].
  pose proof (Path_wf database_path) as Hwf. fold d in Hwf.
  rewrite Path_lock_file_path, Path_path_str by done.
  split; [apply parent_lock_of|]. split; [apply lock_of_ne|].
  intros Hnorm. unfold lock_file_path. by rewrite Hnorm.
Qed.

(** ** Making the parent directory *)

Lemma prefixes_snoc (l : list string) (x : string) :
  prefixes (l ++ [x]) = prefixes l ++ [l ++ [x]].
Proof.
  induction l as [|y l IH]; [done|]. simpl. rewrite IH. by rewrite map_app.
Qed.

Lemma ancestors_snoc (r : string) (l : list string) (x : string) :
  ancestors (mkPath r (l ++ [x])) = ancestors (mkPath r l) ++ [mkPath r (l ++ [x])].
Proof. unfold ancestors. simpl. rewrite prefixes_snoc. by rewrite map_app. Qed.

Lemma parent_snoc (r : string) (l : list string) (x : string) :
  parent (mkPath r (l ++ [x])) = mkPath r l.
Proof. unfold parent. simpl. by rewrite removelast_last. Qed.

Lemma path_snoc (p : PurePath) :
  parts p ≠ [] -> exists l x, p = mkPath (root p) (l ++ [x]).
Proof.
  destruct p as [r l]. simpl. intros Hne.
  exists (removelast l), (List.last l ""). f_equal. by apply app_removelast_last.
Qed.

Lemma parent_fixed (p : PurePath) : parent p = p -> parts p = [].
Proof.
  destruct p as [r l]. unfold parent. simpl. intros [= Heq].
  destruct (decide (l = [])) as [|Hne]; [done|].
  apply (f_equal length) in Heq. rewrite removelast_firstn_len, length_take in Heq.
  destruct l; [done|]. simpl in Heq. lia.
Qed.

Lemma creatable_parent (r : string) (l : list string) (x : string) (w : World) :
  creatable (mkPath r (l ++ [x])) w = true ->
  creatable (mkPath r l) w = true /\
  match fs w !! mkPath r (l ++ [x]) with
  | None => may_write (mkPath r (l ++ [x])) w = true
  | Some NDir => is_dir (mkPath r l) w = true
  | Some _ => False
  end.
Proof.
  unfold creatable. rewrite ancestors_snoc. simpl. rewrite forallb_app. simpl.
  rewrite parent_snoc.
  intros [Ha [Hl Hp]%andb_true_iff]%andb_true_iff. rewrite Ha, Hl. split; [done|].
  destruct (fs w !! mkPath r (l ++ [x])) as [[| |]|]; try done.
  - rewrite andb_true_r in Hp. by apply andb_true_iff in Hp as [_ ?].
  - by rewrite andb_true_r in Hp.
Qed.

Lemma creatable_self (p : PurePath) (w : World) :
  creatable p w = true ->
  match fs w !! p with None | Some NDir => may_write p w = true | Some _ => False end.
Proof.
  destruct (decide (parts p = [])) as [Hnil|Hne].
  - destruct p as [r l]. simpl in Hnil. subst l. unfold creatable, ancestors. simpl.
    intros [_ H]%andb_true_iff. rewrite andb_true_r in H.
    destruct (fs w !! mkPath r []) as [[| |]|]; try done. by apply andb_true_iff in H as [? _].
  - destruct (path_snoc p Hne) as (l & x & ->). simpl.
    unfold creatable. rewrite ancestors_snoc. simpl. rewrite forallb_app. simpl.
    intros [_ [_ H]%andb_true_iff]%andb_true_iff. rewrite andb_true_r in H.
    destruct (fs w !! mkPath (root p) (l ++ [x])) as [[| |]|]; try done.
    by apply andb_true_iff in H as [? _].
Qed.

(** In a tree that [creatable] accepts, a directory has all its ancestors. *)
Lemma creatable_dirs (p : PurePath) (w : World) :
  creatable p w = true -> is_dir p w = true ->
  Forall (fun q => is_dir q w = true) (ancestors p).
Proof.
  destruct p as [r l]. induction l as [|x l IH] using rev_ind.
  - intros _ Hd. unfold ancestors. simpl. by repeat constructor.
  - intros [Hc Hp]%creatable_parent Hd. rewrite ancestors_snoc.
    apply Forall_app. split; [|by repeat constructor].
    apply IH; [done|]. unfold is_dir in Hd.
    destruct (fs w !! mkPath r (l ++ [x])) as [[| |]|]; done.
Qed.

Lemma ancestors_depth (p q : PurePath) :
  q ∈ ancestors p -> length (parts q) <= length (parts p).
Proof.
  destruct p as [r l]. revert q. induction l as [|x l IH] using rev_ind; intros q.
  - unfold ancestors. simpl. intros ->%list_elem_of_singleton. done.
  - rewrite ancestors_snoc. intros [Hin| ->%list_elem_of_singleton]%elem_of_app; [|done].
    apply IH in Hin. simpl in *. rewrite length_app. simpl. lia.
Qed.

(** [mkdir(parents=True, exist_ok=True)] succeeds on a creatable path, and
    leaves the whole chain of directories in place. *)
Lemma mkdir_parents_creatable (n : nat) (p : PurePath) (w : World) :
  creatable p w = true -> length (parts p) <= n ->
  exists w1, mkdir_parents n p w = (w1, None) /\
    Forall (fun q => is_dir q w1 = true) (ancestors p).
Proof.
  revert p w. induction n as [|n IH]; intros p w Hc Hn.
  - assert (parts p = []) as Hnil by (destruct (parts p); [done|simpl in Hn; lia]).
    destruct p as [r l]. simpl in Hnil. subst l.
    pose proof Hc as [Ha _]%andb_true_iff. simpl in Ha.
    exists w. split; [|unfold ancestors; simpl; by repeat constructor].
    simpl. unfold os_mkdir. unfold is_dir in Ha.
    destruct (fs w !! mkPath r []) as [[| |]|] eqn:Hl; try done.
    unfold is_dir. by rewrite Hl.
  - destruct (decide (parts p = [])) as [Hnil|Hne].
    { destruct p as [r l]. simpl in Hnil. subst l.
      pose proof Hc as [Ha _]%andb_true_iff. simpl in Ha.
      exists w. split; [|unfold ancestors; simpl; by repeat constructor].
      simpl. unfold os_mkdir. unfold is_dir in Ha.
      destruct (fs w !! mkPath r []) as [[| |]|] eqn:Hl; try done.
      unfold is_dir. by rewrite Hl. }
    destruct (path_snoc p Hne) as (l & x & Hp). set (r := root p) in *. clearbody r. subst p.
    pose proof (creatable_self _ _ Hc) as Hself.
    pose proof Hc as [Hcp Hchild]%creatable_parent.
    simpl in Hn. rewrite length_app in Hn. simpl in Hn.
    cbn [mkdir_parents]. unfold os_mkdir at 1. rewrite parent_snoc.
    destruct (fs w !! mkPath r (l ++ [x])) as [[| |]|] eqn:Hl; try done.
    { (* already there *)
      exists w. unfold is_dir at 1. rewrite Hl. split; [done|].
      apply creatable_dirs; [done|]. unfold is_dir. by rewrite Hl. }
    pose proof (creatable_self _ _ Hcp) as Hpself.
    destruct (fs w !! mkPath r l) as [[| |]|] eqn:Hpl; try done.
    { (* the parent is there *)
      unfold may_create. rewrite parent_snoc, Hpself, Hself. simpl.
      eexists. split; [reflexivity|]. rewrite ancestors_snoc.
      apply Forall_app. split.
      - assert (Hd : is_dir (mkPath r l) w = true) by (unfold is_dir; by rewrite Hpl).
        pose proof (creatable_dirs _ _ Hcp Hd) as Hall.
        eapply Forall_impl; [exact Hall|]. intros q Hq. unfold is_dir in *. wsimpl.
        destruct (decide (mkPath r (l ++ [x]) = q)) as [<-|Hneq].
        + by rewrite lookup_insert_eq.
        + by rewrite lookup_insert_ne.
      - repeat constructor. unfold is_dir. wsimpl. by rewrite lookup_insert_eq. }
    (* the parent is missing *)
    rewrite decide_False; [|intros [= Heq]; apply (f_equal length) in Heq;
                             rewrite length_app in Heq; simpl in Heq; lia].
    destruct (IH (mkPath r l) w Hcp) as (w2 & Hrec & Hall); [simpl; lia|].
    rewrite Hrec.
    destruct (mkdir_parents_spec _ _ _ _ _ Hrec) as [(Hh & _ & _ & Hnew) Hdir].
    specialize (Hdir eq_refl).
    assert (Hl2 : fs w2 !! mkPath r (l ++ [x]) = None).
    { destruct (fs w2 !! mkPath r (l ++ [x])) as [m|] eqn:Hl2; [|done].
      destruct (Hnew (mkPath r (l ++ [x]))) as (_ & _ & Hlen); [congruence|].
      simpl in Hlen. rewrite length_app in Hlen. simpl in Hlen. lia. }
    unfold os_mkdir. rewrite Hl2, parent_snoc.
    unfold is_dir in Hdir. destruct (fs w2 !! mkPath r l) as [[| |]|] eqn:Hpl2; try done.
    destruct Hh as (_ & _ & _ & _ & Hro & _).
    unfold may_create. rewrite parent_snoc, !(may_write_readonly _ w w2) by done.
    rewrite Hpself, Hself. simpl.
    eexists. split; [reflexivity|]. rewrite ancestors_snoc.
    apply Forall_app. split.
    + eapply Forall_impl; [exact Hall|]. intros q Hq. unfold is_dir in *. wsimpl.
      destruct (decide (mkPath r (l ++ [x]) = q)) as [<-|Hneq].
      * by rewrite lookup_insert_eq.
      * by rewrite lookup_insert_ne.
    + repeat constructor. unfold is_dir. wsimpl. by rewrite lookup_insert_eq.
Qed.

Lemma mkdir_parents_existing (n : nat) (p : PurePath) (w : World) :
  is_dir p w = true -> mkdir_parents n p w = (w, None).
Proof.
  intros Hd. pose proof Hd as Hd'. unfold is_dir in Hd'.
  destruct (fs w !! p) as [[| |]|] eqn:Hl; try done.
  destruct n; simpl; unfold os_mkdir; by rewrite Hl, Hd.
Qed.

Lemma mkdir_ok (p : PurePath) (w : World) :
  dir_available p w = true -> snd (mkdir p w) = Return tt.
Proof.
  unfold dir_available, mkdir. intros [Hd|Hc]%orb_true_iff.
  - by rewrite mkdir_parents_existing.
  - destruct (mkdir_parents_creatable (length (parts p)) p w Hc) as (w1 & -> & _); done.
Qed.

Lemma open_w_ok (path : string) (w : World) :
  fs w !! Path path ≠ Some NDir -> may_write (Path path) w = true ->
  (fs w !! Path path = None ->
   is_dir (parent (Path path)) w = true /\ may_write (parent (Path path)) w = true) ->
  snd (open_w path w) = Return (next_fd w).
Proof.
  intros Hnd Hmw Hnew. unfold open_w. cbv zeta.
  destruct (fs w !! Path path) as [[| |]|] eqn:Hl; try done; try by rewrite Hmw.
  destruct Hnew as [Hd Hmp]; [done|]. unfold is_dir in Hd.
  destruct (fs w !! parent (Path path)) as [[| |]|]; try done.
  unfold may_create. by rewrite Hmp, Hmw.
Qed.

Lemma duckdb_connect_ok (s : string) (w : World) :
  conns w !! Path s = None -> may_write (Path s) w = true ->
  ((exists db, fs w !! Path s = Some (NDatabase db)) \/
   (fs w !! Path s = None /\ is_dir (parent (Path s)) w = true /\
    may_write (parent (Path s)) w = true)) ->
  snd (duckdb_connect s w) = Return (Path s).
Proof.
  intros Hc Hmw Hcase. unfold duckdb_connect. cbv zeta. rewrite Hc.
  destruct Hcase as [[db ->]|(-> & Hd & Hmp)]; [by rewrite Hmw|].
  unfold is_dir in Hd. destruct (fs w !! parent (Path s)) as [[| |]|]; try done.
  unfold may_create. by rewrite Hmp, Hmw.
Qed.

Lemma unobstructed_inv (d : PurePath) (w : World) :
  unobstructed d w = true ->
  fs w !! lock_of d ≠ Some NDir /\
  (fs w !! lock_of d = None -> may_write (parent d) w = true) /\
  may_write (lock_of d) w = true /\ may_write d w = true /\
  lock_table_full w = false /\ flocks w !! lock_of d = None /\
  (fs w !! d = None /\ may_write (parent d) w = true \/
   exists db, fs w !! d = Some (NDatabase db)) /\
  conns w !! d = None.
Proof.
  unfold unobstructed. cbv zeta.
  intros [[[[[[H1 H2]%andb_true_iff H3]%andb_true_iff H4]%andb_true_iff
            H5]%andb_true_iff H6]%andb_true_iff H7]%andb_true_iff.
  repeat split; try done.
  - intros Heq. by rewrite Heq in H1.
  - intros Heq. by rewrite Heq in H1.
  - by apply negb_true_iff.
  - by destruct (flocks w !! lock_of d).
  - destruct (fs w !! d) as [[| |]|]; try done; eauto.
  - by destruct (conns w !! d).
Qed.

Lemma lock_of_depth (d : PurePath) :
  length (parts (parent d)) < length (parts (lock_of d)).
Proof.
  destruct d as [r l]. unfold parent, lock_of. simpl.
  rewrite removelast_firstn_len, length_take. destruct l as [|x l]; [simpl; lia|].
  rewrite suffix_last_length. simpl. lia.
Qed.

Lemma database_not_anchor (d : PurePath) (w : World) :
  dir_available (parent d) w = true -> unobstructed d w = true -> parts d ≠ [].
Proof.
  intros Hda Hun Hnil. destruct d as [r l]. simpl in Hnil. subst l.
  apply unobstructed_inv in Hun as (_ & _ & _ & _ & _ & _ & Hdb & _).
  assert (Hd : is_dir (mkPath r []) w = true).
  { unfold dir_available in Hda. apply orb_true_iff in Hda as [Hd|Hc]; [done|].
    by apply andb_true_iff in Hc as [? _]. }
  unfold is_dir in Hd. destruct Hdb as [[Hdb _]|[db Hdb]]; by rewrite Hdb in Hd.
Qed.

Lemma only_adds_dirs_deeper (k : nat) (w w1 : World) (q : PurePath) :
  only_adds_dirs k w w1 -> k < length (parts q) -> fs w1 !! q = fs w !! q.
Proof.
  intros (_ & _ & Hsub & Hnew) Hk. destruct (fs w !! q) as [m|] eqn:H0.
  - by eapply lookup_weaken.
  - destruct (fs w1 !! q) as [m|] eqn:H1; [|done].
    destruct (Hnew q) as (_ & _ & Hlen); [congruence|lia].
Qed.

(** When nothing stands in the way, the call reaches the body. *)
Lemma get_connection_enters {A} (database_path : string) (b : prog A)
    (w w' : World) (r : outcome A) :
  dir_available (parent (Path database_path)) w = true ->
  unobstructed (Path database_path) w = true ->
  get_connection database_path (run_prog E b) w = (w', r) ->
  exit_spec E FromBody database_path b w w' r.
Proof.
  intros Hda Hun Hrun.
  pose proof (database_not_anchor _ _ Hda Hun) as Hparts.
  pose proof (Path_wf database_path) as Hwf.
  pose proof (unobstructed_inv _ _ Hun)
    as (HL & HmwpL & HmwL & Hmwd & Hfull & Hfree & Hdb & Hco).
  set (d := Path database_path) in *.
  assert (Hdepth : length (parts (parent d)) < length (parts d)).
  { destruct (path_snoc d Hparts) as (l & x & ->). rewrite parent_snoc. simpl.
    rewrite length_app. simpl. lia. }
  apply get_connection_exit in Hrun as [path Hspec].
  destruct path; simpl in Hspec; fold d in Hspec; try done; exfalso.
  - destruct Hspec as ((e & _ & Hmk) & _). by rewrite mkdir_ok in Hmk.
  - destruct Hspec as ((e & w1 & _ & Hmk & Hop) & _).
    destruct (mkdir_spec _ _ _ _ Hmk) as (Hoad & Hh & [([? ?] & _)|(_ & _ & Hdir)]);
      [done|].
    destruct Hh as (_ & _ & _ & _ & Hro & _).
    assert (HfsL : fs w1 !! lock_of d = fs w !! lock_of d).
    { apply (only_adds_dirs_deeper _ _ _ _ Hoad). apply lock_of_depth. }
    rewrite open_w_ok in Hop; [done| | |]; rewrite Path_lock_file_path by done.
    + by rewrite HfsL.
    + by rewrite (may_write_readonly _ w w1).
    + rewrite HfsL. intros Hnone. rewrite parent_lock_of.
      rewrite (may_write_readonly _ w w1) by done. auto.
  - destruct Hspec as (_ & Hfull' & _). congruence.
  - destruct Hspec as (_ & (h & Hh & _) & _). congruence.
  - destruct Hspec as (_ & (w1 & w3 & Hoad & Hdir & Hfs3 & Hco3 & Hro3 & Hcon) & _).
    pose proof (only_adds_dirs_deeper _ _ _ _ Hoad Hdepth) as Hfsd.
    pose proof (lock_of_ne d) as Hne.
    rewrite duckdb_connect_ok in Hcon; [done| | |]; rewrite Path_path_str by done.
    + by rewrite Hco3.
    + by rewrite (may_write_readonly _ w w3).
    + rewrite Hfs3, lookup_insert_ne, Hfsd by done.
      destruct Hdb as [[Hdb Hmwp]|[db Hdb]]; [right|left; eauto].
      split; [done|]. unfold is_dir in *. rewrite Hfs3.
      rewrite lookup_insert_ne.
      * split; [done|]. by rewrite (may_write_readonly _ w w3).
      * intros Heq. apply (f_equal (fun q => length (parts q))) in Heq.
        pose proof (lock_of_depth d). lia.
Qed.

(** C8. The first thing a scoped connection does is make the parent
    directory of the database, before the lock file is opened or locked.
    When the directory is there already the step changes nothing and
    cannot fail; when it is missing and can be made the step makes it with
    every missing ancestor; and a call on such a path, with nothing else in
    the way, reaches the caller's body, returns what the body returns, and
    leaves the chain of directories in place. *)
Theorem parent_directory_ensured {A} (database_path : string) (b : prog A) (w : World) :
  let d := Path database_path in
  let res := get_connection database_path (run_prog E b) w in
  (exists ok rest, new_events w (fst res) = EvMkdir (parent d) ok :: rest /\
                   (ok = false -> rest = [])) /\
  (is_dir (parent d) w = true ->
   mkdir (parent d) w = (emit (EvMkdir (parent d) true) w, Return tt)) /\
  (creatable (parent d) w = true ->
   exists w1, mkdir (parent d) w = (w1, Return tt) /\ fs w ⊆ fs w1 /\
     Forall (fun q => is_dir q w1 = true) (ancestors (parent d))) /\
  (is_dir (parent d) w = false -> creatable (parent d) w = true ->
   unobstructed d w = true ->
   (exists w3 w4, run_prog E b d w3 = (w4, snd res) /\ fs (fst res) = fs w4) /\
   Forall (fun q => is_dir q (fst res) = true) (ancestors (parent d))).
Proof.
  intros d res.
  assert (Hmkc : creatable (parent d) w = true ->
    exists w1, mkdir (parent d) w = (w1, Return tt) /\ fs w ⊆ fs w1 /\
      Forall (fun q => is_dir q w1 = true) (ancestors (parent d))).
  { intros Hc. unfold mkdir.
    destruct (mkdir_parents_creatable _ _ _ Hc (le_n _)) as (w1 & Hmk & Hall).
    rewrite Hmk. eexists. split; [reflexivity|].
    apply mkdir_parents_spec in Hmk as [(_ & _ & Hsub & _) _]. split; [done|].
    eapply Forall_impl; [exact Hall|]. intros q Hq. exact Hq. }
  split; [|split; [|split; [exact Hmkc|]]].
  - subst res. destruct (get_connection database_path (run_prog E b) w) as [w' r] eqn:Hrun.
    apply get_connection_exit in Hrun as [path Hspec]. simpl. fold d in Hspec.
    destruct path; simpl in Hspec.
    + destruct Hspec as (_ & Ht & _). rewrite (new_events_app _ _ _ Ht). eauto.
    + destruct Hspec as (_ & Ht & _). rewrite (new_events_app _ _ _ Ht).
      eexists _, _. split; [reflexivity|done].
    + destruct Hspec as (_ & _ & Ht & _). rewrite (new_events_app _ _ _ Ht).
      eexists _, _. split; [reflexivity|done].
    + destruct Hspec as (_ & _ & Ht). rewrite (new_events_app _ _ _ Ht).
      eexists _, _. split; [reflexivity|done].
    + destruct Hspec as (_ & _ & Ht & _). rewrite (new_events_app _ _ _ Ht).
      eexists _, _. split; [reflexivity|done].
    + destruct Hspec as (w1 & w3 & w4 & body & db0 & Hfb).
      pose proof (fb_trace_enter Hfb) as Ht3. pose proof (fb_trace_exit Hfb) as Ht'.
      destruct (fb_frame Hfb) as (_ & _ & _ & _ & _ & _ & _ & Ht4 & _).
      rewrite Ht4, Ht3, <- !app_assoc in Ht'. rewrite (new_events_app _ _ _ Ht').
      eexists _, _. split; [reflexivity|done].
  - intros Hd. unfold mkdir. by rewrite mkdir_parents_existing.
  - intros Hnd Hc Hun.
    assert (Hda : dir_available (parent d) w = true)
      by (unfold dir_available; by rewrite Hc, orb_true_r).
    subst res. destruct (get_connection database_path (run_prog E b) w) as [w' r] eqn:Hrun.
    apply get_connection_enters in Hrun as (w1 & w3 & w4 & body & db0 & Hfb); [|done|done].
    simpl. split; [exists w3, w4; split; [apply (fb_run Hfb)|apply (fb_fs_exit Hfb)]|].
    destruct (Hmkc Hc) as (wm & Hmk & _ & Hall).
    pose proof (fb_mkdir Hfb) as Hfs1. fold d in Hfs1. rewrite Hmk in Hfs1. simpl in Hfs1.
    destruct (fb_frame Hfb) as (_ & _ & _ & _ & _ & Hffs & _).
    pose proof (database_not_anchor _ _ Hda Hun) as Hparts.
    apply Forall_forall. intros q Hq. rewrite Forall_forall in Hall.
    specialize (Hall q Hq). apply ancestors_depth in Hq.
    assert (Hdepth : length (parts (parent d)) < length (parts d)).
    { destruct (path_snoc d Hparts) as (l & x & ->). rewrite parent_snoc. simpl.
      rewrite length_app. simpl. lia. }
    unfold is_dir in *. rewrite (fb_fs_exit Hfb), Hffs, (fb_fs_enter Hfb).
    + fold d. rewrite !lookup_insert_ne, Hfs1; [done| |].
      * intros Heq. apply (f_equal (fun q => length (parts q))) in Heq.
        pose proof (lock_of_depth d). lia.
      * intros Heq. apply (f_equal (fun q => length (parts q))) in Heq. lia.
    + intros Heq. apply (f_equal (fun q => length (parts q))) in Heq. fold d in Heq. lia.
Qed.

(** ** The two operations *)

Lemma execute_query_as_prog (database_path query : string) :
  execute_query E database_path query =
  get_connection database_path (run_prog E (PExecute query (PFetchall PReturn))).
Proof. reflexivity. Qed.

Lemma read_csv_to_table_as_prog (database_path csv_path table_name : string) :
  read_csv_to_table E database_path csv_path table_name =
  get_connection database_path
    (run_prog E (PExecute (load_statement table_name csv_path) (PCommit (PReturn tt)))).
Proof. reflexivity. Qed.

(** The body of [execute_query], on an open connection. *)
Lemma query_body_run (c : PurePath) (query : string) (w3 : World) (rs0 : list row)
    (db : database) :
  conns w3 !! c = Some rs0 -> fs w3 !! c = Some (NDatabase db) ->
  exists w4, 
    match engine_execute E query (fs w3) db with
    | (db', inr rs) =>
        run_prog E (PExecute query (PFetchall PReturn)) c w3 = (w4, Return rs) /\
        trace w4 = trace w3 ++ [EvExecute query true; EvFetchall]
    | (db', inl e) =>
        run_prog E (PExecute query (PFetchall PReturn)) c w3 = (w4, Raise e) /\
        trace w4 = trace w3 ++ [EvExecute query false]
    end /\
    fs w4 = <[c := NDatabase (fst (engine_execute E query (fs w3) db))]> (fs w3).
Proof.
  intros Hc Hf. simpl. unfold bind, conn_execute. rewrite Hc, Hf.
  destruct (engine_execute E query (fs w3) db) as [db' [e|rs]].
  - eexists. split; [split; [reflexivity|]|]; done.
  - unfold conn_fetchall. wsimpl. rewrite lookup_insert_eq.
    eexists. split; [split; [reflexivity|]|]; wsimpl; [|done]. by rewrite <- app_assoc.
Qed.

(** C5. [execute_query] is a scoped connection around one [execute] and
    one [fetchall]: the only statement the engine is handed is the query
    string itself; when the call returns rows, they are the rows the
    engine produced for that string on the database as the connection
    found it, in the engine's order, fetched while the connection was
    open; and by then the connection is closed, the lock released and the
    descriptor closed, in that order. *)
Theorem execute_query_passes_query_through (database_path query : string) (w : World) :
  let d := Path database_path in
  let lf := lock_file_path d in
  let res := execute_query E database_path query w in
  let evs := new_events w (fst res) in
  (forall sql ok, EvExecute sql ok ∈ evs -> sql = query) /\
  (forall rs, snd res = Return rs ->
     exists w3 db db' fd,
       fs w3 !! d = Some (NDatabase db) /\
       engine_execute E query (fs w3) db = (db', inr rs) /\
       evs = [EvMkdir (parent d) true; EvOpen lf (Some fd); EvFlock fd LOCK_EX true;
              EvConnect (path_str d) true; EvExecute query true; EvFetchall;
              EvConnClose; EvFlock fd LOCK_UN true; EvClose fd] /\
       fs (fst res) !! d = Some (NDatabase db') /\
       conns (fst res) !! d = None /\ fds (fst res) !! fd = None /\
       flocks (fst res) !! Path lf = None).
Proof.
  intros d lf res evs. subst evs res lf. rewrite execute_query_as_prog.
  destruct (get_connection _ _ w) as [w' r] eqn:Hrun.
  apply get_connection_exit in Hrun as [path Hspec]. simpl. fold d in Hspec.
  destruct path; simpl in Hspec.
  - destruct Hspec as ((e & -> & _) & Ht & _). rewrite (new_events_app _ _ _ Ht).
    split; [intros ? ? Hin; not_in_list Hin|done].
  - destruct Hspec as ((e & w1 & -> & _) & Ht & _). rewrite (new_events_app _ _ _ Ht).
    split; [intros ? ? Hin; not_in_list Hin|done].
  - destruct Hspec as (-> & _ & Ht & _). rewrite (new_events_app _ _ _ Ht).
    split; [intros ? ? Hin; not_in_list Hin|done].
  - destruct Hspec as (-> & _ & Ht). rewrite (new_events_app _ _ _ Ht).
    split; [intros ? ? Hin; not_in_list Hin|done].
  - destruct Hspec as (-> & _ & Ht & _). rewrite (new_events_app _ _ _ Ht).
    split; [intros ? ? Hin; not_in_list Hin|done].
  - destruct Hspec as (w1 & w3 & w4 & body & db0 & Hfb).
    pose proof (fb_trace_enter Hfb) as Ht3. pose proof (fb_trace_exit Hfb) as Ht'.
    pose proof (fb_run Hfb) as Hbody. fold d in Hbody, Ht3, Ht'.
    assert (Hc3 : conns w3 !! d = Some []) by (rewrite (fb_conns_enter Hfb); apply lookup_insert_eq).
    assert (Hf3 : fs w3 !! d = Some (NDatabase db0)) by (rewrite (fb_fs_enter Hfb); apply lookup_insert_eq).
    destruct (query_body_run d query w3 [] db0 Hc3 Hf3) as (w4' & Hq & Hfs4).
    destruct (engine_execute E query (fs w3) db0) as [db' [e|rs]] eqn:Heng;
      destruct Hq as [Hq Ht4]; rewrite Hq in Hbody; injection Hbody as <- <-;
      rewrite Ht4, Ht3, <- !app_assoc in Ht'; rewrite (new_events_app _ _ _ Ht').
    + split; [|done]. intros sql ok Hin.
      do 4 (apply elem_of_cons in Hin as [Hin|Hin]; [done|]).
      apply elem_of_cons in Hin as [[= -> ->]|Hin]; [done|not_in_list Hin].
    + split.
      * intros sql ok Hin.
        do 4 (apply elem_of_cons in Hin as [Hin|Hin]; [done|]).
        apply elem_of_cons in Hin as [[= -> ->]|Hin]; [done|not_in_list Hin].
      * intros rs' [= <-]. exists w3, db0, db', (next_fd w).
        split; [done|]. split; [done|]. split; [done|].
        rewrite (fb_fs_exit Hfb), Hfs4. simpl. rewrite lookup_insert_eq.
        rewrite (fb_conns_exit Hfb), (fb_fds_exit Hfb), (fb_flocks_exit Hfb).
        rewrite Path_lock_file_path by apply Path_wf.
        rewrite !lookup_delete_eq. repeat split; try done. apply (fb_conn_free Hfb).
Qed.

(** ** The bulk-load statement *)

Lemma strip_prefix_app (pre s : string) : strip_prefix pre (pre +:+ s) = Some s.
Proof.
  induction pre as [|a pre IH]; [done|]. rewrite append_cons. cbn [strip_prefix].
  by rewrite Ascii.eqb_refl.
Qed.

Lemma span_until_app (c : ascii) (a rest : string) :
  no_char c a = true -> span_until c (a +:+ String c rest) = (a, String c rest).
Proof.
  unfold no_char. induction a as [|x a IH].
  - intros _. change ("" +:+ String c rest) with (String c rest). cbn [span_until].
    by rewrite Ascii.eqb_refl.
  - cbn [all_chars]. intros [Hx Ha]%andb_true_iff. apply negb_true_iff in Hx.
    rewrite append_cons. cbn [span_until]. rewrite Hx. by rewrite (IH Ha).
Qed.

Lemma valid_identifier_no_blank (t : string) :
  valid_identifier t = true -> no_char " " t = true.
Proof.
  assert (Hchar : forall c, is_alpha c || is_digit c = true -> negb (Ascii.eqb c " ") = true).
  { intros c Hc. destruct (Ascii.eqb_spec c " ") as [->|]; [|done]. by vm_compute in Hc. }
  unfold valid_identifier, no_char. destruct t as [|c t]; [done|].
  intros [Hc Ht]%andb_true_iff. simpl. rewrite Hchar by (by rewrite Hc). simpl.
  induction t as [|x t IH]; [done|]. simpl in *.
  apply andb_true_iff in Ht as [Hx Ht]. rewrite (Hchar _ Hx). simpl. by apply IH.
Qed.

(** The engine reads the statement of [read_csv_to_table] back as the
    table name and the file name it was built from. *)
Lemma parse_load_statement (table_name csv_path : string) :
  no_char " " table_name = true -> no_char "'" csv_path = true ->
  parse_load (load_statement table_name csv_path) = Some (table_name, csv_path).
Proof.
  intros Ht Hp. unfold parse_load, load_statement.
  rewrite strip_prefix_app.
  assert (Hmid : forall rest, exists m, load_middle +:+ rest = String " " m)
    by (intros rest; eexists; reflexivity).
  assert (Hsuf : exists m, load_suffix = String "'" m) by (eexists; reflexivity).
  destruct (Hmid (csv_path +:+ load_suffix)) as [m Hm].
  rewrite Hm, span_until_app, <- Hm by done.
  rewrite strip_prefix_app.
  destruct Hsuf as [m' Hm'].
  rewrite Hm', span_until_app, <- Hm' by done.
  by rewrite String.eqb_refl.
Qed.

Lemma engine_execute_load (table_name csv_path : string) (files : gmap PurePath node)
    (db : database) :
  valid_identifier table_name = true -> no_char "'" csv_path = true ->
  engine_execute E (load_statement table_name csv_path) files db =
  match files !! Path csv_path with
  | Some (NFile data) =>
      match read_csv_auto E data with
      | Some tbl => (<[table_name := tbl]> db, inr [[VInt (Z.of_nat (length (rows tbl)))]])
      | None => (db, inl (DuckDBError InvalidInputException))
      end
  | Some _ => (db, inl (DuckDBError InvalidInputException))
  | None => (db, inl (DuckDBError IOException_no_files))
  end.
Proof.
  intros Ht Hp. unfold engine_execute.
  rewrite parse_load_statement by (try done; by apply valid_identifier_no_blank).
  by rewrite Ht.
Qed.

(** The body of [read_csv_to_table], on an open connection. *)
Lemma load_body_run (c : PurePath) (stmt : string) (w3 : World) (rs0 : list row)
    (db : database) :
  conns w3 !! c = Some rs0 -> fs w3 !! c = Some (NDatabase db) ->
  exists w4,
    run_prog E (PExecute stmt (PCommit (PReturn tt))) c w3 =
      (w4, match snd (engine_execute E stmt (fs w3) db) with
           | inr _ => Return tt
           | inl e => Raise e
           end) /\
    fs w4 = <[c := NDatabase (fst (engine_execute E stmt (fs w3) db))]> (fs w3).
Proof.
  intros Hc Hf. simpl. unfold bind, conn_execute. rewrite Hc, Hf.
  destruct (engine_execute E stmt (fs w3) db) as [db' [e|rs]].
  - eexists. split; [reflexivity|done].
  - unfold conn_commit. wsimpl. rewrite lookup_insert_eq.
    eexists. split; [reflexivity|done].
Qed.

Lemma from_body_depth {A} (database_path : string) (b : prog A) (w w' : World)
    (r : outcome A) (w1 w3 w4 : World) (evs : list event) (db0 : database) :
  from_body E database_path b w w' r w1 w3 w4 evs db0 ->
  length (parts (parent (Path database_path))) < length (parts (Path database_path)).
Proof.
  intros Hfb. set (d := Path database_path).
  destruct (decide (parts d = [])) as [Hnil|Hne].
  - exfalso. pose proof (fb_parent Hfb) as Hdir. pose proof (fb_db_enter Hfb) as Hdb.
    fold d in Hdir, Hdb. destruct d as [rt l]. simpl in Hnil. subst l.
    change (parent (mkPath rt [])) with (mkPath rt []) in Hdir. unfold is_dir in Hdir.
    destruct Hdb as [Hdb|[Hdb _]]; by rewrite Hdb in Hdir.
  - destruct (path_snoc d Hne) as (l & x & ->). rewrite parent_snoc. simpl.
    rewrite length_app. simpl. lia.
Qed.

(** The catalog the body is handed is the one the call found. *)
Lemma from_body_catalog {A} (database_path : string) (b : prog A) (w w' : World)
    (r : outcome A) (w1 w3 w4 : World) (evs : list event) (db0 : database) :
  from_body E database_path b w w' r w1 w3 w4 evs db0 ->
  catalog w (Path database_path) = db0.
Proof.
  intros Hfb. pose proof (from_body_depth _ _ _ _ _ _ _ _ _ _ Hfb) as Hdepth.
  pose proof (only_adds_dirs_deeper _ _ _ _ (fb_dirs Hfb) Hdepth) as Hfs.
  unfold catalog. rewrite <- Hfs.
  destruct (fb_db_enter Hfb) as [->|[-> ->]]; done.
Qed.

(** C4. Loading a file that does not exist fails with a [LoadError], and
    the call leaves the catalog of the database as it found it: a table
    that was not there is still not there, a table that was there is
    unchanged. *)
Theorem read_csv_to_table_missing_file (database_path csv_path table_name : string)
    (w : World) :
  let d := Path database_path in
  let res := read_csv_to_table E database_path csv_path table_name w in
  valid_identifier table_name = true -> no_char "'" csv_path = true ->
  dir_available (parent d) w = true -> unobstructed d w = true ->
  fs w !! Path csv_path = None -> Path csv_path ≠ Path (lock_file_path d) ->
  (exists e, snd res = Raise e /\ classify e = LoadError) /\
  catalog (fst res) d = catalog w d /\
  catalog (fst res) d !! table_name = catalog w d !! table_name.
Proof.
  intros d res Hvalid Hquote Hda Hun Hmissing HneL. subst res.
  rewrite Path_lock_file_path in HneL by apply Path_wf.
  rewrite read_csv_to_table_as_prog.
  destruct (get_connection _ _ w) as [w' r] eqn:Hrun.
  apply get_connection_enters in Hrun as (w1 & w3 & w4 & body & db0 & Hfb); [|done|done].
  simpl. fold d in Hfb.
  pose proof (from_body_catalog _ _ _ _ _ _ _ _ _ _ Hfb) as Hcat. fold d in Hcat.
  pose proof (fb_fs_enter Hfb) as Hfs3. pose proof (fb_run Hfb) as Hbody.
  fold d in Hfs3, Hbody.
  assert (Hc3 : conns w3 !! d = Some []) by (rewrite (fb_conns_enter Hfb); apply lookup_insert_eq).
  assert (Hf3 : fs w3 !! d = Some (NDatabase db0)) by (rewrite Hfs3; apply lookup_insert_eq).
  assert (Hcsv : fs w3 !! Path csv_path = None \/
                 (exists n, fs w3 !! Path csv_path = Some n /\ forall data, n ≠ NFile data)).
  { rewrite Hfs3. destruct (decide (d = Path csv_path)) as [<-|Hned].
    - right. rewrite lookup_insert_eq. eexists. split; [done|]. done.
    - rewrite lookup_insert_ne by done. rewrite lookup_insert_ne by done.
      destruct (fs w1 !! Path csv_path) as [n|] eqn:H1; [|by left].
      right. exists n. split; [done|].
      destruct (fb_dirs Hfb) as (_ & _ & _ & Hnew).
      destruct (Hnew (Path csv_path)) as (_ & Hn & _); [congruence|].
      rewrite H1 in Hn. injection Hn as ->. done. }
  destruct (load_body_run d (load_statement table_name csv_path) w3 [] db0 Hc3 Hf3)
    as (w4' & Hload & Hfs4).
  destruct (engine_execute E (load_statement table_name csv_path) (fs w3) db0)
    as [db' res'] eqn:Heng.
  rewrite engine_execute_load in Heng by done.
  assert (Hfail : db' = db0 /\ exists e, res' = inl e /\ classify e = LoadError).
  { destruct Hcsv as [Hcsv|(n & Hcsv & Hn)]; rewrite Hcsv in Heng.
    - injection Heng as <- <-. eauto.
    - destruct n as [|data|]; [|by destruct (Hn data)|]; injection Heng as <- <-; eauto. }
  destruct Hfail as (-> & e & -> & Hclass). cbn [fst snd] in Hload, Hfs4.
  rewrite Hload in Hbody. injection Hbody as <- <-.
  split; [eauto|].
  assert (Hfinal : catalog w' d = catalog w d).
  { unfold catalog at 1. rewrite (fb_fs_exit Hfb), Hfs4, lookup_insert_eq. done. }
  split; [done|]. by rewrite Hfinal.
Qed.

(** After a call that reached the body and left a database behind,
    nothing stands in the way of the next call. *)
Lemma from_body_leaves_clear {A} (database_path : string) (b : prog A) (w w' : World)
    (r : outcome A) (w1 w3 w4 : World) (evs : list event) (db0 db' : database) :
  from_body E database_path b w w' r w1 w3 w4 evs db0 ->
  fs w4 !! Path database_path = Some (NDatabase db') ->
  is_dir (parent (Path database_path)) w' = true /\
  unobstructed (Path database_path) w' = true.
Proof.
  intros Hfb Hdb. set (d := Path database_path) in *.
  pose proof (from_body_depth _ _ _ _ _ _ _ _ _ _ Hfb) as Hdepth. fold d in Hdepth.
  destruct (fb_frame Hfb) as (_ & _ & _ & _ & _ & Hffs & _). fold d in Hffs.
  pose proof (fb_fs_enter Hfb) as Hfs3. fold d in Hfs3.
  pose proof (lock_of_depth d) as HdepthL.
  assert (HneL : lock_of d ≠ d) by apply lock_of_ne.
  assert (Hother : forall q, q ≠ d -> q ≠ lock_of d -> fs w' !! q = fs w1 !! q).
  { intros q Hq HqL. rewrite (fb_fs_exit Hfb), Hffs, Hfs3 by done.
    by rewrite !lookup_insert_ne. }
  assert (HL : fs w' !! lock_of d = Some (NFile "")).
  { rewrite (fb_fs_exit Hfb), Hffs, Hfs3 by done.
    rewrite lookup_insert_ne by done. by rewrite lookup_insert_eq. }
  destruct (fb_config_exit Hfb) as [Hro Hlt].
  split.
  - unfold is_dir. rewrite Hother.
    + apply (fb_parent Hfb).
    + intros Heq. apply (f_equal (fun q => length (parts q))) in Heq. lia.
    + intros Heq. apply (f_equal (fun q => length (parts q))) in Heq. lia.
  - unfold unobstructed. cbv zeta. rewrite HL, (fb_fs_exit Hfb), Hdb.
    rewrite !(may_write_readonly _ w w') by done. subst d.
    rewrite (fb_lock_writable Hfb), (fb_db_writable Hfb), Hlt, (fb_not_full Hfb).
    rewrite (fb_flocks_exit Hfb), lookup_delete_eq.
    rewrite (fb_conns_exit Hfb), (fb_conn_free Hfb). done.
Qed.

(** C3. Loading the same file into the same table a second time succeeds
    like the first time and leaves the catalog as the first load left it:
    the table holds the parsed file, with the same rows and columns, once,
    because the statement replaces the table. *)
Theorem read_csv_to_table_idempotent (database_path csv_path table_name : string)
    (w : World) :
  let d := Path database_path in
  let once := read_csv_to_table E database_path csv_path table_name w in
  let twice := read_csv_to_table E database_path csv_path table_name (fst once) in
  valid_identifier table_name = true -> no_char "'" csv_path = true ->
  snd once = Return tt ->
  snd twice = Return tt /\
  catalog (fst twice) d = catalog (fst once) d /\
  exists data tbl,
    fs (fst once) !! Path csv_path = Some (NFile data) /\
    read_csv_auto E data = Some tbl /\
    catalog (fst once) d !! table_name = Some tbl /\
    catalog (fst twice) d !! table_name = Some tbl.
Proof.
  intros d once twice Hvalid Hquote Hret. subst twice once.
  rewrite !read_csv_to_table_as_prog in *.
  set (stmt := load_statement table_name csv_path) in *.
  destruct (get_connection _ _ w) as [w' r] eqn:Hrun. simpl in Hret. subst r.
  pose proof Hrun as [path Hspec]%get_connection_exit.
  destruct path; simpl in Hspec;
    try (by destruct Hspec as ((? & ? & _) & _));
    try (by destruct Hspec as ((? & ? & ? & _) & _));
    try (by destruct Hspec as (? & _)).
  destruct Hspec as (w1 & w3 & w4 & body & db0 & Hfb). fold d in Hfb.
  (* the first load *)
  pose proof (fb_fs_enter Hfb) as Hfs3. pose proof (fb_run Hfb) as Hbody.
  fold d in Hfs3, Hbody.
  assert (Hc3 : conns w3 !! d = Some []) by (rewrite (fb_conns_enter Hfb); apply lookup_insert_eq).
  assert (Hf3 : fs w3 !! d = Some (NDatabase db0)) by (rewrite Hfs3; apply lookup_insert_eq).
  destruct (load_body_run d stmt w3 [] db0 Hc3 Hf3) as (w4' & Hload & Hfs4).
  rewrite Hload in Hbody. injection Hbody as <- Hres.
  destruct (engine_execute E stmt (fs w3) db0) as [db1 res1] eqn:Heng.
  unfold stmt in Heng. rewrite engine_execute_load in Heng by done.
  cbn [fst snd] in Hres, Hfs4.
  destruct res1 as [e|rs1]; [done|]. clear Hres.
  destruct (fs w3 !! Path csv_path) as [[|data|]|] eqn:Hcsv; try done.
  destruct (read_csv_auto E data) as [tbl|] eqn:Hparse; [|done].
  injection Heng as <- <-.
  assert (Hned : d ≠ Path csv_path) by (intros Heq; rewrite <- Heq in Hcsv; congruence).
  assert (Hfs' : fs w' = <[d := NDatabase (<[table_name := tbl]> db0)]> (fs w3))
    by (by rewrite (fb_fs_exit Hfb)).
  assert (Hcsv' : fs w' !! Path csv_path = Some (NFile data))
    by (by rewrite Hfs', lookup_insert_ne).
  assert (Hd' : fs w' !! d = Some (NDatabase (<[table_name := tbl]> db0)))
    by (by rewrite Hfs', lookup_insert_eq).
  (* the second load *)
  destruct (from_body_leaves_clear _ _ _ _ _ _ _ _ _ _ (<[table_name := tbl]> db0) Hfb)
    as [Hdir' Hun'].
  { fold d. rewrite Hfs4. apply lookup_insert_eq. }
  fold d in Hdir', Hun'. cbn [fst].
  destruct (get_connection _ _ w') as [w'' r2] eqn:Hrun2.
  apply get_connection_enters in Hrun2 as (v1 & v3 & v4 & body2 & db2 & Hfb2);
    [|by unfold dir_available; fold d; rewrite Hdir'|done].
  fold d in Hfb2. cbn [fst snd].
  assert (Hv1 : fs v1 = fs w').
  { rewrite (fb_mkdir Hfb2). fold d. unfold mkdir.
    by rewrite mkdir_parents_existing. }
  assert (Hdb2 : db2 = <[table_name := tbl]> db0).
  { destruct (fb_db_enter Hfb2) as [Hdb|[Hdb _]]; fold d in Hdb; rewrite Hv1, Hd' in Hdb;
      congruence. }
  subst db2.
  assert (HL' : fs w' !! lock_of d = Some (NFile "")).
  { rewrite Hfs', lookup_insert_ne by (intros Heq; symmetry in Heq; by apply lock_of_ne in Heq).
    rewrite Hfs3, lookup_insert_ne by (intros Heq; symmetry in Heq; by apply lock_of_ne in Heq).
    apply lookup_insert_eq. }
  assert (Hv3 : fs v3 = fs w').
  { rewrite (fb_fs_enter Hfb2). fold d. rewrite Hv1.
    rewrite (insert_id (fs w') (lock_of d)) by done. by rewrite insert_id. }
  pose proof (fb_run Hfb2) as Hbody2. fold d in Hbody2.
  assert (Hc3' : conns v3 !! d = Some [])
    by (rewrite (fb_conns_enter Hfb2); apply lookup_insert_eq).
  assert (Hf3' : fs v3 !! d = Some (NDatabase (<[table_name := tbl]> db0)))
    by (by rewrite Hv3).
  destruct (load_body_run d stmt v3 [] _ Hc3' Hf3') as (v4' & Hload2 & Hfs42).
  rewrite Hload2 in Hbody2. injection Hbody2 as <- <-.
  unfold stmt in Hfs42 |- *. rewrite engine_execute_load in Hfs42 |- * by done.
  rewrite Hv3, Hcsv', Hparse in Hfs42 |- *. cbn [fst snd] in Hfs42 |- *.
  rewrite insert_insert_eq in Hfs42.
  assert (Hcat : catalog w'' d = catalog w' d).
  { unfold catalog. rewrite (fb_fs_exit Hfb2), Hfs42, lookup_insert_eq, Hd'. done. }
  split; [done|]. split; [done|]. exists data, tbl.
  split; [done|]. split; [done|]. rewrite Hcat. unfold catalog. rewrite Hd'.
  split; apply lookup_insert_eq.
Qed.

End Properties.

(** * The resource under its callers, the sensors and the sample data *)

(** ** Scoped connections around any body *)

Section Scopes.

Lemma depth_below_parent (d : PurePath) :
  parts d ≠ [] -> length (parts (parent d)) < length (parts d).
Proof.
  intros Hparts. destruct (path_snoc d Hparts) as (l & x & ->). rewrite parent_snoc. simpl.
  rewrite length_app. simpl. lia.
Qed.

Lemma catalog_only_adds_dirs (k : nat) (w w1 : World) (d : PurePath) :
  only_adds_dirs k w w1 -> catalog w1 d = catalog w d.
Proof.
  intros (_ & _ & Hsub & Hnew). unfold catalog.
  destruct (fs w !! d) as [n|] eqn:H0.
  - by rewrite (lookup_weaken _ _ _ _ H0 Hsub).
  - destruct (fs w1 !! d) as [m|] eqn:H1; [|done].
    destruct (Hnew d) as (_ & Hm & _); [congruence|]. rewrite H1 in Hm. by injection Hm as ->.
Qed.

Lemma flock_next_fd (fd : nat) (op : flock_op) (w w' : World) (r : outcome unit) :
  flock fd op w = (w', r) -> next_fd w' = next_fd w.
Proof.
  unfold flock. destruct (fds w !! fd); [|by intros [= <- <-]].
  destruct op.
  - destruct (lock_table_full w); [by intros [= <- <-]|].
    destruct (flocks w !! p) as [h|]; [|by intros [= <- <-]].
    destruct (decide (h = fd)); by intros [= <- <-].
  - destruct (flocks w !! p) as [h|]; [|by intros [= <- <-]].
    destruct (decide (h = fd)); by intros [= <- <-].
Qed.

Lemma duckdb_connect_next_fd (s : string) (w w' : World) (r : outcome PurePath) :
  duckdb_connect s w = (w', r) -> next_fd w' = next_fd w.
Proof.
  unfold duckdb_connect. cbv zeta.
  destruct (conns w !! Path s); [by intros [= <- <-]|].
  destruct (fs w !! Path s) as [[| |db]|]; try by intros [= <- <-].
  - destruct (may_write (Path s) w); by intros [= <- <-].
  - destruct (fs w !! parent (Path s)) as [[| |]|]; try by intros [= <- <-].
    destruct (may_create (Path s) w); by intros [= <- <-].
Qed.

(** With nothing in the way, [get_connection] runs its body between the
    two [finally] blocks, in a world where the lock is held and the
    connection open. *)
Lemma get_connection_acquires {A} (database_path : string) (body : PurePath -> M A)
    (w : World) :
  dir_available (parent (Path database_path)) w = true ->
  unobstructed (Path database_path) w = true ->
  exists w3, entered database_path w w3 /\
    get_connection database_path body w =
    scoped (next_fd w) (Path database_path) (body (Path database_path)) w3.
Proof.
  intros Hda Hun.
  pose proof (database_not_anchor _ _ Hda Hun) as Hparts.
  pose proof (Path_wf database_path) as Hwf.
  pose proof (unobstructed_inv _ _ Hun)
    as (HL & HmwpL & HmwL & Hmwd & Hfull & Hfree & Hdb & Hco).
  unfold get_connection, scoped.
  set (d := Path database_path) in *.
  pose proof (depth_below_parent d Hparts) as Hdepth.
  pose proof (lock_of_depth d) as HdepthL.
  pose proof (lock_of_ne d) as Hne.
  pose proof (Path_lock_file_path d Hwf) as HPL.
  pose proof (Path_path_str d Hwf) as HPd.
  (* mkdir *)
  unfold bind at 1.
  destruct (mkdir (parent d) w) as [w1 r1] eqn:Hmk.
  pose proof (mkdir_ok _ _ Hda) as Hr1. rewrite Hmk in Hr1. simpl in Hr1. subst r1.
  destruct (mkdir_spec _ _ _ _ Hmk) as (Hoad & Hh & [([? ?] & _)|(_ & Ht1 & Hdir1)]); [done|].
  destruct Hh as (Hfds1 & Hfl1 & Hco1 & Hnf1 & Hro1 & Hlt1).
  change (fs (set_fs (fs w1) w)) with (fs w1) in *.
  assert (HfsL : fs w1 !! lock_of d = fs w !! lock_of d).
  { apply (only_adds_dirs_deeper _ _ (set_fs (fs w1) w) _ Hoad). exact HdepthL. }
  assert (Hfsd : fs w1 !! d = fs w !! d).
  { apply (only_adds_dirs_deeper _ _ (set_fs (fs w1) w) _ Hoad). exact Hdepth. }
  (* open *)
  unfold bind at 1.
  destruct (open_w (lock_file_path d) w1) as [w2 r2] eqn:Hop.
  assert (Hr2 : r2 = Return (next_fd w1)).
  { change r2 with (snd (w2, r2)). rewrite <- Hop. apply open_w_ok; rewrite HPL.
    - by rewrite HfsL.
    - by rewrite (may_write_readonly _ w w1).
    - rewrite HfsL. intros Hnone. rewrite parent_lock_of.
      rewrite (may_write_readonly _ w w1) by done. auto. }
  subst r2.
  destruct (open_w_spec _ _ _ _ Hop) as (Hfl2 & Hco2 & Hro2 & Hlt2 & Hcase).
  rewrite HPL in Hcase.
  destruct Hcase as [([e ?] & _)|(_ & _ & Hfs2 & Hfds2 & Hnf2 & Ht2)]; [done|].
  (* flock *)
  unfold try_finally at 1. unfold bind at 1. rewrite Hnf1.
  assert (Hfd2 : fds w2 !! next_fd w = Some (lock_of d))
    by (rewrite Hfds2, Hnf1; apply lookup_insert_eq).
  destruct (flock (next_fd w) LOCK_EX w2) as [wa ra] eqn:Hex.
  destruct (flock_ex_spec _ _ _ _ _ Hfd2 Hex) as (Hfsa & Hfdsa & Hcoa & [Hroa Hlta] & Hcase).
  destruct Hcase as [(_ & Hfull' & _)|[(_ & (h & Hh & _) & _)|(-> & _ & Hfla & Hta)]];
    [congruence|congruence|].
  (* connect *)
  unfold bind at 1.
  destruct (duckdb_connect (path_str d) wa) as [w3 rc] eqn:Hcon.
  assert (Hrc : rc = Return d).
  { change rc with (snd (w3, rc)). rewrite <- Hcon. rewrite <- HPd at 2.
    apply duckdb_connect_ok; rewrite HPd.
    - congruence.
    - rewrite (may_write_readonly _ w wa); [done|congruence].
    - rewrite Hfsa, Hfs2, lookup_insert_ne, Hfsd by done.
      destruct Hdb as [[Hdb Hmwp]|[db Hdb]]; [right|left; eauto].
      split; [done|]. unfold is_dir in *. rewrite Hfsa, Hfs2.
      rewrite lookup_insert_ne.
      + split; [done|]. rewrite (may_write_readonly _ w wa); [done|congruence].
      + intros Heq. apply (f_equal (fun q => length (parts q))) in Heq. lia. }
  subst rc.
  destruct (duckdb_connect_spec _ _ _ _ Hcon) as (Hfds3 & Hfl3 & [Hro3 Hlt3] & Hcase).
  rewrite HPd in Hcase.
  destruct Hcase as [(? & _)|(_ & _ & _ & Hco3 & Ht3 & db0 & Hfs3 & Hdb0)]; [done|].
  exists w3. split; [|reflexivity].
  assert (Hcat : catalog w d = db0).
  { unfold catalog. rewrite <- Hfsd.
    rewrite Hfsa, Hfs2, lookup_insert_ne in Hdb0 by done.
    destruct Hdb0 as [->|[-> ->]]; done. }
  constructor; [unfold body_view|..]; fold d.
  - rewrite Hmk. simpl. rewrite Hcat, Hfs3, Hfsa, Hfs2. done.
  - unfold is_dir in *. rewrite Hfs3, Hfsa, Hfs2.
    rewrite !lookup_insert_ne; [done| |];
      intros Heq; apply (f_equal (fun q => length (parts q))) in Heq; lia.
  - by rewrite Hco3, Hcoa, Hco2, Hco1.
  - by rewrite Hfl3, Hfla, Hfl2, Hfl1.
  - by rewrite Hfds3, Hfdsa, Hfds2, Hfds1, Hnf1.
  - rewrite (duckdb_connect_next_fd _ _ _ _ Hcon), (flock_next_fd _ _ _ _ _ Hex), Hnf2. by rewrite Hnf1.
  - split; congruence.
  - rewrite Ht3, Hta, Ht2, Ht1, <- !app_assoc. rewrite Hnf1. done.
Qed.

(** Leaving the two [finally] blocks: the connection is closed, the lock
    released, the descriptor closed, and the body's outcome is the call's. *)
Lemma scoped_exit {A} (body : M A) (d L : PurePath) (fd : nat) (w3 w4 : World)
    (r : outcome A) :
  body w3 = (w4, r) -> r ≠ Blocked -> fds w4 !! fd = Some L ->
  exists w', scoped fd d body w3 = (w', r) /\
    fs w' = fs w4 /\
    trace w' = trace w4 ++ [EvConnClose; EvFlock fd LOCK_UN true; EvClose fd] /\
    fds w' = delete fd (fds w4) /\
    flocks w' = (if decide (flocks w4 !! L = Some fd) then delete L (flocks w4)
                 else flocks w4) /\
    conns w' = delete d (conns w4) /\ same_config w4 w' /\ next_fd w' = next_fd w4.
Proof.
  intros Hbody Hnb Hfd. unfold scoped, try_finally at 1 2. rewrite Hbody.
  unfold conn_close.
  set (w5 := emit EvConnClose (set_conns (delete d (conns w4)) w4)).
  destruct (release_spec fd L w5) as (w' & Hrel & Ht & Hfds & Hfl & Hco & Hfs & Hro & Hlt);
    [done|].
  assert (Hnf : next_fd w' = next_fd w4).
  { revert Hrel. unfold bind. destruct (flock fd LOCK_UN w5) as [wa ra] eqn:Hun.
    apply flock_next_fd in Hun. destruct ra as [[]|e|]; try done.
    unfold file_close. destruct (fds wa !! fd); intros [= <-]; wsimpl; congruence. }
  exists w'. split.
  { destruct r; [| |done]; by rewrite Hrel. }
  subst w5. wsimpl. rewrite <- app_assoc in Ht. split; [done|]. split; [done|].
  split; [done|]. split; [done|]. split; [done|]. split; [by split|done].
Qed.

Lemma scoped_blocked {A} (body : M A) (d : PurePath) (fd : nat) (w3 w4 : World) :
  body w3 = (w4, Blocked) -> scoped fd d body w3 = (w4, Blocked).
Proof. intros Hbody. unfold scoped, try_finally. by rewrite Hbody. Qed.

(** A call that finds the lock held through another descriptor waits,
    whatever its body. *)
Lemma get_connection_waits {A} (database_path : string) (body : PurePath -> M A)
    (w : World) (h : nat) (data : string) :
  is_dir (parent (Path database_path)) w = true ->
  fs w !! lock_of (Path database_path) = Some (NFile data) ->
  may_write (lock_of (Path database_path)) w = true ->
  lock_table_full w = false ->
  flocks w !! lock_of (Path database_path) = Some h -> h ≠ next_fd w ->
  exists w', get_connection database_path body w = (w', Blocked) /\
    trace w' = trace w ++
      [EvMkdir (parent (Path database_path)) true;
       EvOpen (lock_file_path (Path database_path)) (Some (next_fd w));
       EvFlockWait (next_fd w)].
Proof.
  intros Hdir HL Hmw Hfull Hheld Hh.
  pose proof (Path_lock_file_path _ (Path_wf database_path)) as HPL.
  unfold get_connection. set (d := Path database_path) in *.
  unfold bind at 1. unfold mkdir. rewrite mkdir_parents_existing by done.
  unfold bind at 1. unfold open_w. cbv zeta. rewrite HPL.
  unfold may_write in *. wsimpl. rewrite HL, Hmw.
  unfold try_finally, bind, flock. wsimpl. rewrite lookup_insert_eq, Hfull, Hheld.
  rewrite decide_False by done. eexists. split; [reflexivity|].
  wsimpl. by rewrite <- !app_assoc.
Qed.

(** Every scoped connection either reaches its body, in a world where the
    lock is held and the connection open, or ends before the body without
    having touched any table. *)
Lemma get_connection_cases {A} (database_path : string) (body : PurePath -> M A)
    (w w' : World) (r : outcome A) :
  get_connection database_path body w = (w', r) ->
  (exists w3, entered database_path w w3 /\
     scoped (next_fd w) (Path database_path) (body (Path database_path)) w3 = (w', r)) \/
  ((forall a, r ≠ Return a) /\
   catalog w' (Path database_path) = catalog w (Path database_path) /\
   forallb (fun e => negb (engine_event e)) (new_events w w') = true /\
   conns w' = conns w).
Proof.
  pose proof (Path_wf database_path) as Hwf.
  unfold get_connection, scoped.
  set (d := Path database_path) in *.
  pose proof (lock_of_depth d) as HdepthL.
  pose proof (lock_of_ne d) as Hne.
  pose proof (Path_lock_file_path d Hwf) as HPL.
  pose proof (Path_path_str d Hwf) as HPd.
  (* mkdir *)
  unfold bind at 1.
  destruct (mkdir (parent d) w) as [w1 r1] eqn:Hmk.
  destruct (mkdir_spec _ _ _ _ Hmk) as (Hoad & Hh & Hcase).
  destruct Hh as (Hfds1 & Hfl1 & Hco1 & Hnf1 & Hro1 & Hlt1).
  pose proof (catalog_only_adds_dirs _ _ _ d Hoad) as Hcat1.
  change (catalog (set_fs (fs w1) w) d) with (catalog w1 d) in Hcat1.
  change (fs (set_fs (fs w1) w)) with (fs w1) in *.
  destruct Hcase as [([e ->] & Ht1)|(-> & Ht1 & Hdir1)].
  { intros [= <- <-]. right. split; [done|]. split; [done|].
    split; [by rewrite (new_events_app _ _ _ Ht1)|done]. }
  (* open *)
  unfold bind at 1.
  destruct (open_w (lock_file_path d) w1) as [w2 r2] eqn:Hop.
  destruct (open_w_spec _ _ _ _ Hop) as (Hfl2 & Hco2 & Hro2 & Hlt2 & Hcase).
  rewrite HPL in Hcase.
  destruct Hcase as [([e ->] & Hfs2 & Hfds2 & Hnf2 & Ht2)
                    |(-> & Hmw & Hfs2 & Hfds2 & Hnf2 & Ht2)].
  { intros [= <- <-]. right. split; [done|].
    split; [unfold catalog in *; by rewrite Hfs2|].
    rewrite Ht1, <- app_assoc in Ht2.
    split; [by rewrite (new_events_app _ _ _ Ht2)|congruence]. }
  assert (Hcat2 : catalog w2 d = catalog w d).
  { unfold catalog in *. by rewrite Hfs2, lookup_insert_ne. }
  rewrite Ht1, <- app_assoc in Ht2.
  (* flock *)
  unfold try_finally at 1. unfold bind at 1. rewrite Hnf1.
  assert (Hfd2 : fds w2 !! next_fd w = Some (lock_of d))
    by (rewrite Hfds2, Hnf1; apply lookup_insert_eq).
  destruct (flock (next_fd w) LOCK_EX w2) as [wa ra] eqn:Hex.
  destruct (flock_ex_spec _ _ _ _ _ Hfd2 Hex) as (Hfsa & Hfdsa & Hcoa & [Hroa Hlta] & Hcase).
  assert (Hfda : fds wa !! next_fd w = Some (lock_of d)) by (by rewrite Hfdsa).
  destruct Hcase as [(-> & _ & _ & Hta)|[(-> & _ & Hta)|(-> & Hfull & Hfla & Hta)]].
  { destruct (release_spec _ _ wa Hfda) as (wf & -> & Htf & _ & _ & Hcof & Hfsf & _).
    intros [= <- <-]. right. split; [done|].
    split; [unfold catalog in *; by rewrite Hfsf, Hfsa|].
    rewrite Hta, Ht2, <- !app_assoc in Htf.
    split; [by rewrite (new_events_app _ _ _ Htf)|congruence]. }
  { intros [= <- <-]. right. split; [done|].
    split; [unfold catalog in *; by rewrite Hfsa|].
    rewrite Ht2, <- !app_assoc in Hta.
    split; [by rewrite (new_events_app _ _ _ Hta)|congruence]. }
  (* connect *)
  unfold bind at 1.
  destruct (duckdb_connect (path_str d) wa) as [w3 rc] eqn:Hcon.
  destruct (duckdb_connect_spec _ _ _ _ Hcon) as (Hfds3 & Hfl3 & [Hro3 Hlt3] & Hcase).
  rewrite HPd in Hcase.
  destruct Hcase as [(-> & Hfs3 & Hco3 & Ht3)|(-> & _ & _ & Hco3 & Ht3 & db0 & Hfs3 & Hdb0)].
  { assert (Hfd3 : fds w3 !! next_fd w = Some (lock_of d)) by (by rewrite Hfds3).
    destruct (release_spec _ _ w3 Hfd3) as (wf & -> & Htf & _ & _ & Hcof & Hfsf & _).
    intros [= <- <-]. right. split; [done|].
    split; [unfold catalog in *; by rewrite Hfsf, Hfs3, Hfsa|].
    rewrite Ht3, Hta, Ht2, <- !app_assoc in Htf.
    split; [by rewrite (new_events_app _ _ _ Htf)|congruence]. }
  intros Hrun. left. exists w3. split; [|exact Hrun].
  rewrite Hfsa, Hfs2, lookup_insert_ne in Hdb0 by done.
  assert (Hparts : parts d ≠ []).
  { intros Hnil. destruct d as [rt l]. simpl in Hnil. subst l.
    change (parent (mkPath rt [])) with (mkPath rt []) in Hdir1. unfold is_dir in Hdir1.
    destruct Hdb0 as [Hdb|[Hdb _]]; by rewrite Hdb in Hdir1. }
  pose proof (depth_below_parent d Hparts) as Hdepth.
  assert (Hcat : catalog w d = db0).
  { rewrite <- Hcat1. unfold catalog. destruct Hdb0 as [->|[-> ->]]; done. }
  constructor; [unfold body_view|..]; fold d.
  - rewrite Hmk. simpl. rewrite Hcat, Hfs3, Hfsa, Hfs2. done.
  - unfold is_dir in *. rewrite Hfs3, Hfsa, Hfs2.
    rewrite !lookup_insert_ne; [done| |];
      intros Heq; apply (f_equal (fun q => length (parts q))) in Heq; lia.
  - by rewrite Hco3, Hcoa, Hco2, Hco1.
  - by rewrite Hfl3, Hfla, Hfl2, Hfl1.
  - by rewrite Hfds3, Hfdsa, Hfds2, Hfds1, Hnf1.
  - rewrite (duckdb_connect_next_fd _ _ _ _ Hcon), (flock_next_fd _ _ _ _ _ Hex), Hnf2.
    by rewrite Hnf1.
  - split; congruence.
  - rewrite Ht3, Hta, Ht2, <- !app_assoc. rewrite Hnf1. done.
Qed.

End Scopes.

(** X1.  A scoped connection opened inside the body of a scoped connection on
    the same database never gets the lock: the inner call opens the lock
    file a second time, and the lock is held through the first
    descriptor. *)
Theorem get_connection_not_reentrant {A} (database_path inner_path : string)
    (body : PurePath -> M A) (w : World) :
  let outer := get_connection database_path
                 (fun _ => get_connection inner_path body) w in
  Path inner_path = Path database_path ->
  dir_available (parent (Path database_path)) w = true ->
  unobstructed (Path database_path) w = true ->
  snd outer = Blocked /\
  new_events w (fst outer) =
    [EvMkdir (parent (Path database_path)) true;
     EvOpen (lock_file_path (Path database_path)) (Some (next_fd w));
     EvFlock (next_fd w) LOCK_EX true;
     EvConnect (path_str (Path database_path)) true;
     EvMkdir (parent (Path database_path)) true;
     EvOpen (lock_file_path (Path database_path)) (Some (S (next_fd w)));
     EvFlockWait (S (next_fd w))].
Proof.
  intros outer Hsame Hda Hun. subst outer.
  destruct (get_connection_acquires database_path
              (fun _ => get_connection inner_path body) w Hda Hun) as (w3 & Hen & ->).
  pose proof (unobstructed_inv _ _ Hun) as (_ & _ & HmwL & _ & Hfull & _).
  destruct (en_config Hen) as [Hro Hlt].
  destruct (get_connection_waits inner_path body w3 (next_fd w) "") as (w4 & Hin & Hevs);
    rewrite ?Hsame.
  - apply (en_parent Hen).
  - rewrite (en_fs Hen). unfold body_view. rewrite lookup_insert_ne.
    + apply lookup_insert_eq.
    + intros Heq. symmetry in Heq. by apply lock_of_ne in Heq.
  - by rewrite (may_write_readonly _ w w3).
  - congruence.
  - rewrite (en_flocks Hen). apply lookup_insert_eq.
  - rewrite (en_next_fd Hen). lia.
  - rewrite (scoped_blocked _ _ _ _ _ Hin). simpl.
    split; [done|]. rewrite Hsame, (en_next_fd Hen) in Hevs.
    apply new_events_app. rewrite Hevs, (en_trace Hen), <- app_assoc. done.
Qed.

(** ** The two operations, again *)

Section ResourceProperties.
Context (E : Engine).



(** X4.  A failed bulk load changes no table: the statement of
    [read_csv_to_table] either binds the table or leaves the catalog as it
    was, and every earlier way out of the call leaves the database file
    alone. *)
Theorem read_csv_to_table_all_or_nothing (database_path csv_path table_name : string)
    (w : World) (e : exn) :
  let d := Path database_path in
  let res := read_csv_to_table E database_path csv_path table_name w in
  valid_identifier table_name = true -> no_char "'" csv_path = true ->
  snd res = Raise e ->
  catalog (fst res) d = catalog w d.
Proof.
  intros d res Hvalid Hquote. subst res. rewrite read_csv_to_table_as_prog.
  set (stmt := load_statement table_name csv_path).
  destruct (get_connection _ _ w) as [w' r] eqn:Hrun. simpl. intros ->.
  apply get_connection_cases in Hrun as [(w3 & Hen & Hrun)|(_ & Hcat & _)]; [|done].
  fold d in Hrun.
  assert (Hc3 : conns w3 !! d = Some []) by (rewrite (en_conns Hen); apply lookup_insert_eq).
  assert (Hf3 : fs w3 !! d = Some (NDatabase (catalog w d)))
    by (rewrite (en_fs Hen); unfold body_view; apply lookup_insert_eq).
  destruct (load_body_run E d stmt w3 [] _ Hc3 Hf3) as (w4 & Hload & Hfs4).
  destruct (run_prog_frame E _ _ _ _ _ Hload) as [Hnb (evs & Hfds4 & _)].
  destruct (scoped_exit _ d (lock_of d) (next_fd w) _ _ _ Hload Hnb)
    as (w'' & Hsc & Hfs' & _).
  { rewrite Hfds4, (en_fds Hen). apply lookup_insert_eq. }
  rewrite Hsc in Hrun. injection Hrun as <- Hr.
  unfold catalog at 1. rewrite Hfs', Hfs4, lookup_insert_eq.
  unfold stmt in Hr |- *. rewrite engine_execute_load in Hr |- * by done.
  destruct (fs w3 !! Path csv_path) as [[|data|]|]; try done.
  destruct (read_csv_auto E data); done.
Qed.

(** What a call of [read_csv_to_table] that finds its file leaves behind. *)
Lemma read_csv_to_table_run (database_path csv_path table_name : string)
    (w : World) (data : string) (tbl : table) :
  let d := Path database_path in
  let res := read_csv_to_table E database_path csv_path table_name w in
  valid_identifier table_name = true -> no_char "'" csv_path = true ->
  dir_available (parent d) w = true -> unobstructed d w = true ->
  fs w !! Path csv_path = Some (NFile data) -> read_csv_auto E data = Some tbl ->
  Path csv_path ≠ lock_of d ->
  snd res = Return tt /\
  fs (fst res) !! d = Some (NDatabase (<[table_name := tbl]> (catalog w d))) /\
  fs (fst res) !! lock_of d = Some (NFile "") /\
  (forall q, q ≠ d -> q ≠ lock_of d -> fs w !! q ≠ None -> fs (fst res) !! q = fs w !! q) /\
  is_dir (parent d) (fst res) = true /\ unobstructed d (fst res) = true.
Proof.
  intros d res Hvalid Hquote Hda Hun Hcsv Hparse HneL. subst res.
  rewrite read_csv_to_table_as_prog.
  set (stmt := load_statement table_name csv_path).
  destruct (get_connection _ _ w) as [w' r] eqn:Hrun.
  apply get_connection_enters in Hrun as (w1 & w3 & w4 & body & db0 & Hfb); [|done|done].
  simpl. fold d in Hfb.
  pose proof (from_body_catalog E _ _ _ _ _ _ _ _ _ _ Hfb) as Hcat. fold d in Hcat.
  pose proof (fb_fs_enter Hfb) as Hfs3. pose proof (fb_run Hfb) as Hbody.
  fold d in Hfs3, Hbody.
  destruct (fb_dirs Hfb) as (_ & _ & Hsub & _).
  assert (Hned : d ≠ Path csv_path).
  { intros Heq. rewrite <- Heq in Hcsv.
    apply unobstructed_inv in Hun as (_ & _ & _ & _ & _ & _ & [[Hdb _]|[db Hdb]] & _);
      congruence. }
  assert (HLd : lock_of d ≠ d) by apply lock_of_ne.
  assert (Hc3 : conns w3 !! d = Some [])
    by (rewrite (fb_conns_enter Hfb); apply lookup_insert_eq).
  assert (Hf3 : fs w3 !! d = Some (NDatabase db0)) by (rewrite Hfs3; apply lookup_insert_eq).
  assert (Hcsv3 : fs w3 !! Path csv_path = Some (NFile data)).
  { rewrite Hfs3, !lookup_insert_ne by done. by eapply lookup_weaken. }
  destruct (load_body_run E d stmt w3 [] db0 Hc3 Hf3) as (w4' & Hload & Hfs4).
  unfold stmt in *. rewrite engine_execute_load in Hload, Hfs4 by done.
  rewrite Hcsv3, Hparse in Hload, Hfs4. cbn [fst snd] in Hload, Hfs4.
  rewrite Hload in Hbody. injection Hbody as <- <-.
  assert (Hd' : fs w' !! d = Some (NDatabase (<[table_name := tbl]> db0))).
  { rewrite (fb_fs_exit Hfb), Hfs4. apply lookup_insert_eq. }
  split; [done|]. split; [by rewrite Hcat|]. split; [|split].
  - rewrite (fb_fs_exit Hfb), Hfs4, lookup_insert_ne, Hfs3, lookup_insert_ne by done.
    apply lookup_insert_eq.
  - intros q Hqd HqL Hq.
    rewrite (fb_fs_exit Hfb), Hfs4, lookup_insert_ne, Hfs3, !lookup_insert_ne by done.
    destruct (fs w !! q) as [n|] eqn:Hq0; [|done]. by eapply lookup_weaken.
  - eapply (from_body_leaves_clear E); [exact Hfb|]. fold d. rewrite Hfs4.
    apply lookup_insert_eq.
Qed.

(** X3.  A successful bulk load binds the table to the parsed file and leaves
    every other table of the database as it was; the file itself is not
    changed. *)
Theorem read_csv_to_table_binds_table (database_path csv_path table_name : string)
    (w : World) (data : string) (tbl : table) :
  let d := Path database_path in
  let res := read_csv_to_table E database_path csv_path table_name w in
  valid_identifier table_name = true -> no_char "'" csv_path = true ->
  dir_available (parent d) w = true -> unobstructed d w = true ->
  fs w !! Path csv_path = Some (NFile data) -> read_csv_auto E data = Some tbl ->
  Path csv_path ≠ Path (lock_file_path d) ->
  snd res = Return tt /\
  catalog (fst res) d = <[table_name := tbl]> (catalog w d) /\
  (forall t, t ≠ table_name -> catalog (fst res) d !! t = catalog w d !! t) /\
  fs (fst res) !! Path csv_path = Some (NFile data).
Proof.
  intros d res Hvalid Hquote Hda Hun Hcsv Hparse HneL. subst res.
  rewrite Path_lock_file_path in HneL by apply Path_wf.
  destruct (read_csv_to_table_run database_path csv_path table_name w data tbl
              Hvalid Hquote Hda Hun Hcsv Hparse HneL) as (Hret & Hd' & _ & Hother & _).
  fold d in Hd', Hother.
  assert (Hcat : catalog (fst (read_csv_to_table E database_path csv_path table_name w)) d
                 = <[table_name := tbl]> (catalog w d)).
  { unfold catalog at 1. by rewrite Hd'. }
  split; [done|]. split; [done|]. split.
  - intros t Ht. rewrite Hcat. by rewrite lookup_insert_ne.
  - rewrite Hother; [done| |done|congruence].
    intros Heq. rewrite Heq in Hcsv.
    apply unobstructed_inv in Hun as (_ & _ & _ & _ & _ & _ & [[Hdb _]|[db Hdb]] & _);
      fold d in Hdb; congruence.
Qed.


End ResourceProperties.

(** ** The assets *)

Lemma of_decimal_decimal (z : Z) : of_decimal (decimal z) = Some z.
Proof.
  unfold of_decimal, decimal. rewrite DecimalString.NilZero.isi.
  - simpl. by rewrite DecimalZ.of_to.
  - destruct z; simpl; try done. intros [= H]. by apply DecimalPos.Unsigned.to_uint_nonnil in H.
  - destruct z; simpl; try done. intros [= H]. by apply DecimalPos.Unsigned.to_uint_nonnil in H.
Qed.

Section AssetProperties.
Context (E : Engine).



(** Two statements in a row on an open connection. *)
Lemma two_statements_run (c : PurePath) (q1 q2 : string) (w3 : World)
    (rs0 rs1 rs2 : list row) (db0 db1 db2 : database) :
  conns w3 !! c = Some rs0 -> fs w3 !! c = Some (NDatabase db0) ->
  engine_execute E q1 (fs w3) db0 = (db1, inr rs1) ->
  engine_execute E q2 (<[c := NDatabase db1]> (fs w3)) db1 = (db2, inr rs2) ->
  exists wa wb,
    conn_execute E c q1 w3 = (wa, Return tt) /\
    conn_execute E c q2 wa = (wb, Return tt) /\
    conns wb !! c = Some rs2 /\
    fs wb = <[c := NDatabase db2]> (fs w3) /\
    fds wb = fds w3 /\ flocks wb = flocks w3.
Proof.
  intros Hc Hf Hq1 Hq2. unfold conn_execute at 1. rewrite Hc, Hf, Hq1.
  eexists _, _. split; [reflexivity|].
  unfold conn_execute. wsimpl. rewrite !lookup_insert_eq, Hq2.
  split; [reflexivity|]. wsimpl. rewrite lookup_insert_eq. by rewrite !insert_insert_eq.
Qed.

(** The exit of a scoped connection whose body ran from [w3] to [wb]. *)
Lemma asset_scope_exit {A} (duckdb : string) (body : M A) (w w3 wb : World)
    (r : outcome A) :
  entered duckdb w w3 -> body w3 = (wb, r) -> r ≠ Blocked ->
  fds wb = fds w3 -> flocks wb = flocks w3 ->
  let res := scoped (next_fd w) (Path duckdb) body w3 in
  snd res = r /\ fs (fst res) = fs wb /\
  conns (fst res) !! Path duckdb = None /\
  flocks (fst res) !! Path (lock_file_path (Path duckdb)) = None.
Proof.
  intros Hen Hbody Hnb Hfds Hfl res. subst res.
  destruct (scoped_exit body (Path duckdb) (lock_of (Path duckdb)) (next_fd w) w3 wb r
              Hbody Hnb) as (w' & -> & Hfs' & _ & _ & Hfl' & Hco' & _).
  { rewrite Hfds, (en_fds Hen). apply lookup_insert_eq. }
  cbn [fst snd]. split; [done|]. split; [done|]. split.
  - rewrite Hco'. apply lookup_delete_eq.
  - rewrite Path_lock_file_path by apply Path_wf. rewrite Hfl', Hfl, (en_flocks Hen).
    rewrite lookup_insert_eq, decide_True by done. apply lookup_delete_eq.
Qed.

(** X7.  When the query for the top customer returns no row, which it does on
    an empty table, [customer_analytics] fails with a [TypeError] on
    [top_customer[0]].  By then the table has been replaced; the
    connection is closed and the lock released all the same. *)
Theorem customer_analytics_fails_on_empty_result (context : AssetExecutionContext)
    (duckdb : string) (w : World) (db1 db2 : database) (rs1 : list row) :
  let d := Path duckdb in
  let files := body_view duckdb w in
  let res := customer_analytics E context duckdb w in
  quiet context ->
  dir_available (parent d) w = true -> unobstructed d w = true ->
  engine_execute E customer_analytics_query files (catalog w d) = (db1, inr rs1) ->
  engine_execute E top_customer_query (<[d := NDatabase db1]> files) db1 = (db2, inr []) ->
  snd res = Raise TypeError /\
  catalog (fst res) d = db2 /\
  conns (fst res) !! d = None /\
  flocks (fst res) !! Path (lock_file_path d) = None.
Proof.
  intros d files res Hquiet Hda Hun Hq1 Hq2. subst res d files.
  destruct (customer_analytics E context duckdb w) as [w' r] eqn:Hres. revert Hres.
  unfold customer_analytics. unfold bind at 1. rewrite Hquiet.
  match goal with |- context [get_connection duckdb ?b w] =>
    destruct (get_connection_acquires duckdb b w Hda Hun) as (w3 & Hen & ->) end.
  assert (Hfs3 : fs w3 = body_view duckdb w) by exact (en_fs Hen).
  assert (Hc3 : conns w3 !! Path duckdb = Some [])
    by (rewrite (en_conns Hen); apply lookup_insert_eq).
  assert (Hf3 : fs w3 !! Path duckdb = Some (NDatabase (catalog w (Path duckdb))))
    by (rewrite Hfs3; apply lookup_insert_eq).
  rewrite <- Hfs3 in Hq1, Hq2.
  destruct (two_statements_run (Path duckdb) _ _ w3 [] rs1 [] _ db1 db2 Hc3 Hf3 Hq1 Hq2)
    as (wa & wb & Hrun1 & Hrun2 & Hcob & Hfsb & Hfdsb & Hflb).
  match goal with |- context [scoped ?fd (Path duckdb) ?b w3] =>
    destruct (asset_scope_exit duckdb b w w3 wb (Raise TypeError) Hen)
      as (Hr & Hfs' & Hco' & Hfl'); [|done|done|done|] end.
  { unfold bind at 1. rewrite Hrun1. unfold bind at 1. rewrite Hrun2.
    unfold bind at 1. unfold conn_fetchone. rewrite Hcob. reflexivity. }
  intros Hres. rewrite Hres in Hr, Hfs', Hco', Hfl'. cbn [fst snd] in *.
  split; [done|]. split; [|done].
  unfold catalog. by rewrite Hfs', Hfsb, lookup_insert_eq.
Qed.

(** X8.  [product_metrics] meets the same empty result with a default row: it
    logs [N/A] and returns. *)
Theorem product_metrics_tolerates_empty_result (context : AssetExecutionContext)
    (duckdb : string) (w : World) (db1 db2 : database) (rs1 : list row) :
  let d := Path duckdb in
  let files := body_view duckdb w in
  let res := product_metrics E context duckdb w in
  quiet context ->
  dir_available (parent d) w = true -> unobstructed d w = true ->
  engine_execute E product_metrics_query files (catalog w d) = (db1, inr rs1) ->
  engine_execute E top_margin_query (<[d := NDatabase db1]> files) db1 = (db2, inr []) ->
  snd res = Return tt /\
  catalog (fst res) d = db2 /\
  conns (fst res) !! d = None /\
  flocks (fst res) !! Path (lock_file_path d) = None.
Proof.
  intros d files res Hquiet Hda Hun Hq1 Hq2. subst res d files.
  destruct (product_metrics E context duckdb w) as [w' r] eqn:Hres. revert Hres.
  unfold product_metrics. unfold bind at 1. rewrite Hquiet.
  match goal with |- context [get_connection duckdb ?b w] =>
    destruct (get_connection_acquires duckdb b w Hda Hun) as (w3 & Hen & ->) end.
  assert (Hfs3 : fs w3 = body_view duckdb w) by exact (en_fs Hen).
  assert (Hc3 : conns w3 !! Path duckdb = Some [])
    by (rewrite (en_conns Hen); apply lookup_insert_eq).
  assert (Hf3 : fs w3 !! Path duckdb = Some (NDatabase (catalog w (Path duckdb))))
    by (rewrite Hfs3; apply lookup_insert_eq).
  rewrite <- Hfs3 in Hq1, Hq2.
  destruct (two_statements_run (Path duckdb) _ _ w3 [] rs1 [] _ db1 db2 Hc3 Hf3 Hq1 Hq2)
    as (wa & wb & Hrun1 & Hrun2 & Hcob & Hfsb & Hfdsb & Hflb).
  match goal with |- context [scoped ?fd (Path duckdb) ?b w3] =>
    destruct (asset_scope_exit duckdb b w w3 wb (Return tt) Hen)
      as (Hr & Hfs' & Hco' & Hfl'); [|done|done|done|] end.
  { unfold bind at 1. rewrite Hrun1. unfold bind at 1. rewrite Hrun2.
    unfold bind at 1. unfold conn_fetchone. rewrite Hcob. cbn [truthy getitem lookup].
    unfold bind at 1. cbn. apply Hquiet. }
  intros Hres. rewrite Hres in Hr, Hfs', Hco', Hfl'. cbn [fst snd] in *.
  split; [done|]. split; [|done].
  unfold catalog. by rewrite Hfs', Hfsb, lookup_insert_eq.
Qed.



End AssetProperties.

(** ** The sensors *)

Section SensorProperties.
Context {F : Floats}.

(** [read_cursor] looks at the cursor only. *)
Lemma read_cursor_ext (c1 c2 : SensorEvaluationContext) :
  cursor c1 = cursor c2 -> read_cursor (F:=F) c1 = read_cursor c2.
Proof. unfold read_cursor. by intros ->. Qed.

(** X9.  [sales_file_sensor] never moves the cursor, so a second evaluation
    over the same files, on the context the first one left, gives the
    same answer as the first: the same run request under the same run
    key, the same skip or the same error. *)
Theorem sales_file_sensor_keeps_cursor (w : World) (st_mtime : PurePath -> float F)
    (context : SensorEvaluationContext) :
  let first := sales_file_sensor w st_mtime context in
  cursor (fst first) = cursor context /\
  snd (sales_file_sensor w st_mtime (fst first)) = snd first.
Proof.
  intros first.
  assert (Hcur : cursor (fst first) = cursor context).
  { subst first. unfold sales_file_sensor.
    destruct (negb _); [done|]. destruct (read_cursor context) as [e|c]; [done|].
    by destruct (num_gt _ c). }
  split; [done|]. subst first. unfold sales_file_sensor in *.
  destruct (negb _); [done|]. rewrite (read_cursor_ext _ _ Hcur).
  destruct (read_cursor context) as [e|c]; [done|]. by destruct (num_gt _ c).
Qed.

(** X10.  A cursor that [float] cannot read stops both sensors with a
    [ValueError] before they touch the context; only the sales sensor
    still answers when its file is missing, because it looks at the file
    first. *)
Theorem sensors_reject_unreadable_cursor (w : World) (st_mtime : PurePath -> float F)
    (context : SensorEvaluationContext) (s : string) :
  cursor context = Some s -> s ≠ "" -> float_of_str F s = None ->
  multi_file_sensor w st_mtime context = (context, inl ValueError) /\
  sales_file_sensor w st_mtime context =
    (context, if path_exists (Path "data/raw/sales.csv") w then inl ValueError
              else inr (SkipReason "Sales file does not exist")).
Proof.
  intros Hc Hs Hbad.
  assert (Hread : read_cursor (F:=F) context = inl ValueError).
  { unfold read_cursor. rewrite Hc. rewrite (proj2 (String.eqb_neq s "")) by done.
    by rewrite Hbad. }
  split.
  - unfold multi_file_sensor. destruct (foldl _ _ _). by rewrite Hread.
  - unfold sales_file_sensor. rewrite Hread. by destruct (path_exists _ w).
Qed.

Lemma num_gt_val (a b : number F) :
  (forall x, float_gt F x x = false) ->
  num_gt a b = float_gt F (num_val a) (num_val b).
Proof. intros Hirr. destruct a, b; simpl; by rewrite ?Hirr. Qed.

(** What the loop of [multi_file_sensor] keeps: no file seen so far is
    newer than [latest_modified], which is the int [0] or the time of a
    file seen. *)
Lemma scan_files_latest (w : World) (st_mtime : PurePath -> float F)
    (files : list PurePath) (st : number F * list string) (seen : list PurePath) :
  (forall x, float_gt F x x = false) ->
  (forall x y z, float_gt F x y = true -> float_gt F y z = true -> float_gt F x z = true) ->
  (forall f, f ∈ seen -> path_exists f w = true ->
     num_gt (PyFloat (st_mtime f)) (fst st) = false) ->
  (fst st = PyInt0 \/
   exists f, f ∈ seen /\ path_exists f w = true /\ fst st = PyFloat (st_mtime f)) ->
  let st' := foldl (scan_file w st_mtime) st files in
  (forall f, f ∈ seen ++ files -> path_exists f w = true ->
     num_gt (PyFloat (st_mtime f)) (fst st') = false) /\
  (fst st' = PyInt0 \/
   exists f, f ∈ seen ++ files /\ path_exists f w = true /\ fst st' = PyFloat (st_mtime f)).
Proof.
  intros Hirr Htrans. revert st seen.
  induction files as [|g files IH]; intros st seen Hmax Hfrom; simpl.
  { rewrite app_nil_r. done. }
  replace (seen ++ g :: files) with ((seen ++ [g]) ++ files) by (by rewrite <- app_assoc).
  apply IH.
  - intros f [Hf|Hf%list_elem_of_singleton]%elem_of_app Hex; [|subst g].
    + specialize (Hmax f Hf Hex). unfold scan_file. destruct st as [latest names].
      cbn [fst] in *.
      destruct (path_exists g w); [|done].
      destruct (num_gt (PyFloat (st_mtime g)) latest) eqn:Hg; [|done]. cbn [fst num_gt].
      destruct (float_gt F (st_mtime f) (st_mtime g)) eqn:Hfg; [|done].
      rewrite num_gt_val in Hmax, Hg by done. cbn [num_val] in Hmax, Hg.
      by rewrite (Htrans _ _ _ Hfg Hg) in Hmax.
    + unfold scan_file. destruct st as [latest names]. cbn [fst]. rewrite Hex.
      destruct (num_gt (PyFloat (st_mtime f)) latest) eqn:Hg; [|done].
      cbn [fst num_gt]. apply Hirr.
  - unfold scan_file. destruct st as [latest names]. cbn [fst] in *.
    destruct (path_exists g w) eqn:Hex.
    + destruct (num_gt (PyFloat (st_mtime g)) latest) eqn:Hg; cbn [fst].
      * right. exists g. split; [apply elem_of_app; right; by apply list_elem_of_singleton|done].
      * destruct Hfrom as [?|(f & Hf & ? & ?)]; [by left|right].
        exists f. split; [apply elem_of_app; by left|done].
    + destruct Hfrom as [?|(f & Hf & ? & ?)]; [by left|right].
      exists f. split; [apply elem_of_app; by left|done].
Qed.

(** X11.  When [multi_file_sensor] requests a run, the run key and the new
    cursor both carry the latest modification time among the watched
    files that exist: no watched file is newer. *)
Theorem multi_file_sensor_reports_latest (w : World) (st_mtime : PurePath -> float F)
    (context context' : SensorEvaluationContext) (key : string)
    (config : list (string * string)) :
  (forall x, float_gt F x x = false) ->
  (forall x y z, float_gt F x y = true -> float_gt F y z = true -> float_gt F x z = true) ->
  multi_file_sensor w st_mtime context = (context', inr (RunRequest key config)) ->
  exists latest : number F,
    key = "multi_file_update_" +:+ num_str latest /\
    cursor context' = Some (num_str latest) /\
    (forall f, f ∈ raw_files -> path_exists f w = true ->
       num_gt (PyFloat (st_mtime f)) latest = false) /\
    (latest = PyInt0 \/
     exists f, f ∈ raw_files /\ path_exists f w = true /\ latest = PyFloat (st_mtime f)).
Proof.
  intros Hirr Htrans. unfold multi_file_sensor.
  destruct (scan_files_latest w st_mtime raw_files (PyInt0, []) [] Hirr Htrans)
    as [Hmax Hfrom].
  { intros f Hf. by apply elem_of_nil in Hf. }
  { by left. }
  destruct (foldl _ _ _) as [latest names]. simpl in Hmax, Hfrom.
  destruct (read_cursor context) as [e|c]; [done|].
  destruct (num_gt latest c); [|done]. intros [= <- <- <-].
  exists latest. done.
Qed.

(** X12.  After a run request the cursor holds what [str] printed of the latest
    time; [float] reads it back as that time, and the next evaluation over
    the same files finds nothing newer: it skips and leaves the context
    alone. *)
Theorem multi_file_sensor_settles (w : World) (st_mtime : PurePath -> float F)
    (context context' : SensorEvaluationContext) (key : string)
    (config : list (string * string)) :
  (forall x, float_gt F x x = false) ->
  float_of_str F "0" = Some (float_zero F) ->
  (forall f, f ∈ raw_files ->
     float_str F (st_mtime f) ≠ "" /\
     float_of_str F (float_str F (st_mtime f)) = Some (st_mtime f)) ->
  multi_file_sensor w st_mtime context = (context', inr (RunRequest key config)) ->
  multi_file_sensor w st_mtime context' =
    (context', inr (SkipReason "No updates to raw data files")).
Proof.
  intros Hirr Hzero Hround. unfold multi_file_sensor.
  assert (Hfrom : let st := foldl (scan_file w st_mtime) (PyInt0, []) raw_files in
            fst st = PyInt0 \/ exists f, f ∈ raw_files /\ fst st = PyFloat (st_mtime f)).
  { assert (Hgen : forall files st seen,
      (fst st = PyInt0 \/ exists f, f ∈ seen /\ fst st = PyFloat (st_mtime f)) ->
      let st' := foldl (scan_file w st_mtime) st files in
      fst st' = PyInt0 \/ exists f, f ∈ seen ++ files /\ fst st' = PyFloat (st_mtime f)).
    { induction files as [|g files IH]; intros st seen Hst; simpl.
      { by rewrite app_nil_r. }
      replace (seen ++ g :: files) with ((seen ++ [g]) ++ files)
        by (by rewrite <- app_assoc).
      apply IH. unfold scan_file. destruct st as [latest names]. cbn [fst] in *.
      assert (Hkeep : latest = PyInt0 \/
                exists f, f ∈ seen ++ [g] /\ latest = PyFloat (st_mtime f)).
      { destruct Hst as [?|(f & Hf & ?)]; [by left|right].
        exists f. split; [apply elem_of_app; by left|done]. }
      destruct (path_exists g w); [|done].
      destruct (num_gt (PyFloat (st_mtime g)) latest); [|done]. cbn [fst].
      right. exists g. split; [apply elem_of_app; right; by apply list_elem_of_singleton|done]. }
    apply (Hgen raw_files (PyInt0, []) []). by left. }
  destruct (foldl _ _ _) as [latest names]. simpl in Hfrom.
  destruct (read_cursor context) as [e|c]; [done|].
  destruct (num_gt latest c); [|done]. intros [= <- <- <-].
  assert (Hread : read_cursor (update_cursor (num_str latest)
                    (log_info ("Detected updates in: " +:+ String.concat ", " names) context))
                  = inr (PyFloat (num_val latest))).
  { unfold read_cursor, update_cursor. simpl.
    destruct Hfrom as [->|(f & Hf & ->)]; simpl.
    - by rewrite Hzero.
    - destruct (Hround f Hf) as [Hne ->].
      by rewrite (proj2 (String.eqb_neq _ "")). }
  rewrite Hread. rewrite num_gt_val by done. simpl. by rewrite Hirr.
Qed.

End SensorProperties.

(** ** Sample data *)

(** *** Sorting *)

Lemma sale_le_total (a b : sale Z) : sale_le a b = false -> sale_le b a = true.
Proof. unfold sale_le. intros H. apply orb_false_iff in H as [H1 H2]. 
  apply Z.ltb_ge in H1. apply andb_false_iff in H2.
  destruct (Z.eq_dec (sale_date a) (sale_date b)) as [Heq|Hne].
  - rewrite Heq in *. rewrite Z.eqb_refl in *. destruct H2 as [?|H2]; [done|].
    apply Z.leb_gt in H2. rewrite orb_true_iff. right. simpl. apply Z.leb_le. lia.
  - rewrite orb_true_iff. left. apply Z.ltb_lt. lia.
Qed.

Lemma sale_le_trans (a b c : sale Z) :
  sale_le a b = true -> sale_le b c = true -> sale_le a c = true.
Proof.
  unfold sale_le. rewrite !orb_true_iff, !andb_true_iff, !Z.ltb_lt, !Z.eqb_eq, !Z.leb_le.
  lia.
Qed.

Lemma insert_sorted_perm (x : sale Z) (l : list (sale Z)) : insert_sorted x l ≡ₚ x :: l.
Proof.
  induction l as [|y l IH]; simpl; [done|].
  destruct (sale_le x y); [done|]. rewrite IH. apply Permutation_swap.
Qed.

Lemma sort_values_perm (l : list (sale Z)) : sort_values l ≡ₚ l.
Proof.
  induction l as [|x l IH]; simpl; [done|].
  rewrite insert_sorted_perm. by rewrite IH.
Qed.

Lemma insert_sorted_sorted (x : sale Z) (l : list (sale Z)) :
  sorted_sales l -> sorted_sales (insert_sorted x l).
Proof.
  unfold sorted_sales. induction 1 as [|y l Hl IH Hy]; simpl.
  - by repeat constructor.
  - destruct (sale_le x y) eqn:Hxy.
    + constructor; [by constructor|]. constructor; [done|].
      eapply Forall_impl; [exact Hy|]. intros z Hz. by eapply sale_le_trans.
    + constructor; [done|]. rewrite insert_sorted_perm.
      constructor; [by apply sale_le_total|done].
Qed.

Lemma sort_values_sorted (l : list (sale Z)) : sorted_sales (sort_values l).
Proof.
  induction l as [|x l IH]; simpl; [constructor|]. by apply insert_sorted_sorted.
Qed.

Lemma sort_values_sorted_id (l : list (sale Z)) : sorted_sales l -> sort_values l = l.
Proof.
  unfold sorted_sales. induction 1 as [|x l Hl IH Hx]; simpl; [done|].
  rewrite IH. destruct l as [|y l]; [done|]. simpl.
  apply Forall_cons in Hx as [Hxy _]. by rewrite Hxy.
Qed.

(** *** The loops *)

Section GenerateProperties.
Context (R : Random) (C : Calendar).

Lemma choice_member (seq : list Z) (g g1 : generator R) (x : Z) :
  choice R seq g = (g1, inr x) -> x ∈ seq.
Proof.
  unfold choice, graise. destruct seq as [|y seq]; [done|].
  destruct (randbelow R _ g) as [k g']. 
  destruct ((y :: seq) !! k) as [z|] eqn:Hk; [|done].
  intros [= _ <-]. by eapply list_elem_of_lookup_2.
Qed.

Lemma choice_returns (seq : list Z) (g : generator R) :
  generator_ok R -> seq ≠ [] -> exists x, snd (choice R seq g) = inr x.
Proof.
  intros Hok Hne. unfold choice. destruct seq as [|y seq]; [done|].
  pose proof (Hok (length (y :: seq)) g) as Hlt.
  destruct (randbelow R _ g) as [k g']. simpl in Hlt.
  destruct (lookup_lt_is_Some_2 (y :: seq) k) as [z Hz]; [simpl; lia|].
  rewrite Hz. by exists z.
Qed.

Lemma randint_1_5 (g : generator R) :
  exists k, randint R 1 5 g = (snd (randbelow R 5 g), inr (1 + Z.of_nat k)%Z) /\
            k = fst (randbelow R 5 g).
Proof.
  unfold randint. change (0 <? 5 + 1 - 1)%Z with true.
  change (Z.to_nat (5 + 1 - 1)) with 5. cbv beta iota.
  destruct (randbelow R 5 g) as [k g1]. exists k. split; reflexivity.
Qed.

(** A block of rows for one day: its ids count up from [next]. *)
Lemma sales_of_day_spec (cs ps : list Z) (d : Z) (n : nat) (rows : list (sale Z))
    (next : Z) (g g' : generator R) (rows' : list (sale Z)) (next' : Z) :
  sales_of_day R cs ps d n (rows, next) g = (g', inr (rows', next')) ->
  exists block, rows' = rows ++ block /\ length block = n /\
    next' = (next + Z.of_nat n)%Z /\
    map sale_id block = seqZ next (Z.of_nat n) /\
    Forall (generated_for cs ps d) block /\
    (generator_ok R -> Forall (fun s => (quantity s <= 5)%Z) block).
Proof.
  revert rows next g. induction n as [|n IH]; intros rows next g; simpl.
  - intros [= <- <- <-]. exists []. rewrite app_nil_r, Z.add_0_r. done.
  - unfold gbind at 1.
    destruct (choice R cs g) as [g1 [e|cid]] eqn:Hcid; [done|].
    unfold gbind at 1.
    destruct (choice R ps g1) as [g2 [e|pid]] eqn:Hpid; [done|].
    unfold gbind at 1.
    destruct (randint_1_5 g2) as (k & -> & Hk).
    intros (block & -> & Hlen & -> & Hids & Hgen & Hmax)%IH.
    exists (mkSale next cid pid (1 + Z.of_nat k)%Z d :: block).
    split; [by rewrite <- app_assoc|]. split; [simpl; by rewrite Hlen|].
    split; [lia|]. split; [|split].
    + rewrite Nat2Z.inj_succ, seqZ_cons by lia. simpl. rewrite Hids.
      by rewrite Z.pred_succ, Z.add_1_r.
    + constructor; [|done]. unfold generated_for. simpl.
      split; [done|]. split; [by eapply choice_member|].
      split; [by eapply choice_member|lia].
    + intros Hok. constructor; [|by apply Hmax]. simpl.
      pose proof (Hok 5 g2). lia.
Qed.

(** The rows [fill_days] appends: one block for every day of the list
    that has no sale yet, in the order of the list. *)
Lemma fill_days_spec (cs ps : list Z) (ex : gset Z) (days : list Z)
    (rows : list (sale Z)) (next : Z) (g g' : generator R)
    (rows' : list (sale Z)) (next' : Z) :
  fill_days R cs ps ex days (rows, next) g = (g', inr (rows', next')) ->
  exists blocks : list (Z * list (sale Z)),
    rows' = rows ++ concat (map snd blocks) /\
    map fst blocks = filter (fun d => d ∉ ex) days /\
    map sale_id (concat (map snd blocks)) =
      seqZ next (Z.of_nat (length (concat (map snd blocks)))) /\
    Forall (fun b => snd b ≠ [] /\ Forall (generated_for cs ps (fst b)) (snd b)) blocks /\
    (generator_ok R ->
     Forall (fun b => length (snd b) <= 5 /\
                      Forall (fun s => (quantity s <= 5)%Z) (snd b)) blocks).
Proof.
  revert rows next g. induction days as [|d days IH]; intros rows next g; simpl.
  - intros [= <- <- <-]. exists []. rewrite app_nil_r. done.
  - destruct (decide (d ∈ ex)) as [Hin|Hout].
    + intros (blocks & -> & Hdays & Hids & Hgen & Hmax)%IH.
      exists blocks. split; [done|]. split; [|done].
      rewrite filter_cons_False by (intros Hn; by apply Hn). done.
    + unfold gbind at 1. destruct (randint_1_5 g) as (k & -> & Hk).
      unfold gbind at 1. rewrite Z2Nat.inj_add, Nat2Z.id by lia.
      change (Z.to_nat 1) with 1. simpl Nat.add.
      destruct (sales_of_day R cs ps d (S k) (rows, next) _) as [g1 [e|[rows1 next1]]] eqn:Hday;
        [done|].
      apply sales_of_day_spec in Hday as (block & -> & Hlen & -> & Hbids & Hbgen & Hbmax).
      intros (blocks & -> & Hdays & Hids & Hgen & Hmax)%IH.
      exists ((d, block) :: blocks). simpl.
      split; [by rewrite <- app_assoc|]. split; [|split; [|split]].
      * rewrite filter_cons_True by done. by rewrite Hdays.
      * rewrite map_app, length_app, Hbids, Hids, Hlen.
        rewrite Nat2Z.inj_add. rewrite seqZ_app by lia. done.
      * constructor; [|done]. simpl. split; [|done].
        intros ->. by simpl in Hlen.
      * intros Hok. constructor; [|by apply Hmax]. simpl.
        split; [|by apply Hbmax]. rewrite Hlen. pose proof (Hok 5 g). lia.
Qed.

(** *** Parsing the dates *)

Lemma zip_set_date_spec {A B} (l : list (sale A)) (ds : list B) :
  length ds = length l ->
  map sale_date (zip_with set_date l ds) = ds /\
  map sale_id (zip_with set_date l ds) = map sale_id l /\
  map (apply_date (fun _ => tt)) (zip_with set_date l ds) = map (apply_date (fun _ => tt)) l.
Proof.
  revert ds. induction l as [|s l IH]; intros [|d ds]; simpl; try done.
  intros [= Hlen]. destruct (IH ds Hlen) as (-> & -> & ->). done.
Qed.

Lemma max_sale_id_ids {D} (first : sale D) (rest : list (sale D)) :
  max_sale_id first rest = foldr Z.max (sale_id first) (map sale_id rest).
Proof. unfold max_sale_id. induction rest as [|s rest IH]; simpl; [done|]. by rewrite IH. Qed.

Lemma first_new_id_ids {A B} (l1 : list (sale A)) (l2 : list (sale B)) :
  map sale_id l1 = map sale_id l2 -> first_new_id l1 = first_new_id l2.
Proof.
  destruct l1 as [|a l1], l2 as [|b l2]; simpl; try done.
  intros [= Ha Hl]. by rewrite !max_sale_id_ids, Ha, Hl.
Qed.

Lemma first_new_id_above {D} (l : list (sale D)) (s : sale D) :
  s ∈ l -> (sale_id s < first_new_id l)%Z.
Proof.
  destruct l as [|first rest]; [by intros ?%elem_of_nil|]. simpl.
  rewrite max_sale_id_ids.
  assert (Hfold : forall m (ids : list Z), (m <= foldr Z.max m ids)%Z /\
                    forall i, i ∈ ids -> (i <= foldr Z.max m ids)%Z).
  { intros m ids. induction ids as [|j ids [IH1 IH2]]; simpl.
    - split; [lia|]. by intros i ?%elem_of_nil.
    - split; [lia|]. intros i [->|Hi]%elem_of_cons; [lia|]. specialize (IH2 i Hi). lia. }
  destruct (Hfold (sale_id first) (map sale_id rest)) as [H1 H2].
  intros [->|Hs]%elem_of_cons; [lia|].
  specialize (H2 (sale_id s)). rewrite list_elem_of_fmap in H2.
  assert (sale_id s <= foldr Z.max (sale_id first) (map sale_id rest))%Z by (apply H2; eauto).
  lia.
Qed.

Lemma parse_dates_spec (sales : list (sale string)) (parsed : list (sale Z)) :
  parse_dates C sales = inr parsed ->
  map sale_id parsed = map sale_id sales /\
  map (apply_date (fun _ => tt)) parsed = map (apply_date (fun _ => tt)) sales /\
  (sales ≠ [] -> to_datetime C (map sale_date sales) = Some (map sale_date parsed)).
Proof.
  unfold parse_dates. destruct sales as [|s sales]; [by intros [= <-]|].
  destruct (to_datetime C (map sale_date (s :: sales))) as [dates|] eqn:Hto; [|done].
  destruct (decide _) as [Hlen|]; [|done]. intros [= <-].
  destruct (zip_set_date_spec (s :: sales) dates Hlen) as (Hd & Hi & Hs).
  split; [exact Hi|]. split; [exact Hs|]. intros _. f_equal. symmetry. exact Hd.
Qed.

(** *** The function as a whole *)

(** What a call that returns has done: parsed the dates, appended one
    block of new rows for every day of the period without a sale, sorted,
    and printed the dates. *)
Lemma generate_missing_sales_spec (cs ps : list Z) (sales : list (sale string))
    (start_date end_date : Z) (seed_arg : option Z) (g : generator R)
    (out : list (sale string)) :
  snd (generate_missing_sales R C cs ps sales start_date end_date seed_arg g) = inr out ->
  exists (parsed : list (sale Z)) (blocks : list (Z * list (sale Z))),
    parse_dates C sales = inr parsed /\
    out = map (apply_date (isoformat C)) (sort_values (parsed ++ concat (map snd blocks))) /\
    map fst blocks =
      filter (fun d => d ∉ (list_to_set (map sale_date parsed) : gset Z))
             (seqZ start_date (end_date - start_date + 1)) /\
    map sale_id (concat (map snd blocks)) =
      seqZ (first_new_id sales) (Z.of_nat (length (concat (map snd blocks)))) /\
    Forall (fun b => snd b ≠ [] /\ Forall (generated_for cs ps (fst b)) (snd b)) blocks /\
    (generator_ok R ->
     Forall (fun b => length (snd b) <= 5 /\
                      Forall (fun s => (quantity s <= 5)%Z) (snd b)) blocks).
Proof.
  unfold generate_missing_sales.
  destruct (parse_dates C sales) as [e|parsed] eqn:Hparse; [done|].
  cbv zeta.
  destruct (fill_days R cs ps _ _ _ _) as [g1 [e|[new_rows next']]] eqn:Hfill; [done|].
  apply fill_days_spec in Hfill as (blocks & Hrows & Hdays & Hids & Hgen & Hmax).
  simpl in Hrows. subst new_rows. simpl. intros [= <-].
  exists parsed, blocks. split; [done|].
  destruct (parse_dates_spec _ _ Hparse) as (Hpid & _).
  split; [|split; [done|split; [|done]]].
  - destruct (concat (map snd blocks)) as [|r new] eqn:Hnew.
    + by rewrite app_nil_r.
    + by destruct parsed.
  - rewrite Hids. f_equal. change (match parsed with
      | [] => 1001%Z | first :: rest => (max_sale_id first rest + 1)%Z end)
      with (first_new_id parsed). by apply first_new_id_ids.
Qed.

Lemma apply_date_ids {A B} (f : A -> B) (l : list (sale A)) :
  map sale_id (map (apply_date f) l) = map sale_id l.
Proof. induction l as [|s l IH]; simpl; [done|]. by rewrite IH. Qed.

Lemma apply_date_dates {A B} (f : A -> B) (l : list (sale A)) :
  map sale_date (map (apply_date f) l) = map f (map sale_date l).
Proof. induction l as [|s l IH]; simpl; [done|]. by rewrite IH. Qed.

Lemma zip_set_date_back {A B} (f : A -> B) (l : list (sale A)) :
  zip_with set_date (map (apply_date f) l) (map sale_date l) = l.
Proof.
  induction l as [|s l IH]; simpl; [done|]. rewrite IH. by destruct s.
Qed.

(** Every day of the period has a row once the gaps are filled. *)
Lemma filled_rows_cover (parsed : list (sale Z)) (blocks : list (Z * list (sale Z)))
    (cs ps : list Z) (start_date end_date d : Z) :
  map fst blocks =
    filter (fun d => d ∉ (list_to_set (map sale_date parsed) : gset Z))
           (seqZ start_date (end_date - start_date + 1)) ->
  Forall (fun b => snd b ≠ [] /\ Forall (generated_for cs ps (fst b)) (snd b)) blocks ->
  (start_date <= d <= end_date)%Z ->
  exists s, s ∈ parsed ++ concat (map snd blocks) /\ sale_date s = d.
Proof.
  intros Hdays Hgen Hd.
  destruct (decide (d ∈ (list_to_set (map sale_date parsed) : gset Z))) as [Hin|Hout].
  - apply elem_of_list_to_set, list_elem_of_fmap in Hin as (s & -> & Hs).
    exists s. split; [apply elem_of_app; by left|done].
  - assert (Hb : d ∈ map fst blocks).
    { rewrite Hdays. apply list_elem_of_filter. split; [done|].
      apply elem_of_seqZ. lia. }
    apply list_elem_of_fmap in Hb as ([d' block] & -> & Hb).
    rewrite Forall_forall in Hgen. destruct (Hgen _ Hb) as [Hne Hrows]. simpl in *.
    destruct block as [|s block]; [done|].
    apply Forall_cons in Hrows as [(Hdate & _) _].
    exists s. split; [|done]. apply elem_of_app. right.
    apply list_elem_of_In, in_concat. exists (s :: block).
    split; [|by left]. apply list_elem_of_In, list_elem_of_fmap. by exists (d', s :: block).
Qed.

(** With a sale on every day already, the loop appends nothing and draws
    nothing. *)
Lemma fill_days_covered (cs ps : list Z) (ex : gset Z) (days : list Z)
    (st : list (sale Z) * Z) (g : generator R) :
  (forall d, d ∈ days -> d ∈ ex) -> fill_days R cs ps ex days st g = (g, inr st).
Proof.
  induction days as [|d days IH]; intros Hall; simpl; [done|].
  rewrite decide_True by (apply Hall; by left).
  apply IH. intros d' Hd'. apply Hall. by right.
Qed.

Lemma choice_raises (seq : list Z) (g g1 : generator R) (e : exn) :
  choice R seq g = (g1, inl e) -> e = IndexError.
Proof.
  unfold choice, graise. destruct seq as [|y seq]; [by intros [= _ <-]|].
  destruct (randbelow R _ g) as [k g']. destruct ((y :: seq) !! k); [done|].
  by intros [= _ <-].
Qed.

Lemma sales_of_day_no_ids (cs ps : list Z) (d : Z) (n : nat) (st : list (sale Z) * Z)
    (g : generator R) :
  cs = [] \/ ps = [] ->
  snd (sales_of_day R cs ps d (S n) st g) = inl IndexError.
Proof.
  intros Hnone. destruct st as [rows next]. simpl. unfold gbind at 1.
  destruct (choice R cs g) as [g1 [e|cid]] eqn:Hcid.
  { apply choice_raises in Hcid as ->. done. }
  unfold gbind at 1.
  destruct (choice R ps g1) as [g2 [e|pid]] eqn:Hpid.
  { apply choice_raises in Hpid as ->. done. }
  destruct Hnone as [-> | ->]; done.
Qed.

Lemma fill_days_no_ids (cs ps : list Z) (ex : gset Z) (days : list Z)
    (st : list (sale Z) * Z) (g : generator R) (d : Z) :
  cs = [] \/ ps = [] -> d ∈ days -> d ∉ ex ->
  snd (fill_days R cs ps ex days st g) = inl IndexError.
Proof.
  intros Hnone Hd Hout. revert st g. induction days as [|d' days IH]; intros st g.
  { by apply elem_of_nil in Hd. }
  simpl. destruct (decide (d' ∈ ex)) as [Hin|Hmiss].
  - apply IH. apply elem_of_cons in Hd as [->|Hd]; done.
  - unfold gbind at 1. destruct (randint_1_5 g) as (k & -> & _).
    unfold gbind at 1. rewrite Z2Nat.inj_add, Nat2Z.id by lia.
    change (Z.to_nat 1) with 1. simpl Nat.add.
    pose proof (sales_of_day_no_ids cs ps d' k st (snd (randbelow R 5 g)) Hnone) as Hday.
    destruct (sales_of_day R cs ps d' (S k) st _) as [g1 [e|st1]]; [|done].
    simpl in Hday. by injection Hday as ->.
Qed.

Lemma sales_of_day_returns (cs ps : list Z) (d : Z) (n : nat) (st : list (sale Z) * Z)
    (g : generator R) :
  generator_ok R -> cs ≠ [] -> ps ≠ [] ->
  exists st', snd (sales_of_day R cs ps d n st g) = inr st'.
Proof.
  intros Hok Hcs Hps. revert st g. induction n as [|n IH]; intros [rows next] g; simpl.
  { by eexists. }
  unfold gbind at 1.
  destruct (choice_returns cs g Hok Hcs) as [cid Hcid].
  destruct (choice R cs g) as [g1 r1]. simpl in Hcid. subst r1.
  unfold gbind at 1.
  destruct (choice_returns ps g1 Hok Hps) as [pid Hpid].
  destruct (choice R ps g1) as [g2 r2]. simpl in Hpid. subst r2.
  unfold gbind at 1. destruct (randint_1_5 g2) as (k & -> & _). apply IH.
Qed.

Lemma fill_days_returns (cs ps : list Z) (ex : gset Z) (days : list Z)
    (st : list (sale Z) * Z) (g : generator R) :
  generator_ok R -> cs ≠ [] -> ps ≠ [] ->
  exists st', snd (fill_days R cs ps ex days st g) = inr st'.
Proof.
  intros Hok Hcs Hps. revert st g. induction days as [|d days IH]; intros st g; simpl.
  { by eexists. }
  destruct (decide (d ∈ ex)); [apply IH|].
  unfold gbind at 1. destruct (randint_1_5 g) as (k & -> & _).
  unfold gbind at 1.
  destruct (sales_of_day_returns cs ps d (Z.to_nat (1 + Z.of_nat k)) st
              (snd (randbelow R 5 g)) Hok Hcs Hps) as [st1 Hday].
  destruct (sales_of_day R cs ps d _ st _) as [g1 r1]. simpl in Hday. subst r1.
  apply IH.
Qed.

(** X13.  Every day from [start_date] to [end_date] has at least one sale in
    the table the function returns. *)
Theorem generate_missing_sales_covers_every_day (cs ps : list Z)
    (sales : list (sale string)) (start_date end_date : Z) (seed_arg : option Z)
    (g : generator R) (out : list (sale string)) (d : Z) :
  snd (generate_missing_sales R C cs ps sales start_date end_date seed_arg g) = inr out ->
  (start_date <= d <= end_date)%Z ->
  exists s, s ∈ out /\ sale_date s = isoformat C d.
Proof.
  intros (parsed & blocks & _ & -> & Hdays & _ & Hgen & _)%generate_missing_sales_spec Hd.
  destruct (filled_rows_cover parsed blocks cs ps start_date end_date d Hdays Hgen Hd)
    as (s & Hs & Hdate).
  exists (apply_date (isoformat C) s). split; [|simpl; by rewrite Hdate].
  apply list_elem_of_fmap. exists s. split; [done|]. by rewrite sort_values_perm.
Qed.

(** X14.  The function keeps every row it was given, changing nothing but the
    spelling of the date, and numbers the rows it adds upwards from the
    largest id it found (from 1001 on an empty table): ids that were
    distinct stay distinct. *)
Theorem generate_missing_sales_keeps_rows (cs ps : list Z)
    (sales : list (sale string)) (start_date end_date : Z) (seed_arg : option Z)
    (g : generator R) (out : list (sale string)) :
  snd (generate_missing_sales R C cs ps sales start_date end_date seed_arg g) = inr out ->
  exists (parsed added : list (sale Z)),
    parse_dates C sales = inr parsed /\
    map (apply_date (fun _ => tt)) parsed = map (apply_date (fun _ => tt)) sales /\
    out ≡ₚ map (apply_date (isoformat C)) parsed ++ map (apply_date (isoformat C)) added /\
    map sale_id added = seqZ (first_new_id sales) (Z.of_nat (length added)) /\
    (NoDup (map sale_id sales) -> NoDup (map sale_id out)).
Proof.
  intros (parsed & blocks & Hparse & -> & _ & Hids & _)%generate_missing_sales_spec.
  destruct (parse_dates_spec _ _ Hparse) as (Hpid & Hsame & _).
  exists parsed, (concat (map snd blocks)).
  split; [done|]. split; [done|].
  assert (Hperm : map (apply_date (isoformat C))
                    (sort_values (parsed ++ concat (map snd blocks)))
                  ≡ₚ map (apply_date (isoformat C)) parsed ++
                     map (apply_date (isoformat C)) (concat (map snd blocks))).
  { rewrite <- map_app. apply fmap_Permutation, sort_values_perm. }
  split; [done|]. split; [done|]. intros Hnodup.
  apply (fmap_Permutation sale_id) in Hperm. rewrite Hperm.
  rewrite fmap_app. change (@fmap list _) with (@map) in *.
  rewrite !apply_date_ids, Hpid, Hids.
  apply NoDup_app. split; [done|]. split; [|apply NoDup_seqZ].
  intros i Hi Hnew. apply list_elem_of_fmap in Hi as (s & -> & Hs).
  apply first_new_id_above in Hs. apply elem_of_seqZ in Hnew. lia.
Qed.

(** X15.  The table comes back sorted by date, and by id within a day. *)
Theorem generate_missing_sales_sorted (cs ps : list Z)
    (sales : list (sale string)) (start_date end_date : Z) (seed_arg : option Z)
    (g : generator R) (out : list (sale string)) :
  snd (generate_missing_sales R C cs ps sales start_date end_date seed_arg g) = inr out ->
  exists rows : list (sale Z),
    out = map (apply_date (isoformat C)) rows /\ sorted_sales rows /\
    length rows = length out.
Proof.
  intros (parsed & blocks & _ & -> & _)%generate_missing_sales_spec.
  eexists. split; [reflexivity|]. split; [apply sort_values_sorted|].
  by rewrite length_map.
Qed.

(** X16.  Running the function on its own result changes nothing: when dates
    read back as they were printed, the second run finds a sale on every
    day, draws no random number and returns the table as it is. *)
Theorem generate_missing_sales_idempotent (cs ps cs' ps' : list Z)
    (sales : list (sale string)) (start_date end_date : Z) (seed_arg seed_arg' : option Z)
    (g g' : generator R) (out : list (sale string)) :
  (forall ds, to_datetime C (map (isoformat C) ds) = Some ds) ->
  snd (generate_missing_sales R C cs ps sales start_date end_date seed_arg g) = inr out ->
  generate_missing_sales R C cs' ps' out start_date end_date seed_arg' g' =
    (match seed_arg' with Some n => seed R n | None => g' end, inr out).
Proof.
  intros Hround (parsed & blocks & _ & -> & Hdays & _ & Hgen & _)%generate_missing_sales_spec.
  set (rows := sort_values (parsed ++ concat (map snd blocks))).
  assert (Hsorted : sorted_sales rows) by apply sort_values_sorted.
  assert (Hcover : forall d, (start_date <= d <= end_date)%Z ->
            d ∈ (list_to_set (map sale_date rows) : gset Z)).
  { intros d Hd.
    destruct (filled_rows_cover parsed blocks cs ps start_date end_date d Hdays Hgen Hd)
      as (s & Hs & <-).
    apply elem_of_list_to_set, list_elem_of_fmap. exists s. split; [done|].
    subst rows. by rewrite sort_values_perm. }
  assert (Hparse : parse_dates C (map (apply_date (isoformat C)) rows) = inr rows).
  { unfold parse_dates. destruct rows as [|r rows'] eqn:Hrows; [done|].
    rewrite <- Hrows. replace (map (apply_date (isoformat C)) rows)
      with (apply_date (isoformat C) r :: map (apply_date (isoformat C)) rows')
      by (by rewrite Hrows).
    replace (apply_date (isoformat C) r :: map (apply_date (isoformat C)) rows')
      with (map (apply_date (isoformat C)) rows) by (by rewrite Hrows).
    rewrite apply_date_dates, Hround.
    rewrite decide_True by (by rewrite !length_map).
    by rewrite zip_set_date_back. }
  unfold generate_missing_sales. rewrite Hparse. cbv zeta.
  rewrite fill_days_covered.
  - by rewrite sort_values_sorted_id.
  - intros d Hd%elem_of_seqZ. apply Hcover. lia.
Qed.

(** X17.  With no customer or no product to choose from, a period that has a
    day without sales makes the function raise [IndexError]. *)
Theorem generate_missing_sales_needs_ids (cs ps : list Z)
    (sales : list (sale string)) (start_date end_date : Z) (seed_arg : option Z)
    (g : generator R) (parsed : list (sale Z)) (d : Z) :
  parse_dates C sales = inr parsed ->
  (start_date <= d <= end_date)%Z -> d ∉ map sale_date parsed ->
  cs = [] \/ ps = [] ->
  snd (generate_missing_sales R C cs ps sales start_date end_date seed_arg g)
    = inl IndexError.
Proof.
  intros Hparse Hd Hmiss Hnone. unfold generate_missing_sales. rewrite Hparse. cbv zeta.
  match goal with |- context [fill_days R cs ps ?ex ?days ?st ?g0] =>
    pose proof (fill_days_no_ids cs ps ex days st g0 d Hnone) as Hfill end.
  assert (Hin : d ∈ seqZ start_date (end_date - start_date + 1))
    by (apply elem_of_seqZ; lia).
  assert (Hout : d ∉ (list_to_set (map sale_date parsed) : gset Z))
    by (by rewrite elem_of_list_to_set).
  specialize (Hfill Hin Hout).
  destruct (fill_days R cs ps _ _ _ _) as [g1 r1]. simpl in Hfill. by subst r1.
Qed.

(** X18.  With customers and products to choose from, the function returns, and
    what it adds is one block of rows for each day without a sale, in
    date order: one to five rows a day, each for that day, with a customer
    and a product from the lists and a quantity from one to five. *)
Theorem generate_missing_sales_fills_gaps (cs ps : list Z)
    (sales : list (sale string)) (start_date end_date : Z) (seed_arg : option Z)
    (g : generator R) (parsed : list (sale Z)) :
  generator_ok R -> cs ≠ [] -> ps ≠ [] -> parse_dates C sales = inr parsed ->
  exists (out : list (sale string)) (blocks : list (Z * list (sale Z))),
    snd (generate_missing_sales R C cs ps sales start_date end_date seed_arg g) = inr out /\
    out ≡ₚ map (apply_date (isoformat C)) (parsed ++ concat (map snd blocks)) /\
    map fst blocks =
      filter (fun d => d ∉ (list_to_set (map sale_date parsed) : gset Z))
             (seqZ start_date (end_date - start_date + 1)) /\
    Forall (fun b =>
              1 <= length (snd b) <= 5 /\
              Forall (fun s => sale_date s = fst b /\ customer_id s ∈ cs /\
                               product_id s ∈ ps /\ (1 <= quantity s <= 5)%Z) (snd b))
           blocks.
Proof.
  intros Hok Hcs Hps Hparse.
  assert (Hret : exists out,
    snd (generate_missing_sales R C cs ps sales start_date end_date seed_arg g) = inr out).
  { unfold generate_missing_sales. rewrite Hparse. cbv zeta.
    match goal with |- context [fill_days R cs ps ?ex ?days ?st ?g0] =>
      destruct (fill_days_returns cs ps ex days st g0 Hok Hcs Hps) as [[rows next] Hfill] end.
    destruct (fill_days R cs ps _ _ _ _) as [g1 r1]. simpl in Hfill. subst r1.
    by eexists. }
  destruct Hret as [out Hout]. exists out.
  pose proof Hout as (parsed' & blocks & Hparse' & -> & Hdays & _ & Hgen & Hmax)
    %generate_missing_sales_spec.
  rewrite Hparse in Hparse'. injection Hparse' as <-.
  exists blocks. split; [done|].
  split; [apply fmap_Permutation, sort_values_perm|]. split; [done|].
  specialize (Hmax Hok). rewrite Forall_forall in *. intros b Hb.
  destruct (Hgen b Hb) as [Hne Hrows]. destruct (Hmax b Hb) as [Hlen Hqty].
  split.
  - split; [|done]. destruct (snd b); [done|simpl; lia].
  - rewrite Forall_forall in *. intros s Hs.
    destruct (Hrows s Hs) as (? & ? & ? & ?). specialize (Hqty s Hs). done.
Qed.

End GenerateProperties.

(** * The properties at work on concrete runs *)

Import Sample.

(** The three ways out that hold the lock, on the fresh checkout and on
    the world whose database path holds no database. *)
Example body_returns_run :
  let res := get_connection database_path (run_prog engine (PReturn 7)) fresh in
  snd res = Return 7 /\ flocks (fst res) = ∅ /\ fds (fst res) = ∅ /\ conns (fst res) = ∅.
Proof. repeat split; reflexivity. Qed.

Example body_raises_run :
  let res := get_connection database_path
               (run_prog engine (PExecute "SELECT 1+1" (PRaise (A:=unit) (UserException 1))))
               fresh in
  snd res = Raise (UserException 1) /\
  flocks (fst res) = ∅ /\ fds (fst res) = ∅ /\ conns (fst res) = ∅.
Proof. repeat split; reflexivity. Qed.

Example connect_raises_run :
  let res := get_connection database_path (run_prog engine (PReturn 7)) not_a_database in
  snd res = Raise (DuckDBError IOException_open) /\
  flocks (fst res) = ∅ /\ fds (fst res) = ∅ /\ conns (fst res) = ∅.
Proof. repeat split; reflexivity. Qed.

(** A caller that finds the lock taken waits. *)
Example held_lock_blocks :
  snd (execute_query engine database_path "SELECT 1+1" locked_elsewhere) = Blocked.
Proof. reflexivity. Qed.

(** [execute_query("SELECT 1+1")] on the sample engine. *)
Example select_one_plus_one :
  snd (execute_query engine database_path "SELECT 1+1" fresh) = Return [[VInt 2]].
Proof. reflexivity. Qed.

Lemma get_connection_releases_lock_witness :
  let L := Path (lock_file_path (Path database_path)) in
  let res := get_connection database_path
               (run_prog engine (PRaise (A:=unit) (UserException 1))) fresh in
  flocks fresh !! L = None /\ snd res = Raise (UserException 1) /\
  (snd res ≠ Blocked /\ flocks (fst res) !! L = None /\ flocks (fst res) = flocks fresh /\
   snd (get_connection database_path (run_prog engine (PReturn tt)) (fst res)) ≠ Blocked).
Proof.
  intros L res. split; [reflexivity|]. split; [reflexivity|].
  apply (get_connection_releases_lock engine database_path
           (PRaise (UserException 1)) (PReturn tt) fresh).
  reflexivity.
Defined.

Lemma lock_descriptor_closed_witness :
  let L := Path (lock_file_path (Path database_path)) in
  let res := get_connection database_path (run_prog engine (PReturn tt)) no_locks_left in
  snd res = Raise (OSError NoLocksAvailable) /\
  (fds (fst res) !! 3 = None /\ flocks (fst res) !! L ≠ Some 3 /\
   exists pre, new_events no_locks_left (fst res) =
               pre ++ [EvFlock 3 LOCK_UN true; EvClose 3]).
Proof.
  intros L res. split; [reflexivity|].
  apply (lock_descriptor_closed engine database_path (PReturn tt) no_locks_left 3).
  - vm_compute. discriminate.
  - vm_compute. apply list_elem_of_further, list_elem_of_here.
Defined.

Lemma connection_closed_before_unlock_witness :
  let res := get_connection database_path
               (run_prog engine (PExecute "SELECT 1+1" (PRaise (A:=unit) (UserException 1))))
               fresh in
  let evs := new_events fresh (fst res) in
  snd res = Raise (UserException 1) /\
  conn_within_lock false false evs = true /\
  exists pre body fd,
    evs = pre ++ [EvConnect database_path true] ++ body ++
          [EvConnClose; EvFlock fd LOCK_UN true; EvClose fd] /\
    forallb engine_event body = true.
Proof.
  intros res evs. split; [reflexivity|].
  destruct (connection_closed_before_unlock engine database_path
              (PExecute "SELECT 1+1" (PRaise (A:=unit) (UserException 1))) fresh)
    as [Hmonitor Hclose].
  split; [exact Hmonitor|].
  destruct (Hclose database_path) as (_ & pre & body & fd & Hevs & Hbody & _).
  - vm_compute. do 3 apply list_elem_of_further. apply list_elem_of_here.
  - exists pre, body, fd. split; [exact Hevs|exact Hbody].
Defined.

Lemma lock_file_left_empty_witness :
  let lf := lock_file_path (Path database_path) in
  let res := get_connection database_path (run_prog engine (PReturn tt)) not_a_database in
  snd res = Raise (DuckDBError IOException_open) /\
  fs (fst res) !! Path lf = Some (NFile "").
Proof.
  intros lf res. split; [reflexivity|].
  apply (lock_file_left_empty engine database_path (PReturn tt) not_a_database 3).
  - vm_compute. discriminate.
  - vm_compute. apply list_elem_of_further, list_elem_of_here.
Defined.

Lemma lock_file_open_failure_propagates_witness :
  let d := Path database_path in
  let w1 := fst (mkdir (parent d) lock_denied) in
  let w2 := fst (open_w (lock_file_path d) w1) in
  mkdir (parent d) lock_denied = (w1, Return tt) /\
  open_w (lock_file_path d) w1 = (w2, Raise (OSError PermissionError)) /\
  (get_connection database_path (run_prog engine (PReturn tt)) lock_denied
     = (w2, Raise (OSError PermissionError)) /\
   classify (OSError PermissionError) = ResourceUnavailable /\
   new_events lock_denied w2 = [EvMkdir (parent d) true; EvOpen (lock_file_path d) None] /\
   flocks w2 = flocks lock_denied /\ fds w2 = fds lock_denied /\
   conns w2 = conns lock_denied).
Proof.
  intros d w1 w2.
  assert (Hmkdir : mkdir (parent d) lock_denied = (w1, Return tt)) by reflexivity.
  assert (Hopen : open_w (lock_file_path d) w1 = (w2, Raise (OSError PermissionError)))
    by reflexivity.
  split; [exact Hmkdir|]. split; [exact Hopen|].
  exact (lock_file_open_failure_propagates engine database_path (PReturn tt)
           lock_denied w1 w2 (OSError PermissionError) Hmkdir Hopen).
Defined.

(** C7, as stated, fails on a database path that [Path] rewrites: for
    [./analytics.duckdb] the lock file opened is [analytics.duckdb.lock],
    not [./analytics.duckdb.lock]. *)
Lemma lock_file_path_counterexample :
  let res := get_connection "./analytics.duckdb" (run_prog engine (PReturn tt)) fresh in
  EvOpen "analytics.duckdb.lock" (Some 3) ∈ new_events fresh (fst res) /\
  lock_file_path (Path "./analytics.duckdb") = "analytics.duckdb.lock" /\
  lock_file_path (Path "./analytics.duckdb") ≠ "./analytics.duckdb" +:+ ".lock".
Proof.
  intros res. split; [|split; [reflexivity|]].
  - vm_compute. apply list_elem_of_further, list_elem_of_here.
  - vm_compute. discriminate.
Qed.

Lemma lock_file_beside_database_witness :
  path_str (Path database_path) = database_path /\
  lock_file_path (Path database_path) = database_path +:+ ".lock" /\
  parent (Path (lock_file_path (Path database_path))) = Path "data/warehouse".
Proof.
  destruct (lock_file_beside_database engine database_path (PReturn tt) fresh)
    as (_ & _ & _ & Hparent & _ & Hnormal).
  split; [reflexivity|]. split; [apply Hnormal; reflexivity|].
  rewrite Hparent. reflexivity.
Defined.

Lemma parent_directory_ensured_witness :
  let d := Path database_path in
  let res := get_connection database_path (run_prog engine (PReturn 7)) fresh in
  is_dir (parent d) fresh = false /\ creatable (parent d) fresh = true /\
  unobstructed d fresh = true /\
  (exists w3 w4, run_prog engine (PReturn 7) d w3 = (w4, snd res) /\ fs (fst res) = fs w4) /\
  Forall (fun q => is_dir q (fst res) = true) (ancestors (parent d)).
Proof.
  intros d res.
  destruct (parent_directory_ensured engine database_path (PReturn 7) fresh)
    as (_ & _ & _ & Henters).
  split; [reflexivity|]. split; [reflexivity|]. split; [reflexivity|].
  apply Henters; reflexivity.
Defined.

Lemma execute_query_passes_query_through_witness :
  let d := Path database_path in
  let lf := lock_file_path d in
  let res := execute_query engine database_path "SELECT 1+1" fresh in
  snd res = Return [[VInt 2]] /\
  exists w3 db db' fd,
    fs w3 !! d = Some (NDatabase db) /\
    engine_execute engine "SELECT 1+1" (fs w3) db = (db', inr [[VInt 2]]) /\
    new_events fresh (fst res) =
      [EvMkdir (parent d) true; EvOpen lf (Some fd); EvFlock fd LOCK_EX true;
       EvConnect (path_str d) true; EvExecute "SELECT 1+1" true; EvFetchall;
       EvConnClose; EvFlock fd LOCK_UN true; EvClose fd] /\
    fs (fst res) !! d = Some (NDatabase db') /\
    conns (fst res) !! d = None /\ fds (fst res) !! fd = None /\
    flocks (fst res) !! Path lf = None.
Proof.
  intros d lf res. split; [reflexivity|].
  destruct (execute_query_passes_query_through engine database_path "SELECT 1+1" fresh)
    as [_ Hrows].
  apply Hrows. reflexivity.
Defined.

Lemma read_csv_to_table_idempotent_witness :
  let d := Path database_path in
  let once := read_csv_to_table engine database_path customers_csv "raw_customers" fresh in
  let twice :=
    read_csv_to_table engine database_path customers_csv "raw_customers" (fst once) in
  valid_identifier "raw_customers" = true /\ no_char "'" customers_csv = true /\
  snd once = Return tt /\
  (snd twice = Return tt /\
   catalog (fst twice) d = catalog (fst once) d /\
   exists data tbl,
     fs (fst once) !! Path customers_csv = Some (NFile data) /\
     read_csv_auto engine data = Some tbl /\
     catalog (fst once) d !! "raw_customers" = Some tbl /\
     catalog (fst twice) d !! "raw_customers" = Some tbl).
Proof.
  intros d once twice. do 3 (split; [reflexivity|]).
  apply (read_csv_to_table_idempotent engine database_path customers_csv
           "raw_customers" fresh); reflexivity.
Defined.

Lemma read_csv_to_table_missing_file_witness :
  let d := Path database_path in
  let res := read_csv_to_table engine database_path "/nonexistent.csv" "t" fresh in
  valid_identifier "t" = true /\ no_char "'" "/nonexistent.csv" = true /\
  dir_available (parent d) fresh = true /\ unobstructed d fresh = true /\
  fs fresh !! Path "/nonexistent.csv" = None /\
  Path "/nonexistent.csv" ≠ Path (lock_file_path d) /\
  ((exists e, snd res = Raise e /\ classify e = LoadError) /\
   catalog (fst res) d = catalog fresh d /\
   catalog (fst res) d !! "t" = catalog fresh d !! "t").
Proof.
  intros d res. do 5 (split; [reflexivity|]).
  assert (Hother : Path "/nonexistent.csv" ≠ Path (lock_file_path d))
    by (vm_compute; discriminate).
  split; [exact Hother|].
  apply (read_csv_to_table_missing_file engine database_path "/nonexistent.csv" "t" fresh);
    try reflexivity. exact Hother.
Defined.

(** ** Assets, sensors and sample data on concrete runs *)

Import Demo.

Example sales_sensor_repeats :
  let r := sales_file_sensor (F:=whole_seconds) raw_data modified first_tick in
  snd r = inr (RunRequest "sales_update_1700000100.0" []) /\
  snd (sales_file_sensor (F:=whole_seconds) raw_data modified (fst r)) = snd r.
Proof. split; reflexivity. Qed.

Example multi_sensor_run :
  multi_file_sensor (F:=whole_seconds) raw_data modified first_tick =
  (mkSensorContext (Some "1700000300.0") ["Detected updates in: sales.csv, products.csv"],
   inr (RunRequest "multi_file_update_1700000300.0" [])).
Proof. reflexivity. Qed.



Lemma whole_seconds_irreflexive (x : float whole_seconds) :
  float_gt whole_seconds x x = false.
Proof. cbn. rewrite Z.gtb_ltb. apply Z.ltb_irrefl. Qed.

Lemma whole_seconds_transitive (x y z : float whole_seconds) :
  float_gt whole_seconds x y = true -> float_gt whole_seconds y z = true ->
  float_gt whole_seconds x z = true.
Proof. cbn. rewrite !Z.gtb_ltb, !Z.ltb_lt. lia. Qed.

Lemma day_numbers_round_trip (ds : list Z) :
  to_datetime day_numbers (map (isoformat day_numbers) ds) = Some ds.
Proof.
  cbn. induction ds as [|d ds IH]; [done|]. cbn.
  rewrite of_decimal_decimal. cbn. by rewrite IH.
Qed.

Lemma lcg_ok : generator_ok lcg.
Proof.
  intros n g Hn. cbn. pose proof (N.mod_lt g (N.of_nat n)). lia.
Qed.

Lemma get_connection_not_reentrant_witness :
  let outer := get_connection database_path
                 (fun _ => get_connection "./data/warehouse//analytics.duckdb"
                             (run_prog engine (PReturn tt))) fresh in
  Path "./data/warehouse//analytics.duckdb" = Path database_path /\
  dir_available (parent (Path database_path)) fresh = true /\
  unobstructed (Path database_path) fresh = true /\
  snd outer = Blocked /\
  new_events fresh (fst outer) =
    [EvMkdir (parent (Path database_path)) true;
     EvOpen (lock_file_path (Path database_path)) (Some 3);
     EvFlock 3 LOCK_EX true;
     EvConnect (path_str (Path database_path)) true;
     EvMkdir (parent (Path database_path)) true;
     EvOpen (lock_file_path (Path database_path)) (Some 4);
     EvFlockWait 4].
Proof.
  intros outer. do 3 (split; [reflexivity|]).
  apply (get_connection_not_reentrant database_path "./data/warehouse//analytics.duckdb"
           (run_prog engine (PReturn tt)) fresh); reflexivity.
Defined.


Lemma read_csv_to_table_all_or_nothing_witness :
  let d := Path database_path in
  let res := read_csv_to_table engine database_path "data/raw" "raw_customers" fresh in
  valid_identifier "raw_customers" = true /\ no_char "'" "data/raw" = true /\
  snd res = Raise (DuckDBError InvalidInputException) /\
  catalog (fst res) d = catalog fresh d.
Proof.
  intros d res. do 3 (split; [reflexivity|]).
  apply (read_csv_to_table_all_or_nothing engine database_path "data/raw" "raw_customers"
           fresh (DuckDBError InvalidInputException)); reflexivity.
Defined.

Lemma read_csv_to_table_binds_table_witness :
  let d := Path database_path in
  let res := read_csv_to_table engine database_path customers_csv "raw_customers" fresh in
  let tbl := mkTable [("id", "VARCHAR"); ("name", "VARCHAR")]
                     [[VText "1"; VText "Ada"]; [VText "2"; VText "Grace"]] in
  valid_identifier "raw_customers" = true /\ no_char "'" customers_csv = true /\
  dir_available (parent d) fresh = true /\ unobstructed d fresh = true /\
  fs fresh !! Path customers_csv = Some (NFile customers) /\
  read_csv_auto engine customers = Some tbl /\
  Path customers_csv ≠ Path (lock_file_path d) /\
  (snd res = Return tt /\
   catalog (fst res) d = <["raw_customers" := tbl]> (catalog fresh d) /\
   (forall t, t ≠ "raw_customers" -> catalog (fst res) d !! t = catalog fresh d !! t) /\
   fs (fst res) !! Path customers_csv = Some (NFile customers)).
Proof.
  intros d res tbl. do 6 (split; [reflexivity|]).
  assert (Hother : Path customers_csv ≠ Path (lock_file_path d))
    by (vm_compute; discriminate).
  split; [exact Hother|].
  apply (read_csv_to_table_binds_table engine database_path customers_csv "raw_customers"
           fresh customers tbl); try reflexivity. exact Hother.
Defined.


Lemma sensors_reject_unreadable_cursor_witness :
  cursor bad_tick = Some "yesterday" /\ "yesterday" ≠ "" /\
  float_of_str whole_seconds "yesterday" = None /\
  multi_file_sensor (F:=whole_seconds) raw_data modified bad_tick
    = (bad_tick, inl ValueError) /\
  sales_file_sensor (F:=whole_seconds) raw_data modified bad_tick
    = (bad_tick, inl ValueError).
Proof.
  assert (Hne : "yesterday" ≠ "") by discriminate.
  split; [reflexivity|]. split; [exact Hne|]. split; [reflexivity|].
  exact (sensors_reject_unreadable_cursor (F:=whole_seconds) raw_data modified bad_tick
           "yesterday" eq_refl Hne eq_refl).
Defined.

Lemma multi_file_sensor_reports_latest_witness :
  let context' :=
    mkSensorContext (Some "1700000300.0") ["Detected updates in: sales.csv, products.csv"] in
  multi_file_sensor (F:=whole_seconds) raw_data modified first_tick
    = (context', inr (RunRequest "multi_file_update_1700000300.0" [])) /\
  exists latest : number whole_seconds,
    "multi_file_update_1700000300.0" = "multi_file_update_" +:+ num_str latest /\
    cursor context' = Some (num_str latest) /\
    (forall f, f ∈ raw_files -> path_exists f raw_data = true ->
       num_gt (PyFloat (F:=whole_seconds) (modified f)) latest = false) /\
    (latest = PyInt0 \/
     exists f, f ∈ raw_files /\ path_exists f raw_data = true /\
               latest = PyFloat (F:=whole_seconds) (modified f)).
Proof.
  intros context'. split; [reflexivity|].
  apply (multi_file_sensor_reports_latest (F:=whole_seconds) raw_data modified first_tick
           context' "multi_file_update_1700000300.0" []
           whole_seconds_irreflexive whole_seconds_transitive).
  reflexivity.
Defined.

Lemma multi_file_sensor_settles_witness :
  let context' :=
    mkSensorContext (Some "1700000300.0") ["Detected updates in: sales.csv, products.csv"] in
  multi_file_sensor (F:=whole_seconds) raw_data modified first_tick
    = (context', inr (RunRequest "multi_file_update_1700000300.0" [])) /\
  multi_file_sensor (F:=whole_seconds) raw_data modified context'
    = (context', inr (SkipReason "No updates to raw data files")).
Proof.
  intros context'. split; [reflexivity|].
  apply (multi_file_sensor_settles (F:=whole_seconds) raw_data modified first_tick
           context' "multi_file_update_1700000300.0" [] whole_seconds_irreflexive).
  - reflexivity.
  - intros f Hf. unfold raw_files in Hf. rewrite !elem_of_cons, elem_of_nil in Hf.
    destruct Hf as [->|[->|[->|[]]]]; (split; [discriminate|reflexivity]).
  - reflexivity.
Defined.


Example some_sales_extended :
  snd (generate_missing_sales lcg day_numbers some_customers some_products some_sales
         10 13 (Some 42%Z) 0%N)
  = inr extended_sales.
Proof. vm_compute. reflexivity. Qed.

Lemma generate_missing_sales_covers_every_day_witness :
  snd (generate_missing_sales lcg day_numbers some_customers some_products some_sales
         10 13 (Some 42%Z) 0%N) = inr extended_sales /\
  (10 <= 11 <= 13)%Z /\
  exists s, s ∈ extended_sales /\ sale_date s = isoformat day_numbers 11.
Proof.
  split; [exact some_sales_extended|]. split; [lia|].
  apply (generate_missing_sales_covers_every_day lcg day_numbers some_customers
           some_products some_sales 10 13 (Some 42%Z) 0%N extended_sales 11).
  - exact some_sales_extended.
  - lia.
Defined.

Lemma generate_missing_sales_keeps_rows_witness :
  snd (generate_missing_sales lcg day_numbers some_customers some_products some_sales
         10 13 (Some 42%Z) 0%N) = inr extended_sales /\
  exists (parsed added : list (sale Z)),
    parse_dates day_numbers some_sales = inr parsed /\
    map (apply_date (fun _ => tt)) parsed = map (apply_date (fun _ => tt)) some_sales /\
    extended_sales ≡ₚ map (apply_date (isoformat day_numbers)) parsed ++
                      map (apply_date (isoformat day_numbers)) added /\
    map sale_id added = seqZ (first_new_id some_sales) (Z.of_nat (length added)) /\
    (NoDup (map sale_id some_sales) -> NoDup (map sale_id extended_sales)).
Proof.
  split; [exact some_sales_extended|].
  apply (generate_missing_sales_keeps_rows lcg day_numbers some_customers
           some_products some_sales 10 13 (Some 42%Z) 0%N extended_sales).
  exact some_sales_extended.
Defined.

Lemma generate_missing_sales_sorted_witness :
  snd (generate_missing_sales lcg day_numbers some_customers some_products some_sales
         10 13 (Some 42%Z) 0%N) = inr extended_sales /\
  exists rows : list (sale Z),
    extended_sales = map (apply_date (isoformat day_numbers)) rows /\ sorted_sales rows /\
    length rows = length extended_sales.
Proof.
  split; [exact some_sales_extended|].
  apply (generate_missing_sales_sorted lcg day_numbers some_customers
           some_products some_sales 10 13 (Some 42%Z) 0%N extended_sales).
  exact some_sales_extended.
Defined.

Lemma generate_missing_sales_idempotent_witness :
  snd (generate_missing_sales lcg day_numbers some_customers some_products some_sales
         10 13 (Some 42%Z) 0%N) = inr extended_sales /\
  generate_missing_sales lcg day_numbers [] [] extended_sales 10 13 None 7%N
    = (7%N, inr extended_sales).
Proof.
  split; [exact some_sales_extended|].
  apply (generate_missing_sales_idempotent lcg day_numbers some_customers some_products
           [] [] some_sales 10 13 (Some 42%Z) None 0%N 7%N extended_sales).
  - exact day_numbers_round_trip.
  - exact some_sales_extended.
Defined.

Lemma generate_missing_sales_needs_ids_witness :
  let parsed := [mkSale 1001 1 101 2 12; mkSale 1000 2 102 1 10]%Z in
  parse_dates day_numbers some_sales = inr parsed /\
  (10 <= 11 <= 13)%Z /\ (11%Z ∉ map sale_date parsed) /\
  snd (generate_missing_sales lcg day_numbers [] some_products some_sales
         10 13 (Some 42%Z) 0%N) = inl IndexError.
Proof.
  intros parsed.
  assert (Hparse : parse_dates day_numbers some_sales = inr parsed) by reflexivity.
  assert (Hmiss : 11%Z ∉ map sale_date parsed).
  { cbn. rewrite !elem_of_cons, elem_of_nil. intros [?|[?|[]]]; discriminate. }
  split; [exact Hparse|]. split; [lia|]. split; [exact Hmiss|].
  apply (generate_missing_sales_needs_ids lcg day_numbers [] some_products some_sales
           10 13 (Some 42%Z) 0%N parsed 11 Hparse); [lia|exact Hmiss|by left].
Defined.

Lemma generate_missing_sales_fills_gaps_witness :
  let parsed := [mkSale 1001 1 101 2 12; mkSale 1000 2 102 1 10]%Z in
  generator_ok lcg /\ some_customers ≠ [] /\ some_products ≠ [] /\
  parse_dates day_numbers some_sales = inr parsed /\
  exists (out : list (sale string)) (blocks : list (Z * list (sale Z))),
    snd (generate_missing_sales lcg day_numbers some_customers some_products some_sales
           10 13 (Some 42%Z) 0%N) = inr out /\
    out ≡ₚ map (apply_date (isoformat day_numbers)) (parsed ++ concat (map snd blocks)) /\
    map fst blocks =
      filter (fun d => d ∉ (list_to_set (map sale_date parsed) : gset Z))
             (seqZ 10 (13 - 10 + 1)) /\
    Forall (fun b =>
              1 <= length (snd b) <= 5 /\
              Forall (fun s => sale_date s = fst b /\ customer_id s ∈ some_customers /\
                               product_id s ∈ some_products /\ (1 <= quantity s <= 5)%Z)
                     (snd b))
           blocks.
Proof.
  intros parsed.
  assert (Hcs : some_customers ≠ []) by discriminate.
  assert (Hps : some_products ≠ []) by discriminate.
  assert (Hparse : parse_dates day_numbers some_sales = inr parsed) by reflexivity.
  split; [exact lcg_ok|]. split; [exact Hcs|]. split; [exact Hps|]. split; [exact Hparse|].
  exact (generate_missing_sales_fills_gaps lcg day_numbers some_customers some_products
           some_sales 10 13 (Some 42%Z) 0%N parsed lcg_ok Hcs Hps Hparse).
Defined.

Lemma silent_quiet : quiet silent.
Proof. intros msg w. reflexivity. Qed.

Lemma customer_analytics_fails_on_empty_result_witness :
  let d := Path database_path in
  let files := body_view database_path empty_tables in
  let res := customer_analytics warehouse silent database_path empty_tables in
  let db1 := <["customer_analytics" := mkTable [] []]> (catalog empty_tables d) in
  quiet silent /\
  dir_available (parent d) empty_tables = true /\ unobstructed d empty_tables = true /\
  engine_execute warehouse customer_analytics_query files (catalog empty_tables d)
    = (db1, inr [[VInt 0]]) /\
  engine_execute warehouse top_customer_query (<[d := NDatabase db1]> files) db1
    = (db1, inr []) /\
  (snd res = Raise TypeError /\
   catalog (fst res) d = db1 /\
   conns (fst res) !! d = None /\
   flocks (fst res) !! Path (lock_file_path d) = None).
Proof.
  intros d files res db1. split; [exact silent_quiet|]. do 4 (split; [reflexivity|]).
  apply (customer_analytics_fails_on_empty_result warehouse silent database_path
           empty_tables db1 db1 [[VInt 0]] silent_quiet); reflexivity.
Defined.

Lemma product_metrics_tolerates_empty_result_witness :
  let d := Path database_path in
  let files := body_view database_path empty_tables in
  let res := product_metrics warehouse silent database_path empty_tables in
  let db1 := <["product_metrics" := mkTable [] []]> (catalog empty_tables d) in
  quiet silent /\
  dir_available (parent d) empty_tables = true /\ unobstructed d empty_tables = true /\
  engine_execute warehouse product_metrics_query files (catalog empty_tables d)
    = (db1, inr [[VInt 0]]) /\
  engine_execute warehouse top_margin_query (<[d := NDatabase db1]> files) db1
    = (db1, inr []) /\
  (snd res = Return tt /\
   catalog (fst res) d = db1 /\
   conns (fst res) !! d = None /\
   flocks (fst res) !! Path (lock_file_path d) = None).
Proof.
  intros d files res db1. split; [exact silent_quiet|]. do 4 (split; [reflexivity|]).
  apply (product_metrics_tolerates_empty_result warehouse silent database_path
           empty_tables db1 db1 [[VInt 0]] silent_quiet); reflexivity.
Defined.

